(** * xsign: the signing orchestration engine of ios-signer-app

    A shallow embedding of [src/xsign.py] and the properties of its
    specification.  The Python code drives external tools (PlistBuddy,
    codesign, perl, security, xcodebuild) over a file system; here the file
    system, the identifier memo table, the log and the clock are fields of an
    explicit session state that every operation threads through a small
    state-and-exception monad. *)

From Stdlib Require Import ZArith QArith Qround String Ascii List Lia Lqa DecimalString.
From stdpp Require Import base option list gmap strings pretty.

Set Warnings "-register-all".

Local Open Scope Z_scope.
Local Open Scope string_scope.
Local Open Scope list_scope.

(** ** Python strings *)

Module Py.

(** [s[n:]] for a non-negative [n]. *)
Fixpoint drop (n : nat) (s : string) : string :=
  match n, s with
  | O, _ => s
  | S _, EmptyString => EmptyString
  | S n', String _ s' => drop n' s'
  end.

(** [s[:n]] for a non-negative [n]. *)
Fixpoint take (n : nat) (s : string) : string :=
  match n, s with
  | O, _ => EmptyString
  | S _, EmptyString => EmptyString
  | S n', String a s' => String a (take n' s')
  end.

Fixpoint find_from (c : ascii) (s : string) (i : Z) : Z :=
  match s with
  | EmptyString => -1
  | String a s' => if Ascii.eqb a c then i else find_from c s' (i + 1)
  end.

(** [s.find(c)] for a one-character needle: the first index, or -1. *)
Definition find (c : ascii) (s : string) : Z := find_from c s 0.

(** [s[k:]] for any integer [k]; a negative [k] counts from the end and
    is clamped at the start, as Python slices are. *)
Definition slice_from (k : Z) (s : string) : string :=
  if (0 <=? k)%Z then drop (Z.to_nat k) s
  else drop (Z.to_nat (Z.max 0 (Z.of_nat (String.length s) + k))) s.

(** [sub in s]. *)
Fixpoint contains (sub s : string) : bool :=
  String.prefix sub s
  || match s with
     | EmptyString => false
     | String _ s' => contains sub s'
     end.

(** [c in s] for a single character. *)
Fixpoint contains_char (c : ascii) (s : string) : bool :=
  match s with
  | EmptyString => false
  | String a s' => Ascii.eqb a c || contains_char c s'
  end.

Definition is_space (a : ascii) : bool :=
  let n := nat_of_ascii a in
  (Nat.eqb n 32 || (Nat.leb 9 n && Nat.leb n 13))%bool.

Fixpoint lstrip (s : string) : string :=
  match s with
  | EmptyString => EmptyString
  | String a s' => if is_space a then lstrip s' else s
  end.

Fixpoint rstrip (s : string) : string :=
  match s with
  | EmptyString => EmptyString
  | String a s' =>
      match rstrip s' with
      | EmptyString => if is_space a then EmptyString else String a EmptyString
      | r => String a r
      end
  end.

(** [s.strip()]. *)
Definition strip (s : string) : string := rstrip (lstrip s).

Definition newline : ascii := ascii_of_nat 10.

Fixpoint split_go (c : ascii) (s : string) (cur : string) : list string :=
  match s with
  | EmptyString => [cur]
  | String a s' =>
      if Ascii.eqb a c then cur :: split_go c s' EmptyString
      else split_go c s' (cur +:+ String a EmptyString)
  end.

(** [s.split(c)] for a one-character separator. *)
Definition split (c : ascii) (s : string) : list string := split_go c s EmptyString.

(** [s.splitlines()] on line feeds: no empty last line after a final
    line feed, and no line at all for the empty string. *)
Definition splitlines (s : string) : list string :=
  match s with
  | EmptyString => []
  | _ =>
      let ls := split newline s in
      match last ls with
      | Some EmptyString => removelast ls
      | _ => ls
      end
  end.

(** [l[1:-1]]. *)
Definition middle {A} (l : list A) : list A := removelast (tail l).

(** [sep.join(l)]. *)
Fixpoint join (sep : string) (l : list string) : string :=
  match l with
  | [] => EmptyString
  | [x] => x
  | x :: rest => x +:+ sep +:+ join sep rest
  end.

(** The characters [re.escape] puts a backslash before (Python 3.7 and
    later): [()[]{}?*+-|^$\.&~#] and the white space characters. *)
Definition re_special (a : ascii) : bool :=
  contains_char a "()[]{}?*+-|^$\.&~# " || is_space a.

(** [re.escape(s)]. *)
Fixpoint re_escape (s : string) : string :=
  match s with
  | EmptyString => EmptyString
  | String a s' =>
      if re_special a then String "\" (String a (re_escape s'))
      else String a (re_escape s')
  end.

End Py.

(** ** Property lists and PlistBuddy *)

(** A property-list value.  A dictionary nested inside a value keeps the
    order of its entries; the root dictionary of a file is a finite map. *)
Inductive PVal : Type :=
  | PString (s : string)
  | PBool (b : bool)
  | PInteger (z : Z)
  | PArray (xs : list PVal)
  | PDict (kvs : list (string * PVal)).

Abbreviation Plist := (gmap string PVal).

Inductive PBType : Type := TString | TBool | TInteger | TArray | TDict.

(** The PlistBuddy commands the signer issues.  [PB_AddAt k i] is
    [Add :k:i type value], an entry of the array at [k]. *)
Inductive PBCmd : Type :=
  | PB_Print (key : string)
  | PB_Delete (key : string)
  | PB_Set (key : string) (value : string)
  | PB_Add (key : string) (ty : PBType) (value : string)
  | PB_AddAt (key : string) (idx : nat) (ty : PBType) (value : string).

Module PlistBuddy.

Definition indent (l : string) : string := "    " +:+ l.

(** The lines PlistBuddy prints for a value. *)
Fixpoint render (v : PVal) : list string :=
  match v with
  | PString s => [s]
  | PBool b => [if b then "true" else "false"]
  | PInteger z => [pretty z]
  | PArray xs => "Array {" :: map indent (flat_map render xs) ++ ["}"]
  | PDict kvs =>
      "Dict {"
      :: map indent
           (flat_map
              (fun kv =>
                 match render (snd kv) with
                 | [] => [fst kv +:+ " = "]
                 | l :: ls => (fst kv +:+ " = " +:+ l) :: ls
                 end)
              kvs)
      ++ ["}"]
  end.

Definition parse_bool (s : string) : bool :=
  bool_decide (s ∈ ["true"; "True"; "TRUE"; "yes"; "Yes"; "YES"; "1"]).

Definition parse_integer (s : string) : Z :=
  match DecimalString.NilZero.int_of_string s with
  | Some d => Z.of_int d
  | None => 0
  end.

(** The value a command's type and text denote. *)
Definition value_of (ty : PBType) (text : string) : PVal :=
  match ty with
  | TString => PString text
  | TBool => PBool (parse_bool text)
  | TInteger => PInteger (parse_integer text)
  | TArray => PArray []
  | TDict => PDict []
  end.

(** [Set] keeps the type of the entry it overwrites and refuses
    containers. *)
Definition set_value (old : PVal) (text : string) : option PVal :=
  match old with
  | PString _ => Some (PString text)
  | PBool _ => Some (PBool (parse_bool text))
  | PInteger _ => Some (PInteger (parse_integer text))
  | PArray _ | PDict _ => None
  end.

Definition insert_at {A} (i : nat) (x : A) (l : list A) : list A :=
  firstn i l ++ x :: skipn i l.

(** One command on the root dictionary: the text printed and the new
    dictionary, or [None] when PlistBuddy exits with an error. *)
Definition run (cmd : PBCmd) (m : Plist) : option (string * Plist) :=
  match cmd with
  | PB_Print k =>
      v ← m !! k; Some (Py.join (String Py.newline EmptyString) (render v), m)
  | PB_Delete k =>
      _ ← m !! k; Some (EmptyString, delete k m)
  | PB_Set k text =>
      v ← m !! k; v' ← set_value v text; Some (EmptyString, <[k := v']> m)
  | PB_Add k ty text =>
      match m !! k with
      | Some _ => None
      | None => Some (EmptyString, <[k := value_of ty text]> m)
      end
  | PB_AddAt k i ty text =>
      match m !! k with
      | Some (PArray xs) =>
          Some (EmptyString, <[k := PArray (insert_at i (value_of ty text) xs)]> m)
      | _ => None
      end
  end.

End PlistBuddy.

(** ** perl -p -i -e 's/OLD/NEW/g' *)

Module Perl.

(** Characters that mean something to perl when they stand bare in the
    pattern of [s/.../.../g], and in its replacement. *)
Definition special_in_pattern (a : ascii) : bool :=
  Py.contains_char a "/\^$.|?*+()[]{}@".

Definition special_in_replacement (a : ascii) : bool :=
  Py.contains_char a "/\$@".

Definition is_alnum (a : ascii) : bool :=
  let n := nat_of_ascii a in
  ((Nat.leb 48 n && Nat.leb n 57) || (Nat.leb 65 n && Nat.leb n 90)
   || (Nat.leb 97 n && Nat.leb n 122) || Nat.eqb n 95)%bool.

(** Reads one delimited part up to the closing [/]: a backslash before a
    character that is not a letter, digit or line break stands for that
    character; a bare special character, a backslash before a letter or
    digit, and a line break are outside the fragment modelled here. *)
Fixpoint read_part (special : ascii → bool) (s : string) : option (string * string) :=
  match s with
  | EmptyString => None
  | String "/" rest => Some (EmptyString, rest)
  | String "\" (String a rest) =>
      if is_alnum a || Ascii.eqb a Py.newline then None
      else '(lit, rest') ← read_part special rest; Some (String a lit, rest')
  | String a rest =>
      if special a || Ascii.eqb a Py.newline then None
      else '(lit, rest') ← read_part special rest; Some (String a lit, rest')
  end.

(** The literal pattern and replacement of [s/OLD/NEW/g]. *)
Definition parse (expr : string) : option (string * string) :=
  match expr with
  | String "s" (String "/" rest) =>
      '(old, rest1) ← read_part special_in_pattern rest;
      '(new, rest2) ← read_part special_in_replacement rest1;
      if String.eqb rest2 "g" then
        match old with EmptyString => None | _ => Some (old, new) end
      else None
  | _ => None
  end.

(** Leftmost, non-overlapping replacement of every occurrence of the
    literal [old]; [skip] counts the characters of a match still to be
    passed over. *)
Fixpoint replace_go (old new : string) (skip : nat) (s : string) : string :=
  match s with
  | EmptyString => EmptyString
  | String a s' =>
      match skip with
      | S k => replace_go old new k s'
      | O =>
          if String.prefix old s
          then new +:+ replace_go old new (String.length old - 1) s'
          else String a (replace_go old new O s')
      end
  end.

Definition replace_all (old new s : string) : string := replace_go old new O s.

End Perl.

(** ** Exceptions, results and the session state *)

Inductive ExnKind : Type :=
  | KException
  | KTimeoutExpired
  | KStopIteration
  | KIndexError
  | KKeyError
  | KOSError.

(** A Python exception: its class, its message and its [__cause__]. *)
Inductive Exn : Type :=
  | MkExn (kind : ExnKind) (msg : string) (cause : option Exn).

Definition exn_kind (e : Exn) : ExnKind := let 'MkExn k _ _ := e in k.
Definition exn_msg (e : Exn) : string := let 'MkExn _ m _ := e in m.
Definition exn_cause (e : Exn) : option Exn := let 'MkExn _ _ c := e in c.

(** [isinstance(e.__cause__, TimeoutExpired)]. *)
Definition cause_is_timeout (e : Exn) : bool :=
  match exn_cause e with
  | Some (MkExn KTimeoutExpired _ _) => true
  | _ => false
  end.

(** How a call ends: with a value, with an exception, or, for the model
    only, with the loop budget of [exec_retry] used up. *)
Inductive Result (A : Type) : Type :=
  | Ok (a : A)
  | Raise (e : Exn)
  | OutOfFuel.
Arguments Ok {A} a.
Arguments Raise {A} e.
Arguments OutOfFuel {A}.

Abbreviation Path := (list string).

(** [p.joinpath(name)]. *)
Definition joinpath (p : Path) (name : string) : Path := p ++ [name].

(** [path.relative_to(base)] succeeds exactly when the parts of [base]
    start the parts of [path]. *)
Definition relative_to (path base : Path) : bool := bool_decide (base `prefix_of` path).

(** What a file holds: text (or bytes), a property list, or a
    provisioning profile, kept as the manifest [security cms -D] decodes
    from it.  The same type stands for the text of a document the code
    passes around before writing it. *)
Inductive File : Type :=
  | FText (s : string)
  | FPlist (m : Plist)
  | FProv (manifest : Plist).

(** What one run of xcodebuild does: how long it takes and how it ends.
    A successful archive issues a provisioning profile and a product
    signed with the entitlements the issuing authority granted. *)
Inductive XcodeOutcome : Type :=
  | XSuccess (profile : Plist) (granted : Plist)
  | XTimeout
  | XFailure.

Record XcodeRun : Type := { xr_duration : Q; xr_outcome : XcodeOutcome }.

(** A process started by [codesign_async]. *)
Record Popen : Type := {
  popen_component : Path;
  popen_entitlements : option Path;
  popen_returncode : Z
}.

(** What the scheduler does, in order. *)
Inductive Event : Type :=
  | EvDispatch (component : Path) (entitlements : option File)
  | EvWait (component : Path)
  | EvCheck (component : Path) (returncode : Z).

Record St : Type := {
  fs : gmap Path File;                 (* the file system *)
  signatures : gmap Path Plist;        (* entitlements in a bundle's signature *)
  mappings : gmap string string;       (* the identifier memo table *)
  log : list string;                   (* what print wrote *)
  clock : Q;                           (* time.time() *)
  xcode : list XcodeRun;               (* the coming xcodebuild runs *)
  tmp_count : nat;                     (* temporary names handed out *)
  trace : list Event                   (* codesign processes: start, wait, check *)
}.

Definition set_fs (f : gmap Path File → gmap Path File) (st : St) : St :=
  {| fs := f (fs st); signatures := signatures st; mappings := mappings st;
     log := log st; clock := clock st; xcode := xcode st;
     tmp_count := tmp_count st; trace := trace st |}.

Definition set_signatures (f : gmap Path Plist → gmap Path Plist) (st : St) : St :=
  {| fs := fs st; signatures := f (signatures st); mappings := mappings st;
     log := log st; clock := clock st; xcode := xcode st;
     tmp_count := tmp_count st; trace := trace st |}.

Definition set_mappings (f : gmap string string → gmap string string) (st : St) : St :=
  {| fs := fs st; signatures := signatures st; mappings := f (mappings st);
     log := log st; clock := clock st; xcode := xcode st;
     tmp_count := tmp_count st; trace := trace st |}.

Definition add_log (line : string) (st : St) : St :=
  {| fs := fs st; signatures := signatures st; mappings := mappings st;
     log := log st ++ [line]; clock := clock st; xcode := xcode st;
     tmp_count := tmp_count st; trace := trace st |}.

Definition set_clock_xcode (t : Q) (runs : list XcodeRun) (st : St) : St :=
  {| fs := fs st; signatures := signatures st; mappings := mappings st;
     log := log st; clock := t; xcode := runs;
     tmp_count := tmp_count st; trace := trace st |}.

Definition bump_tmp (st : St) : St :=
  {| fs := fs st; signatures := signatures st; mappings := mappings st;
     log := log st; clock := clock st; xcode := xcode st;
     tmp_count := S (tmp_count st); trace := trace st |}.

Definition add_event (ev : Event) (st : St) : St :=
  {| fs := fs st; signatures := signatures st; mappings := mappings st;
     log := log st; clock := clock st; xcode := xcode st;
     tmp_count := tmp_count st; trace := trace st ++ [ev] |}.

(** The session monad: state passing, with the state kept when an
    exception is raised, as Python keeps its effects. *)
Definition M (A : Type) : Type := St → Result A * St.

#[global] Instance M_ret : MRet M := λ A a st, (Ok a, st).

#[global] Instance M_bind : MBind M := λ A B f m st,
  match m st with
  | (Ok a, st') => f a st'
  | (Raise e, st') => (Raise e, st')
  | (OutOfFuel, st') => (OutOfFuel, st')
  end.

Definition raise {A} (e : Exn) : M A := λ st, (Raise e, st).

Definition gets {A} (f : St → A) : M A := λ st, (Ok (f st), st).

Definition modify (f : St → St) : M unit := λ st, (Ok tt, f st).

(** [print(line)]. *)
Definition print (line : string) : M unit := modify (add_log line).

(** [try: m except: handler()] with a bare [except]. *)
Definition try_except {A} (m : M A) (handler : M A) : M A := λ st,
  match m st with
  | (Raise _, st') => handler st'
  | r => r
  end.

(** [try: m except Exception as e: handler e]. *)
Definition try_except_as {A} (m : M A) (handler : Exn → M A) : M A := λ st,
  match m st with
  | (Raise e, st') => handler e st'
  | r => r
  end.

(** The model's own stop: the loop budget is used up. *)
Definition out_of_fuel {A} : M A := λ st, (OutOfFuel, st).

(** [try: m finally: cleanup]. *)
Definition try_finally {A} (m : M A) (cleanup : M unit) : M A := λ st,
  match m st with
  | (Ok a, st') => (_ ← cleanup; mret a) st'
  | (Raise e, st') => (_ ← cleanup; raise e) st'
  | (OutOfFuel, st') => (OutOfFuel, st')
  end.

(** [for x in xs: body x]. *)
Fixpoint for_each {A} (xs : list A) (body : A → M unit) : M unit :=
  match xs with
  | [] => mret tt
  | x :: rest => _ ← body x; for_each rest body
  end.

(** ** The environment: what the session cannot compute *)

Record Env : Type := {
  (** [util.gen_id(original, seed)], the deterministic encoder. *)
  gen_id : string → string → string;
  (** [directory.glob(pattern)], in the order pathlib yields the paths. *)
  glob : Path → string → list Path;
  (** The exit status codesign ends with for a component. *)
  codesign_status : Path → Z;
  (** Whether [pipe.poll()] is still [None] for a component's process
      once the given number of scheduler events has happened. *)
  poll_running : Path → nat → bool;
  (** How many loop tests of [exec_retry] the model follows. *)
  retry_budget : nat
}.

(** ** File-system primitives *)

(** Modelled from the spec: [util.run_process] and [util.decode_clean],
    "the plist/process micro-helpers, which are thin I/O wrappers".  A
    tool that "returns non-zero" makes the call raise, unless the caller
    passes [check=False] ("caller-suppressible"); the output comes back
    as text. *)
Definition process_failed (tool : string) : Exn :=
  MkExn KException (tool +:+ " failed") None.

Definition no_such_file (p : Path) : Exn :=
  MkExn KOSError ("No such file or directory: " +:+ Py.join "/" p) None.

(** [with open(p, "w") as f: f.write(content)]. *)
Definition write_file (p : Path) (content : File) : M unit :=
  modify (set_fs (insert p content)).

Definition under (dir : Path) (fsys : gmap Path File) : gmap Path File :=
  filter (λ kv, dir `prefix_of` kv.1) fsys.

Definition outside (dir : Path) (fsys : gmap Path File) : gmap Path File :=
  filter (λ kv, ¬ dir `prefix_of` kv.1) fsys.

(** [p.exists()] for a directory: some file lies under it. *)
Definition dir_exists (dir : Path) : M bool :=
  gets (λ st, bool_decide (under dir (fs st) ≠ ∅)).

(** [shutil.rmtree(dir)]. *)
Definition rmtree (dir : Path) : M unit := modify (set_fs (outside dir)).

(** [os.remove(p)]. *)
Definition os_remove (p : Path) : M unit := λ st,
  match fs st !! p with
  | Some _ => (Ok tt, set_fs (delete p) st)
  | None => (Raise (no_such_file p), st)
  end.

(** [shutil.copy2(src, dst)]. *)
Definition copy2 (src dst : Path) : M unit := λ st,
  match fs st !! src with
  | Some c => (Ok tt, set_fs (insert dst c) st)
  | None => (Raise (no_such_file src), st)
  end.

(** [shutil.move(src, dst)] of a file. *)
Definition move (src dst : Path) : M unit := λ st,
  match fs st !! src with
  | Some c => (Ok tt, set_fs (λ m, <[dst := c]> (delete src m)) st)
  | None => (Raise (no_such_file src), st)
  end.

(** The files of [src], re-rooted at [dst]. *)
Definition rebase (src dst : Path) (fsys : gmap Path File) : gmap Path File :=
  list_to_map
    (map (λ kv, (dst ++ skipn (length src) kv.1, kv.2)) (map_to_list (under src fsys))).

(** [shutil.copytree(src, dst)]. *)
Definition copytree (src dst : Path) : M unit := λ st,
  if bool_decide (under src (fs st) = ∅) then (Raise (no_such_file src), st)
  else (Ok tt, set_fs (λ m, rebase src dst m ∪ m) st).

Definition tmp_name (n : nat) : string := "tmp" +:+ pretty n.

(** The [n]-th temporary directory, under the system's temporary root. *)
Definition tmp_dir (n : nat) : Path := ["tmp"; tmp_name n].

(** A path under the temporary root. *)
Definition temporary (p : Path) : Prop := ["tmp"] `prefix_of` p.

(** [tempfile.TemporaryDirectory()]: a fresh directory name. *)
Definition mkdtemp : M Path := λ st,
  (Ok (tmp_dir (tmp_count st)), bump_tmp st).

(** [with tempfile.TemporaryDirectory() as d: body d]: the directory is
    removed on every exit path. *)
Definition with_tmpdir {A} (body : Path → M A) : M A :=
  d ← mkdtemp; try_finally (body d) (rmtree d).

(** [tempfile.NamedTemporaryFile(dir=workdir, suffix=suffix, delete=False)]:
    a fresh, empty file that stays. *)
Definition named_temporary_file (workdir : Path) (suffix : string) : M Path := λ st,
  let p := joinpath workdir (tmp_name (tmp_count st) +:+ suffix) in
  (Ok p, set_fs (insert p (FText EmptyString)) (bump_tmp st)).

(** The text [read_file] returns for a file, as it is printed. *)
Definition show_file (c : File) : string :=
  match c with
  | FText s => s
  | FPlist m | FProv m =>
      Py.join (String Py.newline EmptyString) (PlistBuddy.render (PDict (map_to_list m)))
  end.

(** Modelled from the spec: [util.read_file], another of the "thin I/O
    wrappers": the text of a file. *)
Definition read_file (p : Path) : M string := λ st,
  match fs st !! p with
  | Some c => (Ok (show_file c), st)
  | None => (Raise (no_such_file p), st)
  end.

(** ** The tool wrappers of xsign.py *)

(** [plist_buddy(args, plist, check)]: with [check] a failing command
    raises; without it the failure is passed over and nothing changes. *)
Definition plist_buddy (args : PBCmd) (plist : Path) (check : bool) : M string := λ st,
  let failed :=
    if check then (Raise (process_failed "/usr/libexec/PlistBuddy"), st)
    else (Ok EmptyString, st) in
  match fs st !! plist with
  | Some (FPlist m) =>
      match PlistBuddy.run args m with
      | Some (out, m') => (Ok out, set_fs (insert plist (FPlist m')) st)
      | None => failed
      end
  | _ => failed
  end.

(** [plist_buddy("Print :" + key, plist, xml=True)]: the entry as a
    document of its own; only a dictionary makes a property list the
    later commands can address. *)
Definition plist_buddy_xml (key : string) (plist : Path) : M File := λ st,
  match fs st !! plist with
  | Some (FPlist m) =>
      match m !! key with
      | Some (PDict kvs) => (Ok (FPlist (list_to_map kvs)), st)
      | Some v =>
          (Ok (FText (Py.join (String Py.newline EmptyString) (PlistBuddy.render v))), st)
      | None => (Raise (process_failed "/usr/libexec/PlistBuddy"), st)
      end
  | _ => (Raise (process_failed "/usr/libexec/PlistBuddy"), st)
  end.

(** [codesign_async(identity, component, entitlements)]: starts the
    process and returns its handle. *)
Definition codesign_async (env : Env) (identity : string) (component : Path)
    (entitlements : option Path) : M Popen := λ st,
  let given := entitlements ≫= (λ p, fs st !! p) in
  (Ok {| popen_component := component;
         popen_entitlements := entitlements;
         popen_returncode := codesign_status env component |},
   add_event (EvDispatch component given) st).

(** [codesign_dump_entitlements(component)]. *)
Definition codesign_dump_entitlements (component : Path) : M File := λ st,
  match signatures st !! component with
  | Some m => (Ok (FPlist m), st)
  | None => (Raise (process_failed "/usr/bin/codesign"), st)
  end.

(** What the substitution does to the text of a file: to the whole of a
    text file, to the strings of a property list. *)
Fixpoint patch_value (old new : string) (v : PVal) : PVal :=
  match v with
  | PString s => PString (Perl.replace_all old new s)
  | PBool b => PBool b
  | PInteger z => PInteger z
  | PArray xs => PArray (map (patch_value old new) xs)
  | PDict kvs => PDict (map (λ kv, (fst kv, patch_value old new (snd kv))) kvs)
  end.

Definition patch_file (old new : string) (c : File) : File :=
  match c with
  | FText s => FText (Perl.replace_all old new s)
  | FPlist m => FPlist (patch_value old new <$> m)
  | FProv m => FProv m
  end.

(** [binary_replace(pattern, f)]: perl edits the file in place; a file
    that is not there is passed over with a warning. *)
Definition binary_replace (pattern : string) (f : Path) : M unit := λ st,
  match Perl.parse pattern with
  | None => (Raise (process_failed "perl"), st)
  | Some (old, new) =>
      match fs st !! f with
      | Some c => (Ok tt, set_fs (insert f (patch_file old new c)) st)
      | None => (Ok tt, st)
      end
  end.

(** [security_dump_prov(f)]. *)
Definition security_dump_prov (f : Path) : M File := λ st,
  match fs st !! f with
  | Some (FProv manifest) => (Ok (FPlist manifest), st)
  | _ => (Raise (process_failed "security"), st)
  end.

Definition plist_base : File := FPlist ∅.

Definition adhoc_options_plist : File :=
  FPlist (<["method" := PString "ad-hoc"]>
            (<["iCloudContainerEnvironment" := PString "Production"]> ∅)).

(** ** exec_retry and the build steps *)

(** [time.time()]. *)
Definition time_time : M Q := gets clock.

(** The overall deadline of [exec_retry], in seconds. *)
Definition retry_deadline : Q := 90.

Definition too_many_timeouts (name : string) (last_error : option Exn) : Exn :=
  MkExn KException (name +:+ " timed out too many times") last_error.

(** The [while] loop of [exec_retry]; [fuel] bounds the loop tests. *)
Fixpoint exec_retry_loop {A} (fuel : nat) (name : string) (func : M A)
    (start_time : Q) (last_error : option Exn) : M A :=
  match fuel with
  | O => out_of_fuel
  | S fuel' =>
      now ← time_time;
      if Qlt_le_dec (now - start_time) retry_deadline then
        try_except_as func (λ e,
          if cause_is_timeout e then
            _ ← print (name +:+ " timed out, retrying");
            exec_retry_loop fuel' name func start_time (Some e)
          else raise e)
      else raise (too_many_timeouts name last_error)
  end.

Definition exec_retry {A} (fuel : nat) (name : string) (func : M A) : M A :=
  start_time ← time_time;
  exec_retry_loop fuel name func start_time None.

(** Modelled from the spec: [util.open_xcode] and [util.kill_xcode], the
    "warm the tool" step around an attempt, "a mitigation for hang-prone
    behavior, not a correctness requirement": no effect on the state. *)
Definition open_xcode (project_dir : Path) : M unit := mret tt.
Definition kill_xcode (force : bool) : M unit := mret tt.

(** The well-known system location of provisioning profiles. *)
Definition prov_profiles_dir : Path :=
  ["~"; "Library"; "MobileDevice"; "Provisioning Profiles"].

(** Modelled from the spec: [util.get_prov_profiles], the "provisioning
    credential files in the well-known system location", an unordered
    resource. *)
Definition get_prov_profiles : M (list Path) :=
  gets (λ st, map fst (map_to_list (under prov_profiles_dir (fs st)))).

(** [run_process("xcodebuild", ..., timeout=20)]: the next run of the
    tool.  A success leaves a provisioning profile in the system location
    and a signed product at [product]; a run that exceeds the timeout is
    the "timeout-kind failure" of the specification, an exception whose
    cause is [TimeoutExpired]. *)
Definition xcodebuild (product : Path) : M unit := λ st,
  match xcode st with
  | [] => (Raise (process_failed "xcodebuild"), st)
  | run :: rest =>
      let st1 := set_clock_xcode (clock st + xr_duration run)%Q rest st in
      match xr_outcome run with
      | XSuccess profile granted =>
          let name := tmp_name (tmp_count st1) +:+ ".mobileprovision" in
          (Ok tt,
           set_signatures (insert product granted)
             (set_fs (insert (joinpath prov_profiles_dir name) (FProv profile))
                (bump_tmp st1)))
      | XTimeout =>
          (Raise (MkExn KException "xcodebuild timed out"
                    (Some (MkExn KTimeoutExpired "xcodebuild" None))), st1)
      | XFailure => (Raise (process_failed "xcodebuild"), st1)
      end
  end.

Definition archive_product (archive : Path) : Path :=
  archive ++ ["Products"; "Applications"; "SimpleApp.app"].

Definition _xcode_archive (project_dir : Path) (scheme_name : string) (archive : Path)
    : M unit :=
  xcodebuild (archive_product archive).

Definition xcode_archive (env : Env) (project_dir : Path) (scheme_name : string)
    (archive : Path) : M unit :=
  _ ← open_xcode project_dir;
  try_finally
    (exec_retry (retry_budget env) "xcode_archive"
       (_xcode_archive project_dir scheme_name archive))
    (kill_xcode true).

Definition _xcode_export (project_dir archive export_dir : Path) : M unit :=
  let options_plist := joinpath export_dir "options.plist" in
  _ ← write_file options_plist adhoc_options_plist;
  xcodebuild (joinpath export_dir "SimpleApp.ipa").

Definition xcode_export (env : Env) (project_dir archive export_dir : Path) : M unit :=
  _ ← open_xcode project_dir;
  try_finally
    (exec_retry (retry_budget env) "xcode_export"
       (_xcode_export project_dir archive export_dir))
    (kill_xcode true).

(** Modelled from the spec: [util.extract_zip], the zip extraction the
    spec leaves to a collaborator: the product packed in the archive
    appears under [dst] with its signature. *)
Definition extract_zip (ipa dst : Path) : M unit := λ st,
  match signatures st !! ipa with
  | Some granted =>
      (Ok tt, set_signatures (insert (dst ++ ["Payload"; "SimpleApp.app"]) granted) st)
  | None => (Raise (no_such_file ipa), st)
  end.

Definition dump_prov_entitlements_plist (prov_file entitlements_plist : Path) : M unit :=
  with_tmpdir (λ tmpdir,
    let prov_plist := joinpath tmpdir "prov.plist" in
    _ ← write_file prov_plist (FText EmptyString);
    s ← security_dump_prov prov_file;
    _ ← write_file prov_plist s;
    _ ← write_file entitlements_plist (FText EmptyString);
    s ← plist_buddy_xml "Entitlements" prov_plist;
    write_file entitlements_plist s).

(** ** Processes *)

(** [pipe.poll() is None]. *)
Definition popen_running (env : Env) (pipe : Popen) : M bool :=
  gets (λ st, poll_running env (popen_component pipe) (length (trace st))).

(** [pipe.wait()]. *)
Definition popen_wait (pipe : Popen) : M unit :=
  modify (add_event (EvWait (popen_component pipe))).

Definition popen_check (pipe : Popen) : M unit :=
  _ ← modify (add_event (EvCheck (popen_component pipe) (popen_returncode pipe)));
  if bool_decide (popen_returncode pipe ≠ 0) then
    raise (MkExn KException
             ("codesign failed with status code " +:+ pretty (popen_returncode pipe)) None)
  else mret tt.

Record SignOpts : Type := {
  app_dir : Path;
  common_name : string;
  team_id : string;
  prov_file : option Path;
  bundle_id : option string;
  bundle_name : option string;
  patch_debug : bool;
  patch_all_devices : bool;
  patch_file_sharing : bool;
  encode_ids : bool;
  patch_ids : bool;
  force_original_id : bool
}.

(** Python's truth value of an optional string: set and not empty. *)
Definition truthy (s : option string) : bool :=
  match s with
  | Some (String _ _) => true
  | _ => false
  end.

(** ** Paths and dictionaries *)

(** The index of the last [c] in [s], or -1: [s.rfind(c)]. *)
Fixpoint rfind_from (c : ascii) (s : string) (i : Z) : Z :=
  match s with
  | EmptyString => -1
  | String a s' =>
      let r := rfind_from c s' (i + 1) in
      if (0 <=? r)%Z then r else if Ascii.eqb a c then i else -1
  end.

(** [PurePath.suffix] of a name: from the last dot, unless the dot is the
    first or the last character. *)
Definition name_suffix (name : string) : string :=
  let i := rfind_from "." name 0 in
  if (0 <? i)%Z && (i <? Z.of_nat (String.length name) - 1)%Z
  then Py.drop (Z.to_nat i) name else EmptyString.

(** [PurePath.stem] of a name. *)
Definition name_stem (name : string) : string :=
  let i := rfind_from "." name 0 in
  if (0 <? i)%Z && (i <? Z.of_nat (String.length name) - 1)%Z
  then Py.take (Z.to_nat i) name else name.

Definition path_name (p : Path) : string := default EmptyString (last p).
Definition path_suffix (p : Path) : string := name_suffix (path_name p).
Definition path_stem (p : Path) : string := name_stem (path_name p).
Definition path_str (p : Path) : string := Py.join "/" p.

(** A Python [dict] whose order of insertion matters: [d[k] = v] keeps
    the place of a key that is there and appends a new one. *)
Fixpoint dict_set {K V} `{EqDecision K} (k : K) (v : V) (d : list (K * V)) : list (K * V) :=
  match d with
  | [] => [(k, v)]
  | (k', v') :: rest =>
      if decide (k' = k) then (k', v) :: rest else (k', v') :: dict_set k v rest
  end.

Fixpoint dict_get {K V} `{EqDecision K} (k : K) (d : list (K * V)) : option V :=
  match d with
  | [] => None
  | (k', v') :: rest => if decide (k' = k) then Some v' else dict_get k rest
  end.

(** [d.pop(k)]. *)
Fixpoint dict_pop {K V} `{EqDecision K} (k : K) (d : list (K * V)) : list (K * V) :=
  match d with
  | [] => []
  | (k', v') :: rest => if decide (k' = k) then rest else (k', v') :: dict_pop k rest
  end.

(** [set.add] on a set of strings kept in the order of its additions. *)
Definition set_add (x : string) (l : list string) : list string :=
  if bool_decide (x ∈ l) then l else l ++ [x].

(** ** sign: the main bundle identifier *)

(** Lines 191 to 218 of [sign]: the policy for the main bundle
    identifier. *)
Definition sign_main_bundle_id (env : Env) (opts : SignOpts) (old_main_bundle_id : string)
    : M string :=
  match prov_file opts with
  | Some pf =>
      match bundle_id opts with
      | None =>
          _ ← print "Using original bundle id";
          mret old_main_bundle_id
      | Some EmptyString =>
          _ ← print "Using provisioning profile's application id";
          with_tmpdir (λ tmpdir,
            let entitlements_plist := joinpath tmpdir "entitlements.plist" in
            _ ← dump_prov_entitlements_plist pf entitlements_plist;
            prov_app_id ← plist_buddy (PB_Print "application-identifier") entitlements_plist true;
            let main_bundle_id := Py.slice_from (Py.find "." prov_app_id + 1) prov_app_id in
            if Py.contains "*" main_bundle_id then
              _ ← print "Provisioning profile is wildcard, using original bundle id";
              mret old_main_bundle_id
            else mret main_bundle_id)
      | Some custom =>
          _ ← print "Using custom bundle id";
          mret custom
      end
  | None =>
      match bundle_id opts with
      | Some (String a rest) =>
          _ ← print "Using custom bundle id";
          mret (String a rest)
      | _ =>
          if encode_ids opts then
            _ ← print "Using encoded original bundle id";
            let seed := old_main_bundle_id +:+ team_id opts in
            mret (gen_id env old_main_bundle_id seed)
          else
            _ ← print "Using original bundle id";
            mret old_main_bundle_id
      end
  end.

(** ** sign_primary *)

(** Line 249: the identifier a component gets. *)
Definition component_bundle_id (main_bundle_id old_main_bundle_id old_bundle_id : string)
    : string :=
  main_bundle_id +:+ Py.drop (String.length old_main_bundle_id) old_bundle_id.

(** Lines 252 to 269: entitlements from the supplied provisioning
    profile. *)
Definition sign_primary_prov (opts : SignOpts) (pf : Path) (bundle_id : string)
    (embedded_prov entitlements_plist : Path) : M unit :=
  _ ← copy2 pf embedded_prov;
  _ ← dump_prov_entitlements_plist embedded_prov entitlements_plist;
  prov_app_id ← plist_buddy (PB_Print "application-identifier") entitlements_plist true;
  let component_app_id := team_id opts +:+ "." +:+ bundle_id in
  if String.eqb prov_app_id component_app_id || Py.contains "*" prov_app_id then
    _ ← plist_buddy (PB_Set "application-identifier" component_app_id) entitlements_plist true;
    mret tt
  else
    print ("WARNING: Provisioning profile's app id '" +:+ prov_app_id
           +:+ "' does not match component's app id '" +:+ component_app_id +:+ "'."
           +:+ String Py.newline
                 "Using provisioning profile's app id - the component will run, but its entitlements will be broken!").

(** Lines 300 to 328: the entitlement keys the oracle deletes. *)
Definition stripped_entitlements : list string :=
  [ "application-identifier";
    "com.apple.developer.team-identifier";
    "get-task-allow";
    "com.apple.developer.in-app-payments";
    "com.apple.developer.mail-client";
    "com.apple.developer.web-browser";
    "com.apple.developer.networking.multicast";
    "com.apple.developer.usernotifications.filtering";
    "com.apple.developer.usernotifications.critical-alerts";
    "com.apple.developer.networking.HotspotHelper";
    "com.apple.managed.vpn.shared";
    "beta-reports-active";
    "com.apple.developer.carplay-messaging";
    "com.apple.developer.pushkit.unrestricted-voip";
    "com.apple.developer.associated-appclip-app-identifiers" ].

(** Lines 335 to 338: the keys the oracle demotes, with their values. *)
Definition demoted_entitlements : list (string * string) :=
  [ ("com.apple.developer.icloud-container-environment", "Development");
    ("aps-environment", "development") ].

(** Lines 300 to 343: the two loops that strip and demote. *)
Definition strip_entitlements (xcode_entitlements_plist : Path) : M unit :=
  _ ← for_each stripped_entitlements (λ item,
        _ ← plist_buddy (PB_Delete item) xcode_entitlements_plist false; mret tt);
  for_each demoted_entitlements (λ kv,
    _ ← plist_buddy (PB_Set kv.1 kv.2) xcode_entitlements_plist false; mret tt).

(** Lines 385 to 393: one request to the identifier memo table. *)
Definition remap (env : Env) (opts : SignOpts) (remap_id : string) : M unit :=
  known ← gets mappings;
  match known !! remap_id with
  | Some _ => mret tt
  | None =>
      if encode_ids opts then
        let seed :=
          match bundle_id opts with
          | Some (String a rest) => String a rest
          | _ => remap_id +:+ team_id opts
          end in
        modify (set_mappings (insert remap_id (gen_id env remap_id seed)))
      else modify (set_mappings (insert remap_id remap_id))
  end.

(** [mappings[remap_id]]. *)
Definition mapping_of (remap_id : string) : M string := λ st,
  match mappings st !! remap_id with
  | Some v => (Ok v, st)
  | None => (Raise (MkExn KKeyError remap_id None), st)
  end.

(** The grouped-identifier entitlements of lines 347 to 355: the key, the
    prefix of its identifiers and the capabilities that need it. *)
Definition grouped_entitlements : list (string * string * list string) :=
  [ ("com.apple.security.application-groups", "group.", []);
    ("com.apple.developer.icloud-container-identifiers", "iCloud.",
     ["com.apple.developer.icloud-container-environment";
      "com.apple.developer.icloud-services"]);
    ("com.apple.developer.ubiquity-container-identifiers", "iCloud.", []) ].

(** Lines 368 to 379: the default identifier for the first capability of
    [parents] that is present. *)
Fixpoint default_remap_ids (parents : list string) (plist : Path) (bundle_id : string)
    : M (list string) :=
  match parents with
  | [] => mret []
  | parent :: rest =>
      try_except
        (_ ← plist_buddy (PB_Print parent) plist true; mret [bundle_id])
        (default_remap_ids rest plist bundle_id)
  end.

(** Lines 405 to 410: the rewritten entries and their patches. *)
Fixpoint add_remapped (entitlement prefix : string) (plist : Path) (i : nat)
    (remap_ids : list string) (patches : list (string * string))
    : M (list (string * string)) :=
  match remap_ids with
  | [] => mret patches
  | remap_id :: rest =>
      new_id ← mapping_of remap_id;
      _ ← plist_buddy (PB_AddAt entitlement i TString (prefix +:+ new_id)) plist true;
      add_remapped entitlement prefix plist (S i) rest
        (dict_set (prefix +:+ remap_id) (prefix +:+ new_id) patches)
  end.

(** Lines 356 to 410: one grouped-identifier entitlement. *)
Definition remap_group (env : Env) (opts : SignOpts) (plist : Path) (bundle_id : string)
    (group : string * string * list string) (patches : list (string * string))
    : M (list (string * string)) :=
  let '(entitlement, prefix, parents) := group in
  printed ← try_except (plist_buddy (PB_Print entitlement) plist true) (mret EmptyString);
  let listed :=
    map (λ remap_id, Py.drop (String.length prefix) (Py.strip remap_id))
      (Py.middle (Py.splitlines printed)) in
  remap_ids ←
    (if bool_decide (length listed < 1)%nat
     then default_remap_ids parents plist bundle_id
     else mret listed);
  if bool_decide (length remap_ids < 1)%nat then mret patches
  else
    _ ← for_each remap_ids (remap env opts);
    _ ← plist_buddy (PB_Delete entitlement) plist false;
    _ ← plist_buddy (PB_Add entitlement TArray EmptyString) plist true;
    add_remapped entitlement prefix plist O remap_ids patches.

Fixpoint remap_groups (env : Env) (opts : SignOpts) (plist : Path) (bundle_id : string)
    (groups : list (string * string * list string)) (patches : list (string * string))
    : M (list (string * string)) :=
  match groups with
  | [] => mret patches
  | g :: rest =>
      patches' ← remap_group env opts plist bundle_id g patches;
      remap_groups env opts plist bundle_id rest patches'
  end.

(** The perl program of line 426 for one pair. *)
Definition patch_expr (old new : string) : string :=
  "s/" +:+ Py.re_escape old +:+ "/" +:+ Py.re_escape new +:+ "/g".

(** Lines 418 to 423: the files that get the patches. *)
Definition patch_targets (opts : SignOpts) (xcode_entitlements_plist component_bin info_plist : Path)
    : list Path :=
  if patch_ids opts then [xcode_entitlements_plist; component_bin; info_plist]
  else [xcode_entitlements_plist].

(** Lines 417 to 426: every pair on every target. *)
Definition apply_patches (opts : SignOpts) (patches : list (string * string))
    (xcode_entitlements_plist component_bin info_plist : Path) : M unit :=
  _ ← print "Applying patches...";
  _ ← (if patch_ids opts then mret tt else print "Skipping component binary");
  for_each (patch_targets opts xcode_entitlements_plist component_bin info_plist)
    (λ target,
       for_each patches (λ kv, binary_replace (patch_expr kv.1 kv.2) target)).

(** [prov_profiles[0]] and [prov_profiles[1:]] of lines 453 to 456. *)
Definition keep_first_profile (embedded_prov : Path) : M unit :=
  prov_profiles ← get_prov_profiles;
  match prov_profiles with
  | [] => raise (MkExn KIndexError "list index out of range" None)
  | first :: others =>
      _ ← move first embedded_prov;
      for_each others os_remove
  end.

(** Lines 271 to 458: the credential oracle. *)
Definition sign_primary_oracle (env : Env) (opts : SignOpts)
    (main_bundle_id old_main_bundle_id : string) (is_distribution : bool)
    (component : Path) (old_bundle_id bundle_id : string)
    (info_plist component_bin embedded_prov entitlements_plist : Path) : M unit :=
  with_tmpdir (λ tmpdir,
    let simple_app_dir := joinpath tmpdir "SimpleApp" in
    _ ← copytree ["SimpleApp"] simple_app_dir;
    let xcode_entitlements_plist := simple_app_dir ++ ["SimpleApp"; "SimpleApp.entitlements"] in
    _ ← write_file xcode_entitlements_plist (FText EmptyString);
    s ← try_except (codesign_dump_entitlements component)
          (_ ← print "Failed to dump entitlements, using empty"; mret plist_base);
    _ ← write_file xcode_entitlements_plist s;
    ids1 ← try_except
             (t ← plist_buddy (PB_Print "com.apple.developer.team-identifier")
                    xcode_entitlements_plist true;
              mret (set_add t []))
             (_ ← print "Failed to read old team id from com.apple.developer.team-identifier";
              mret []);
    old_team_ids ← try_except
             (a ← plist_buddy (PB_Print "application-identifier") xcode_entitlements_plist true;
              mret (set_add (default EmptyString (head (Py.split "." a))) ids1))
             (_ ← print "Failed to read old team id from application-identifier";
              mret ids1);
    original ← read_file xcode_entitlements_plist;
    _ ← print ("Original entitlements:" +:+ String Py.newline original);
    _ ← strip_entitlements xcode_entitlements_plist;
    patches ← remap_groups env opts xcode_entitlements_plist bundle_id grouped_entitlements [];
    let patches := fold_left (λ d old_team_id, dict_set old_team_id (team_id opts) d)
                     old_team_ids patches in
    let patches := dict_set old_bundle_id bundle_id patches in
    let patches := dict_set old_main_bundle_id main_bundle_id patches in
    _ ← apply_patches opts patches xcode_entitlements_plist component_bin info_plist;
    patched ← read_file xcode_entitlements_plist;
    _ ← print ("Patched entitlements:" +:+ String Py.newline patched);
    let simple_app_proj := joinpath simple_app_dir "SimpleApp.xcodeproj" in
    let simple_app_pbxproj := joinpath simple_app_proj "project.pbxproj" in
    _ ← binary_replace ("s/BUNDLE_ID_HERE_V9KP12/" +:+ bundle_id +:+ "/g") simple_app_pbxproj;
    _ ← binary_replace ("s/DEV_TEAM_HERE_J8HK5C/" +:+ team_id opts +:+ "/g") simple_app_pbxproj;
    stale ← get_prov_profiles;
    _ ← for_each stale os_remove;
    _ ← print "Obtaining provisioning profile...";
    _ ← print "Archiving app...";
    let archive := joinpath simple_app_dir "archive.xcarchive" in
    _ ← xcode_archive env simple_app_proj "SimpleApp" archive;
    output_bin ←
      (if is_distribution then
         _ ← print "Exporting app...";
         stale ← get_prov_profiles;
         _ ← for_each stale os_remove;
         _ ← xcode_export env simple_app_proj archive simple_app_dir;
         let exported_ipa := joinpath simple_app_dir "SimpleApp.ipa" in
         _ ← extract_zip exported_ipa simple_app_dir;
         mret (simple_app_dir ++ ["Payload"; "SimpleApp.app"])
       else mret (archive_product archive));
    _ ← keep_first_profile embedded_prov;
    _ ← write_file entitlements_plist (FText EmptyString);
    dumped ← codesign_dump_entitlements output_bin;
    write_file entitlements_plist dumped).

(** Lines 460 to 465: the bundle identifier of the manifest. *)
Definition set_bundle_identifier (opts : SignOpts) (old_bundle_id bundle_id : string)
    (info_plist : Path) : M unit :=
  if force_original_id opts then
    _ ← print "Keeping original CFBundleIdentifier";
    _ ← plist_buddy (PB_Set "CFBundleIdentifier" old_bundle_id) info_plist true;
    mret tt
  else
    _ ← print ("Setting CFBundleIdentifier to " +:+ bundle_id);
    _ ← plist_buddy (PB_Set "CFBundleIdentifier" bundle_id) info_plist true;
    mret tt.

(** Lines 467 to 472: the debugging entitlement. *)
Definition set_debugging (opts : SignOpts) (entitlements_plist : Path) : M unit :=
  _ ← plist_buddy (PB_Delete "get-task-allow") entitlements_plist false;
  if patch_debug opts then
    _ ← plist_buddy (PB_Add "get-task-allow" TBool "true") entitlements_plist true;
    print "Enabled app debugging"
  else print "Disabled app debugging".

(** Lines 474 to 481: support for all devices. *)
Definition force_all_devices (opts : SignOpts) (info_plist : Path) : M unit :=
  if patch_all_devices opts then
    _ ← print "Force enabling support for all devices";
    _ ← plist_buddy (PB_Delete "UISupportedDevices") info_plist false;
    _ ← plist_buddy (PB_Delete "UIDeviceFamily") info_plist false;
    _ ← plist_buddy (PB_Add "UIDeviceFamily" TArray EmptyString) info_plist true;
    _ ← plist_buddy (PB_AddAt "UIDeviceFamily" 0 TInteger "1") info_plist true;
    _ ← plist_buddy (PB_AddAt "UIDeviceFamily" 1 TInteger "2") info_plist true;
    mret tt
  else mret tt.

(** Lines 483 to 488: file sharing. *)
Definition force_file_sharing (opts : SignOpts) (info_plist : Path) : M unit :=
  if patch_file_sharing opts then
    _ ← print "Force enabling file sharing";
    _ ← plist_buddy (PB_Delete "UIFileSharingEnabled") info_plist false;
    _ ← plist_buddy (PB_Add "UIFileSharingEnabled" TBool "true") info_plist true;
    _ ← plist_buddy (PB_Delete "UISupportsDocumentBrowser") info_plist false;
    _ ← plist_buddy (PB_Add "UISupportsDocumentBrowser" TBool "true") info_plist true;
    mret tt
  else mret tt.

(** Lines 460 to 491: the manifest, the debugging flag, the device and
    file-sharing policies, and the start of codesign. *)
Definition sign_primary_finish (env : Env) (opts : SignOpts) (component : Path)
    (old_bundle_id bundle_id : string) (info_plist entitlements_plist : Path) : M Popen :=
  _ ← set_bundle_identifier opts old_bundle_id bundle_id info_plist;
  _ ← set_debugging opts entitlements_plist;
  _ ← force_all_devices opts info_plist;
  _ ← force_file_sharing opts info_plist;
  shown ← read_file entitlements_plist;
  _ ← print ("Signing with entitlements:" +:+ String Py.newline shown);
  codesign_async env (common_name opts) component (Some entitlements_plist).

Definition sign_secondary (env : Env) (opts : SignOpts) (component workdir : Path)
    : M Popen :=
  _ ← print "Signing with original entitlements";
  codesign_async env (common_name opts) component None.

(** Lines 252 to 458: the entitlements and the embedded profile, from
    the supplied profile or from the oracle. *)
Definition sign_primary_entitlements (env : Env) (opts : SignOpts)
    (main_bundle_id old_main_bundle_id : string) (is_distribution : bool)
    (component : Path) (old_bundle_id bundle_id : string)
    (info_plist component_bin embedded_prov entitlements_plist : Path) : M unit :=
  match prov_file opts with
  | Some pf => sign_primary_prov opts pf bundle_id embedded_prov entitlements_plist
  | None =>
      sign_primary_oracle env opts main_bundle_id old_main_bundle_id is_distribution
        component old_bundle_id bundle_id info_plist component_bin embedded_prov
        entitlements_plist
  end.

Definition sign_primary (env : Env) (opts : SignOpts)
    (main_bundle_id old_main_bundle_id : string) (is_distribution : bool)
    (component workdir : Path) : M Popen :=
  let info_plist := joinpath component "Info.plist" in
  entitlements_plist ← named_temporary_file workdir ".plist";
  let embedded_prov := joinpath component "embedded.mobileprovision" in
  old_bundle_id ← plist_buddy (PB_Print "CFBundleIdentifier") info_plist true;
  let bundle_id := component_bundle_id main_bundle_id old_main_bundle_id old_bundle_id in
  let component_bin := joinpath component (path_stem component) in
  _ ← sign_primary_entitlements env opts main_bundle_id old_main_bundle_id is_distribution
        component old_bundle_id bundle_id info_plist component_bin embedded_prov
        entitlements_plist;
  sign_primary_finish env opts component old_bundle_id bundle_id info_plist entitlements_plist.

(** ** The scheduler *)

(** Lines 499 to 509: before a component is dispatched, every job whose
    path lies in it is waited for, checked and dropped; [keys] is the
    snapshot [list(jobs.keys())]. *)
Fixpoint settle_contained (env : Env) (component : Path) (keys : list Path)
    (jobs : list (Path * Popen)) : M (list (Path * Popen)) :=
  match keys with
  | [] => mret jobs
  | path :: rest =>
      match dict_get path jobs with
      | None => raise (MkExn KKeyError (path_str path) None)
      | Some pipe =>
          if relative_to path component then
            popen_running env pipe ≫= λ running : bool,
            _ ← (if running then
                   _ ← print ("Waiting for sub-component to finish signing: " +:+ path_str path);
                   popen_wait pipe
                 else mret tt);
            _ ← popen_check pipe;
            settle_contained env component rest (dict_pop path jobs)
          else settle_contained env component rest jobs
      end
  end.

(** Lines 496 to 521: the loop over the components. *)
Fixpoint sign_components (env : Env) (opts : SignOpts)
    (main_bundle_id old_main_bundle_id : string) (is_distribution : bool) (tmpdir : Path)
    (components : list Path) (jobs : list (Path * Popen)) : M (list (Path * Popen)) :=
  match components with
  | [] => mret jobs
  | component :: rest =>
      _ ← print ("Preparing component " +:+ path_str component);
      jobs ← settle_contained env component (map fst jobs) jobs;
      _ ← print "Processing";
      let sc_info := joinpath component "SC_Info" in
      dir_exists sc_info ≫= λ leftover : bool,
      _ ← (if leftover then
             _ ← print "Removing leftover AppStore data";
             rmtree sc_info
           else mret tt);
      pipe ←
        (if bool_decide (path_suffix component ∈ [".appex"; ".app"]) then
           sign_primary env opts main_bundle_id old_main_bundle_id is_distribution
             component tmpdir
         else sign_secondary env opts component tmpdir);
      sign_components env opts main_bundle_id old_main_bundle_id is_distribution tmpdir
        rest (dict_set component pipe jobs)
  end.

(** Lines 493 to 526: the scheduler, from the first component to the
    last job waited for. *)
Definition run_scheduler (env : Env) (opts : SignOpts)
    (main_bundle_id old_main_bundle_id : string) (is_distribution : bool)
    (components : list Path) : M unit :=
  with_tmpdir (λ tmpdir,
    jobs ← sign_components env opts main_bundle_id old_main_bundle_id is_distribution
             tmpdir components [];
    _ ← print "Waiting for any remaining components to finish signing";
    for_each (map snd jobs) (λ pipe, _ ← popen_wait pipe; popen_check pipe)).

Definition component_exts : list string := ["*.app"; "*.appex"; "*.framework"; "*.dylib"].

(** Lines 231 to 234: the components in the order they are signed. *)
Definition discover (env : Env) (main_app : Path) : list Path :=
  rev (flat_map (λ e, glob env main_app ("**/" +:+ e)) component_exts) ++ [main_app].

Definition sign (env : Env) (opts : SignOpts) : M unit :=
  main_app ←
    match glob env (app_dir opts) "Payload/*.app" with
    | [] => raise (MkExn KStopIteration EmptyString None)
    | first :: _ => mret first
    end;
  let main_info_plist := joinpath main_app "Info.plist" in
  old_main_bundle_id ← plist_buddy (PB_Print "CFBundleIdentifier") main_info_plist true;
  let is_distribution := Py.contains "Distribution" (common_name opts) in
  main_bundle_id ← sign_main_bundle_id env opts old_main_bundle_id;
  _ ← match bundle_name opts with
      | Some (String a rest) =>
          let name := String a rest in
          _ ← print ("Setting CFBundleDisplayName to " +:+ name);
          _ ← plist_buddy (PB_Delete "CFBundleDisplayName") main_info_plist false;
          _ ← plist_buddy (PB_Add "CFBundleDisplayName" TString name) main_info_plist true;
          mret tt
      | _ => mret tt
      end;
  _ ← write_file ["bundle_id.txt"]
        (FText (if force_original_id opts then old_main_bundle_id else main_bundle_id));
  let components := discover env main_app in
  _ ← modify (set_mappings (λ _, ∅));
  run_scheduler env opts main_bundle_id old_main_bundle_id is_distribution components.

(** ** Predicates the properties are stated with *)

(** Every run of [m] takes a state to one that [R] relates to it. *)
Definition steps (R : St → St → Prop) {A} (m : M A) : Prop :=
  ∀ st, R st (m st).2.

(** The memo table only grows: what it holds stays as it is. *)
Definition mappings_kept (st st' : St) : Prop := mappings st ⊆ mappings st'.

(** The states a session can reach from [st]: by further requests to the
    memo table and by signing further components, with whatever options. *)
Inductive session_later (st : St) : St → Prop :=
  | later_now : session_later st st
  | later_remap env opts remap_id st' :
      session_later st st' → session_later st (remap env opts remap_id st').2
  | later_components env opts main_bundle_id old_main_bundle_id is_distribution tmpdir
      components jobs st' :
      session_later st st' →
      session_later st
        (sign_components env opts main_bundle_id old_main_bundle_id is_distribution tmpdir
           components jobs st').2.

(** What line 391 or line 393 stores for an identifier not seen before. *)
Definition first_mapping (env : Env) (opts : SignOpts) (remap_id : string) : string :=
  if encode_ids opts then
    gen_id env remap_id
      (if truthy (bundle_id opts) then default EmptyString (bundle_id opts)
       else remap_id +:+ team_id opts)
  else remap_id.

(** What a PlistBuddy command run without [check] leaves of a dictionary:
    the result of the command, or the dictionary as it was when the
    command fails. *)
Definition pb_apply (cmd : PBCmd) (m : Plist) : Plist :=
  match PlistBuddy.run cmd m with
  | Some (_, m') => m'
  | None => m
  end.

(** A change of the property list at [p], if there is one. *)
Definition plist_update (p : Path) (f : Plist → Plist) (st : St) : St :=
  match fs st !! p with
  | Some (FPlist m) => set_fs (insert p (FPlist (f m))) st
  | _ => st
  end.

(** The commands of the strip step, in the order they are issued. *)
Definition strip_commands : list PBCmd :=
  map PB_Delete stripped_entitlements
  ++ map (λ kv : string * string, PB_Set kv.1 kv.2) demoted_entitlements.

(** The manifest the strip step leaves. *)
Definition strip_manifest (m : Plist) : Plist :=
  foldl (λ acc cmd, pb_apply cmd acc) m strip_commands.

(** [Set] on an entry: its new value, or the entry as it was when
    PlistBuddy refuses. *)
Definition set_or_keep (text : string) (old : PVal) : PVal :=
  default old (PlistBuddy.set_value old text).

(** What the demotions make of the value at [k]. *)
Definition demote_value (k : string) (kvs : list (string * string)) (old : PVal) : PVal :=
  foldl (λ acc kv, if decide (kv.1 = k) then set_or_keep kv.2 acc else acc) old kvs.


(** The value a file holds at a key, if it is a property list that holds
    one. *)
Definition plist_entry (k : string) (file : option File) : option PVal :=
  match file with
  | Some (FPlist m) => m !! k
  | _ => None
  end.

(** The entry at [k] of the file at [p] is the same. *)
Definition same_entry (p : Path) (k : string) (st st' : St) : Prop :=
  plist_entry k (fs st' !! p) = plist_entry k (fs st !! p).

(** The key a PlistBuddy command addresses. *)
Definition cmd_key (cmd : PBCmd) : string :=
  match cmd with
  | PB_Print k | PB_Delete k | PB_Set k _ | PB_Add k _ _ | PB_AddAt k _ _ _ => k
  end.

(** The manifest at [info], unless it is gone, is a property list whose
    bundle identifier is a string. *)
Definition bundle_identifier_is_string (info : Path) (st : St) : Prop :=
  fs st !! info = None
  ∨ ∃ m s, fs st !! info = Some (FPlist m) ∧ m !! "CFBundleIdentifier" = Some (PString s).

Definition keeps_bundle_identifier_string (info : Path) (st st' : St) : Prop :=
  bundle_identifier_is_string info st → bundle_identifier_is_string info st'.

(** The trace is the same. *)
Definition same_trace (st st' : St) : Prop := trace st' = trace st.

(** The file at [p] is the same. *)
Definition same_file (p : Path) (st st' : St) : Prop := fs st' !! p = fs st !! p.

(** The application identifier computed for a component, line 261. *)
Definition component_app_id (opts : SignOpts) (bundle_id : string) : string :=
  team_id opts +:+ "." +:+ bundle_id.






(** Every pair, in order, as a literal replacement on one content. *)
Definition patch_all (patches : list (string * string)) (c : File) : File :=
  foldl (λ acc kv, patch_file kv.1 kv.2 acc) c patches.

(** The file system once every target that is there has had every
    pair. *)
Definition patch_fs (targets : list Path) (patches : list (string * string))
    (fsys : gmap Path File) : gmap Path File :=
  foldl (λ acc target,
           match acc !! target with
           | Some c => <[target := patch_all patches c]> acc
           | None => acc
           end) fsys targets.

(** What the trace says, without the entitlements handed over. *)
Inductive Mark : Type :=
  | Dispatched (component : Path)
  | Waited (component : Path)
  | Checked (component : Path) (returncode : Z).

Definition mark_of (ev : Event) : Mark :=
  match ev with
  | EvDispatch c _ => Dispatched c
  | EvWait c => Waited c
  | EvCheck c rc => Checked c rc
  end.

Definition marks (st : St) : list Mark := map mark_of (trace st).

(** The ordering the specification claims of a session: whenever one
    component lies inside another, the job of the inner one has been
    checked before the job of the outer one is dispatched. *)
Definition contained_first (components : list Path) (tr : list Mark) : Prop :=
  ∀ inner outer i,
    inner ∈ components → outer ∈ components → inner ≠ outer →
    relative_to inner outer = true →
    tr !! i = Some (Dispatched outer) →
    ∃ j rc, (j < i)%nat ∧ tr !! j = Some (Checked inner rc).

(** What the scheduler does see to: between the dispatch of a job and a
    later dispatch of a component that holds its path, the job has been
    checked and had succeeded. *)
Definition settled_before_dispatch (tr : list Mark) : Prop :=
  ∀ i k inner outer,
    (i < k)%nat →
    tr !! i = Some (Dispatched inner) → tr !! k = Some (Dispatched outer) →
    relative_to inner outer = true →
    ∃ j, (i < j < k)%nat ∧ tr !! j = Some (Checked inner 0).

(** A wait for, or a check of, a job whose path lies in [component]. *)
Definition settles (component : Path) (m : Mark) : Prop :=
  ∃ p, relative_to p component = true ∧ (m = Waited p ∨ ∃ rc, m = Checked p rc).

(** Every job dispatched is in the table or has been checked since. *)
Definition jobs_pending (tr : list Mark) (jobs : list (Path * Popen)) : Prop :=
  ∀ i c, tr !! i = Some (Dispatched c) →
    c ∈ map fst jobs ∨ ∃ j, (i < j)%nat ∧ tr !! j = Some (Checked c 0).

(** The table holds a path once, with the process started on it. *)
Definition jobs_wf (jobs : list (Path * Popen)) : Prop :=
  NoDup (map fst jobs) ∧ ∀ p pipe, (p, pipe) ∈ jobs → popen_component pipe = p.

(** Starting the job of [component]: when it goes through, the process
    started is on [component] and its dispatch is the one event added;
    when it does not, no event is added. *)
Definition dispatches (component : Path) (m : M Popen) : Prop :=
  ∀ st,
    match (m st).1 with
    | Ok pipe =>
        popen_component pipe = component
        ∧ marks (m st).2 = marks st ++ [Dispatched component]
    | _ => marks (m st).2 = marks st
    end.

(** The components dispatched, in order. *)
Definition dispatched (tr : list Mark) : list Path :=
  omap (λ m, match m with Dispatched c => Some c | _ => None end) tr.

(** Every process of the table ends with the status codesign has for its
    component. *)
Definition jobs_from (env : Env) (jobs : list (Path * Popen)) : Prop :=
  ∀ p pipe, (p, pipe) ∈ jobs → popen_returncode pipe = codesign_status env p.

(** Lines 386 to 393: the replacement the options give an identifier
    that is not in the memo table yet. *)
Definition remap_value (env : Env) (opts : SignOpts) (remap_id : string) : string :=
  if encode_ids opts then
    gen_id env remap_id
      (match bundle_id opts with
       | Some (String a rest) => String a rest
       | _ => remap_id +:+ team_id opts
       end)
  else remap_id.

(** Every entry of a memo table is the one the options give. *)
Definition canonical (env : Env) (opts : SignOpts) (table : gmap string string) : Prop :=
  ∀ a v, table !! a = Some v → v = remap_value env opts a.

(** Every status checked is the one codesign has for the component. *)
Definition checks_from (env : Env) (tr : list Mark) : Prop :=
  ∀ c rc, Checked c rc ∈ tr → rc = codesign_status env c.

(** A step keeps a canonical memo table canonical. *)
Definition keeps_canonical (env : Env) (opts : SignOpts) (st st' : St) : Prop :=
  canonical env opts (mappings st) → canonical env opts (mappings st').


(** The replacement the memo table has for an identifier once it has been
    asked for: the entry it held, or the one the options give. *)
Definition remapped (env : Env) (opts : SignOpts) (table : gmap string string)
    (remap_id : string) : string :=
  default (remap_value env opts remap_id) (table !! remap_id).

(** ** A bundle to run the session on *)

(** An application with a WatchKit extension that holds the WatchKit
    application, as watchOS 1 bundles do, and two provisioning profiles:
    one with a wildcard application identifier, one for another
    application. *)
Module Demo.

Definition main_app : Path := ["app"; "Payload"; "Main.app"].
Definition watch_ext : Path := main_app ++ ["PlugIns"; "Watch.appex"].
Definition watch_app : Path := watch_ext ++ ["WatchApp.app"].
Definition wildcard_profile : Path := ["profiles"; "wildcard.mobileprovision"].
Definition fixed_profile : Path := ["profiles"; "fixed.mobileprovision"].

Definition info (id : string) : File :=
  FPlist (<["CFBundleIdentifier" := PString id]> ∅).

Definition granted (app_id : string) : list (string * PVal) :=
  [("application-identifier", PString app_id); ("get-task-allow", PBool true)].

Definition profile (app_id : string) : Plist :=
  <["Entitlements" := PDict (granted app_id)]> ∅.

Definition fs0 : gmap Path File :=
  <[joinpath main_app "Info.plist" := info "com.example.app"]>
  (<[joinpath watch_ext "Info.plist" := info "com.example.app.watchkitextension"]>
  (<[joinpath watch_app "Info.plist" := info "com.example.app.watchkitapp"]>
  (<[wildcard_profile := FProv (profile "TEAMID.com.example.*")]>
  (<[fixed_profile := FProv (profile "TEAMID.com.other.app")]> ∅)))).

Definition timed_out : XcodeRun := {| xr_duration := 20; xr_outcome := XTimeout |}.
Definition built : XcodeRun :=
  {| xr_duration := 12; xr_outcome := XSuccess (profile "TEAMID.com.new.app") ∅ |}.

Definition st0 : St :=
  {| fs := fs0; signatures := ∅; mappings := ∅; log := []; clock := 0;
     xcode := [timed_out; built]; tmp_count := 0; trace := [] |}.

Definition env : Env :=
  {| gen_id := λ original seed, original +:+ "-" +:+ seed;
     glob := λ dir pattern,
       if bool_decide (dir = ["app"]) then
         if String.eqb pattern "Payload/*.app" then [main_app] else []
       else if bool_decide (dir = main_app) then
         if String.eqb pattern "**/*.app" then [watch_app]
         else if String.eqb pattern "**/*.appex" then [watch_ext]
         else []
       else [];
     codesign_status := λ _, 0;
     poll_running := λ _ _, true;
     retry_budget := 10 |}.

Definition opts (prov : Path) (bundle : option string) (keep_id debug encode : bool)
    : SignOpts :=
  {| app_dir := ["app"]; common_name := "iPhone Developer: Test"; team_id := "TEAMID";
     prov_file := Some prov; bundle_id := bundle; bundle_name := None;
     patch_debug := debug; patch_all_devices := true; patch_file_sharing := true;
     encode_ids := encode; patch_ids := false; force_original_id := keep_id |}.

End Demo.

(** * Properties *)

(** ** Strings *)

Lemma append_nil (b : string) : EmptyString +:+ b = b.
Proof. reflexivity. Qed.

Lemma append_cons (x : ascii) (a b : string) : String x a +:+ b = String x (a +:+ b).
Proof. reflexivity. Qed.

Lemma drop_app (a b : string) : Py.drop (String.length a) (a +:+ b) = b.
Proof.
  induction a as [|c a IH]; [by destruct b |].
  rewrite append_cons. exact IH.
Qed.

Lemma string_app_assoc (a b c : string) : (a +:+ b) +:+ c = a +:+ (b +:+ c).
Proof.
  induction a as [|x a IH]; [done |]. rewrite !append_cons. by f_equal.
Qed.


(** ** The monad *)

Lemma bind_unfold {A B} (m : M A) (f : A → M B) (st : St) :
  (m ≫= f) st =
  match m st with
  | (Ok a, st') => f a st'
  | (Raise e, st') => (Raise e, st')
  | (OutOfFuel, st') => (OutOfFuel, st')
  end.
Proof. reflexivity. Qed.

Lemma bind_Ok_inv {A B} (m : M A) (f : A → M B) (st st' : St) (b : B) :
  (m ≫= f) st = (Ok b, st') →
  ∃ a st1, m st = (Ok a, st1) ∧ f a st1 = (Ok b, st').
Proof.
  rewrite bind_unfold. destruct (m st) as [[a|e|] st1]; [eauto | discriminate..].
Qed.

Lemma for_each_app {A} (xs ys : list A) (body : A → M unit) (st : St) :
  for_each (xs ++ ys) body st = (_ ← for_each xs body; for_each ys body) st.
Proof.
  revert st. induction xs as [|x xs IH]; intros st; simpl; [done |].
  rewrite !bind_unfold. destruct (body x st) as [[[]|e|] st1]; [|done..].
  rewrite IH. by rewrite bind_unfold.
Qed.

(** ** C8: the identifier of a secondary component *)

(** C8. A component whose original bundle identifier begins with the
    original main bundle identifier gets the new main bundle identifier
    followed by the rest of its original identifier, unchanged. *)
Theorem component_bundle_id_keeps_suffix (main_bundle_id old_main_bundle_id suffix : string) :
  component_bundle_id main_bundle_id old_main_bundle_id (old_main_bundle_id +:+ suffix)
  = main_bundle_id +:+ suffix.
Proof. unfold component_bundle_id. by rewrite drop_app. Qed.

(** ** C2: the identifier memo table *)

(** A run of requests to the memo table, each with the options and the
    encoder of its own. *)
Lemma remap_result (env : Env) (opts : SignOpts) (a : string) (st : St) :
  (remap env opts a st).1 = Ok tt.
Proof.
  unfold remap, gets. rewrite bind_unfold.
  destruct (mappings st !! a); [done |]. by destruct (encode_ids opts).
Qed.

Lemma remap_known (env : Env) (opts : SignOpts) (a v : string) (st : St) :
  mappings st !! a = Some v → remap env opts a st = (Ok tt, st).
Proof. intros H. unfold remap, gets. rewrite bind_unfold. by rewrite H. Qed.

Lemma remap_keeps (env : Env) (opts : SignOpts) (a b v : string) (st : St) :
  mappings st !! a = Some v → mappings (remap env opts b st).2 !! a = Some v.
Proof.
  intros H. unfold remap, gets. rewrite bind_unfold.
  destruct (mappings st !! b) eqn:Hb; [done |].
  assert (b ≠ a) by congruence.
  destruct (encode_ids opts); simpl; by rewrite lookup_insert_ne.
Qed.

(** ** Frames: what a relation on states needs to hold along a run *)

Section Frame.
Context (R : St → St → Prop) `{!PreOrder R}.

Lemma steps_ret {A} (a : A) : steps R (mret a : M A).
Proof. intros st. reflexivity. Qed.

Lemma steps_raise {A} (e : Exn) : steps R (raise e : M A).
Proof. intros st. reflexivity. Qed.

Lemma steps_out_of_fuel {A} : steps R (out_of_fuel : M A).
Proof. intros st. reflexivity. Qed.

Lemma steps_gets {A} (f : St → A) : steps R (gets f).
Proof. intros st. reflexivity. Qed.

Lemma steps_modify (f : St → St) : (∀ st, R st (f st)) → steps R (modify f).
Proof. intros H st. apply H. Qed.

Lemma steps_bind {A B} (m : M A) (f : A → M B) :
  steps R m → (∀ a, steps R (f a)) → steps R (m ≫= f).
Proof.
  intros Hm Hf st. rewrite bind_unfold. specialize (Hm st).
  destruct (m st) as [[a|e|] st1]; simpl in *; [|done..].
  etrans; [exact Hm | apply Hf].
Qed.

Lemma steps_try_except {A} (m handler : M A) :
  steps R m → steps R handler → steps R (try_except m handler).
Proof.
  intros Hm Hh st. unfold try_except. specialize (Hm st).
  destruct (m st) as [[a|e|] st1]; simpl in *; [done | | done].
  etrans; [exact Hm | apply Hh].
Qed.

Lemma steps_try_except_as {A} (m : M A) (handler : Exn → M A) :
  steps R m → (∀ e, steps R (handler e)) → steps R (try_except_as m handler).
Proof.
  intros Hm Hh st. unfold try_except_as. specialize (Hm st).
  destruct (m st) as [[a|e|] st1]; simpl in *; [done | | done].
  etrans; [exact Hm | apply Hh].
Qed.

Lemma steps_try_finally {A} (m : M A) (cleanup : M unit) :
  steps R m → steps R cleanup → steps R (try_finally m cleanup).
Proof.
  intros Hm Hc st. unfold try_finally. specialize (Hm st).
  destruct (m st) as [[a|e|] st1]; simpl in *; [| | done].
  - etrans; [exact Hm |]. apply steps_bind; [done | intros; apply steps_ret].
  - etrans; [exact Hm |]. apply steps_bind; [done | intros; apply steps_raise].
Qed.

Lemma steps_for_each {A} (xs : list A) (body : A → M unit) :
  (∀ x, steps R (body x)) → steps R (for_each xs body).
Proof.
  intros Hb. induction xs as [|x xs IH]; simpl; [apply steps_ret |].
  apply steps_bind; [apply Hb | intros; apply IH].
Qed.

Lemma steps_exec_retry_loop {A} (fuel : nat) (name : string) (func : M A)
    (start_time : Q) (last_error : option Exn) :
  (∀ line, steps R (print line)) → steps R func →
  steps R (exec_retry_loop fuel name func start_time last_error).
Proof.
  intros Hp Hf. revert last_error.
  induction fuel as [|fuel IH]; intros last_error; simpl; [apply steps_out_of_fuel |].
  apply steps_bind; [apply steps_gets |]. intros now.
  destruct (Qlt_le_dec _ _); [| apply steps_raise].
  apply steps_try_except_as; [done |]. intros e.
  destruct (cause_is_timeout e); [| apply steps_raise].
  apply steps_bind; [apply Hp | intros; apply IH].
Qed.

End Frame.

Ltac frame_step :=
  lazymatch goal with
  | |- steps ?R (mret _) => apply (steps_ret R)
  | |- steps ?R (raise _) => apply (steps_raise R)
  | |- steps ?R (gets _) => apply (steps_gets R)
  | |- steps ?R out_of_fuel => apply (steps_out_of_fuel R)
  | |- steps ?R (_ ≫= _) => apply (steps_bind R); [| intros ?]
  | |- steps ?R (try_except _ _) => apply (steps_try_except R)
  | |- steps ?R (try_except_as _ _) => apply (steps_try_except_as R); [| intros ?]
  | |- steps ?R (try_finally _ _) => apply (steps_try_finally R)
  | |- steps ?R (for_each _ _) => apply (steps_for_each R); intros ?
  | |- steps _ (let _ := _ in _) => cbv zeta
  | |- steps _ (match ?x with _ => _ end) => destruct x
  end.

(** A relation on states that is kept by the writes and the deletions at
    the paths it allows, and by every change of the signatures, the log,
    the clock, the temporary names, the trace and the memo table, is kept
    by the whole signing of the components.  Temporary paths and the
    provisioning profiles of the system location must be among the paths
    allowed. *)
Section Session.
Context (R : St → St → Prop) `{!PreOrder R}.
Context (okw okd okp : Path → Prop).
Hypothesis okw_okp : ∀ p, okw p → okp p.
Hypothesis okw_tmp : ∀ p, temporary p → okw p.
Hypothesis okd_tmp : ∀ p, temporary p → okd p.
Hypothesis okw_profile :
  ∀ n, okw (joinpath prov_profiles_dir (tmp_name n +:+ ".mobileprovision")).
Hypothesis okd_profile : ∀ p, prov_profiles_dir `prefix_of` p → okd p.
Hypothesis R_insert : ∀ p c st, okw p → R st (set_fs (insert p c) st).
Hypothesis R_delete : ∀ p st, okd p → R st (set_fs (delete p) st).
Hypothesis R_outside :
  ∀ d st, (∀ p, d `prefix_of` p → okd p) → R st (set_fs (outside d) st).
Hypothesis R_union :
  ∀ extra st, (∀ p, is_Some (extra !! p) → okw p) → R st (set_fs (union extra) st).
Hypothesis R_patch :
  ∀ f old new c st,
    okp f → fs st !! f = Some c → R st (set_fs (insert f (patch_file old new c)) st).
Hypothesis R_signatures : ∀ f st, R st (set_signatures f st).
Hypothesis R_log : ∀ line st, R st (add_log line st).
Hypothesis R_clock_xcode : ∀ t runs st, R st (set_clock_xcode t runs st).
Hypothesis R_tmp : ∀ st, R st (bump_tmp st).
Hypothesis R_event : ∀ ev st, R st (add_event ev st).
Hypothesis R_remap : ∀ env opts a, steps R (remap env opts a).

Lemma okd_under_tmp n p : tmp_dir n `prefix_of` p → okd p.
Proof.
  intros H. apply okd_tmp. unfold temporary. etrans; [| exact H].
  by exists [tmp_name n].
Qed.

Lemma okw_under_tmp n p : tmp_dir n `prefix_of` p → okw p.
Proof.
  intros H. apply okw_tmp. unfold temporary. etrans; [| exact H].
  by exists [tmp_name n].
Qed.

Lemma okw_in_tmp n l : okw (tmp_dir n ++ l).
Proof. apply (okw_under_tmp n). by exists l. Qed.

Lemma steps_print line : steps R (print line).
Proof. intros st. apply R_log. Qed.

Lemma steps_write_file p c : okw p → steps R (write_file p c).
Proof. intros H st. by apply R_insert. Qed.

Lemma steps_rmtree d : (∀ p, d `prefix_of` p → okd p) → steps R (rmtree d).
Proof. intros H st. by apply R_outside. Qed.

Lemma steps_dir_exists d : steps R (dir_exists d).
Proof. intros st. reflexivity. Qed.

Lemma steps_os_remove p : okd p → steps R (os_remove p).
Proof.
  intros H st. unfold os_remove. destruct (fs st !! p); [by apply R_delete | reflexivity].
Qed.

Lemma steps_copy2 a b : okw b → steps R (copy2 a b).
Proof.
  intros H st. unfold copy2. destruct (fs st !! a); [by apply R_insert | reflexivity].
Qed.

Lemma steps_move a b : okd a → okw b → steps R (move a b).
Proof.
  intros Ha Hb st. unfold move. destruct (fs st !! a) as [c|]; [| reflexivity].
  etrans; [apply (R_delete a); exact Ha |].
  exact (R_insert b c (set_fs (delete a) st) Hb).
Qed.

Lemma steps_copytree a b : (∀ p, b `prefix_of` p → okw p) → steps R (copytree a b).
Proof.
  intros H st. unfold copytree. case_bool_decide; [reflexivity |].
  apply (R_union (rebase a b (fs st)) st). intros p [c Hc]. apply H.
  unfold rebase in Hc. apply elem_of_list_to_map_2 in Hc.
  apply list_elem_of_fmap in Hc as ([k v] & Hkv & _). simpl in Hkv.
  injection Hkv as -> _. by eexists.
Qed.

Lemma steps_read_file p : steps R (read_file p).
Proof. intros st. unfold read_file. destruct (fs st !! p); reflexivity. Qed.

Lemma steps_plist_buddy cmd p check : okw p → steps R (plist_buddy cmd p check).
Proof.
  intros H st. unfold plist_buddy.
  destruct (fs st !! p) as [[s|m|m]|]; try (destruct check; reflexivity).
  destruct (PlistBuddy.run cmd m) as [[out m']|]; [by apply R_insert |].
  destruct check; reflexivity.
Qed.

Lemma steps_plist_buddy_print k p check : steps R (plist_buddy (PB_Print k) p check).
Proof.
  intros st. unfold plist_buddy.
  destruct (fs st !! p) as [[s|m|m]|] eqn:Hp; try (destruct check; reflexivity).
  simpl. destruct (m !! k) as [v|]; simpl; [| destruct check; reflexivity].
  replace (set_fs (insert p (FPlist m)) st) with st; [reflexivity |].
  destruct st; unfold set_fs; simpl in *. f_equal. symmetry. by apply insert_id.
Qed.

Lemma steps_plist_buddy_xml k p : steps R (plist_buddy_xml k p).
Proof. intros st. unfold plist_buddy_xml. repeat case_match; reflexivity. Qed.

Lemma steps_codesign_async env identity c e : steps R (codesign_async env identity c e).
Proof. intros st. apply R_event. Qed.

Lemma steps_codesign_dump_entitlements c : steps R (codesign_dump_entitlements c).
Proof. intros st. unfold codesign_dump_entitlements. case_match; reflexivity. Qed.

Lemma steps_binary_replace pattern f : okp f → steps R (binary_replace pattern f).
Proof.
  intros Hok st. unfold binary_replace.
  destruct (Perl.parse pattern) as [[old new]|]; [| reflexivity].
  destruct (fs st !! f) as [c|] eqn:Hf; [by apply R_patch | reflexivity].
Qed.

Lemma steps_security_dump_prov f : steps R (security_dump_prov f).
Proof. intros st. unfold security_dump_prov. repeat case_match; reflexivity. Qed.

Lemma steps_xcodebuild product : steps R (xcodebuild product).
Proof.
  intros st. unfold xcodebuild. destruct (xcode st) as [|run rest]; [reflexivity |].
  destruct (xr_outcome run); simpl; [| apply R_clock_xcode..].
  etrans; [apply R_clock_xcode |]. etrans; [apply R_tmp |].
  etrans; [apply R_insert, okw_profile |]. apply R_signatures.
Qed.

Lemma steps_extract_zip a b : steps R (extract_zip a b).
Proof.
  intros st. unfold extract_zip. case_match; [apply R_signatures | reflexivity].
Qed.

Lemma steps_mapping_of a : steps R (mapping_of a).
Proof. intros st. unfold mapping_of. case_match; reflexivity. Qed.

Lemma steps_get_prov_profiles : steps R get_prov_profiles.
Proof. intros st. reflexivity. Qed.

Lemma steps_popen_running env pipe : steps R (popen_running env pipe).
Proof. intros st. reflexivity. Qed.

Lemma steps_popen_wait pipe : steps R (popen_wait pipe).
Proof. intros st. apply R_event. Qed.

Lemma steps_popen_check pipe : steps R (popen_check pipe).
Proof.
  unfold popen_check. frame_step; [by apply steps_modify |].
  case_bool_decide; frame_step.
Qed.

(** The result of a step may be needed to go on: [post] is what is
    known of it. *)
Lemma steps_bind_post {A B} (m : M A) (post : A → Prop) (f : A → M B) :
  steps R m → (∀ st a st', m st = (Ok a, st') → post a) →
  (∀ a, post a → steps R (f a)) → steps R (m ≫= f).
Proof.
  intros Hm Hpost Hf st. rewrite bind_unfold. specialize (Hm st).
  destruct (m st) as [[a|e|] st1] eqn:Hrun; simpl in *; [| done..].
  etrans; [exact Hm |]. apply Hf. by eapply Hpost.
Qed.

Lemma steps_with_tmpdir {A} (body : Path → M A) :
  (∀ n, steps R (body (tmp_dir n))) → steps R (with_tmpdir body).
Proof.
  intros H. unfold with_tmpdir.
  apply (steps_bind_post _ (λ d, ∃ n, d = tmp_dir n)).
  - intros st. apply R_tmp.
  - intros st a st' Hrun. injection Hrun as <- _. by eexists.
  - intros d [n ->]. apply steps_try_finally; [done | apply H |].
    apply steps_rmtree. apply okd_under_tmp.
Qed.

Lemma steps_named_temporary_file {B} workdir suffix (f : Path → M B) :
  (∀ n, okw (joinpath workdir (tmp_name n +:+ suffix))) →
  (∀ n, steps R (f (joinpath workdir (tmp_name n +:+ suffix)))) →
  steps R (named_temporary_file workdir suffix ≫= f).
Proof.
  intros Hok H.
  apply (steps_bind_post _ (λ p, ∃ n, p = joinpath workdir (tmp_name n +:+ suffix))).
  - intros st. unfold named_temporary_file. simpl.
    etrans; [apply R_tmp |]. apply (R_insert _ _ (bump_tmp st)), Hok.
  - intros st a st' Hrun. injection Hrun as <- _. by eexists.
  - intros p [n ->]. apply H.
Qed.

(** [for p in get_prov_profiles(): os.remove(p)]. *)
Lemma get_prov_profiles_post st l st' :
  get_prov_profiles st = (Ok l, st') → ∀ p, p ∈ l → prov_profiles_dir `prefix_of` p.
Proof.
  unfold get_prov_profiles, gets. intros Hrun. injection Hrun as <- _.
  intros p Hp. apply list_elem_of_fmap in Hp as ([k v] & -> & Hkv).
  apply elem_of_map_to_list in Hkv. unfold under in Hkv.
  by apply map_lookup_filter_Some in Hkv as [_ ?].
Qed.

Lemma steps_for_each_in {A} (xs : list A) (body : A → M unit) :
  (∀ x, x ∈ xs → steps R (body x)) → steps R (for_each xs body).
Proof.
  intros Hb. induction xs as [|x xs IH]; simpl; [by apply steps_ret |].
  apply steps_bind; [done | apply Hb, list_elem_of_here |].
  intros _. apply IH. intros y Hy. by apply Hb, list_elem_of_further.
Qed.

Lemma steps_purge_profiles {B} (k : M B) :
  steps R k → steps R (get_prov_profiles ≫= λ stale, for_each stale os_remove ≫= λ _, k).
Proof.
  intros Hk.
  apply (steps_bind_post _ (λ l, ∀ p, p ∈ l → prov_profiles_dir `prefix_of` p)).
  - apply steps_get_prov_profiles.
  - apply get_prov_profiles_post.
  - intros l Hl. apply steps_bind; [done | | done].
    apply steps_for_each_in. intros p Hp. by apply steps_os_remove, okd_profile, Hl.
Qed.

Lemma steps_keep_first_profile p : okw p → steps R (keep_first_profile p).
Proof.
  intros Hp. unfold keep_first_profile.
  apply (steps_bind_post _ (λ l, ∀ p, p ∈ l → prov_profiles_dir `prefix_of` p)).
  - apply steps_get_prov_profiles.
  - apply get_prov_profiles_post.
  - intros [|first others] Hl; [by apply steps_raise |].
    apply steps_bind; [done | |].
    + apply steps_move; [| done]. apply okd_profile, Hl, list_elem_of_here.
    + intros _. apply steps_for_each_in. intros q Hq.
      by apply steps_os_remove, okd_profile, Hl, list_elem_of_further.
Qed.

Local Ltac leaf :=
  first
    [ apply steps_print | apply steps_dir_exists | apply steps_read_file
    | apply steps_plist_buddy_print | apply steps_plist_buddy_xml
    | apply steps_codesign_async | apply steps_codesign_dump_entitlements
    | apply steps_security_dump_prov
    | apply steps_xcodebuild | apply steps_extract_zip | apply steps_mapping_of
    | apply steps_get_prov_profiles | apply steps_popen_running
    | apply steps_popen_wait | apply steps_popen_check | apply R_remap
    | apply steps_write_file | apply steps_copy2 | apply steps_plist_buddy
    | apply steps_binary_replace
    | apply steps_copytree; intros ? ?
    | apply steps_with_tmpdir; intros ?
    | apply steps_purge_profiles
    | apply steps_keep_first_profile ].

Local Ltac side :=
  first
    [ assumption
    | apply okw_okp
    | apply okw_in_tmp
    | match goal with
      | |- okw (joinpath (tmp_dir ?n) ?a) => apply (okw_in_tmp n [a])
      | |- okw (joinpath (joinpath (tmp_dir ?n) ?a) ?b) => apply (okw_in_tmp n [a; b])
      | |- okw (joinpath (joinpath (joinpath (tmp_dir ?n) ?a) ?b) ?c) =>
          apply (okw_in_tmp n [a; b; c])
      | H : joinpath (tmp_dir ?n) ?a `prefix_of` ?p |- okw ?p =>
          apply (okw_under_tmp n); etrans; [| exact H]; by exists [a]
      end ].

Local Ltac walk_with tac :=
  repeat first [ tac | apply steps_purge_profiles | frame_step | leaf | side ].
Local Ltac walk := walk_with fail.

Lemma steps_dump_prov_entitlements_plist a b :
  okw b → steps R (dump_prov_entitlements_plist a b).
Proof. intros Hb. unfold dump_prov_entitlements_plist. walk. Qed.

Lemma steps_exec_retry {A} fuel name (func : M A) :
  steps R func → steps R (exec_retry fuel name func).
Proof.
  intros H. unfold exec_retry, time_time. walk.
  apply steps_exec_retry_loop; [done | apply steps_print | done].
Qed.

Lemma steps_xcode_archive env a b c : steps R (xcode_archive env a b c).
Proof.
  unfold xcode_archive, open_xcode, kill_xcode, _xcode_archive.
  walk_with ltac:(apply steps_exec_retry).
Qed.

Lemma steps_xcode_export env a b c :
  okw (joinpath c "options.plist") → steps R (xcode_export env a b c).
Proof.
  intros H. unfold xcode_export, open_xcode, kill_xcode, _xcode_export.
  walk_with ltac:(apply steps_exec_retry).
Qed.

Lemma steps_sign_main_bundle_id env opts old : steps R (sign_main_bundle_id env opts old).
Proof.
  unfold sign_main_bundle_id.
  walk_with ltac:(apply steps_dump_prov_entitlements_plist).
Qed.

Lemma steps_sign_primary_prov opts pf bid e1 e2 :
  okw e1 → okw e2 → steps R (sign_primary_prov opts pf bid e1 e2).
Proof.
  intros H1 H2. unfold sign_primary_prov.
  walk_with ltac:(apply steps_dump_prov_entitlements_plist).
Qed.

Lemma steps_strip_entitlements p : okw p → steps R (strip_entitlements p).
Proof. intros H. unfold strip_entitlements. walk. Qed.

Lemma steps_default_remap_ids parents p bid : steps R (default_remap_ids parents p bid).
Proof. induction parents as [|parent rest IH]; simpl; walk_with ltac:(exact IH). Qed.

Lemma steps_add_remapped e pre p i ids patches :
  okw p → steps R (add_remapped e pre p i ids patches).
Proof.
  intros H. revert i patches. induction ids as [|x ids IH]; intros i patches; simpl;
    walk_with ltac:(apply IH).
Qed.

Lemma steps_remap_group env opts p bid g patches :
  okw p → steps R (remap_group env opts p bid g patches).
Proof.
  intros H. unfold remap_group. destruct g as [[e pre] parents].
  walk_with ltac:(first [ apply steps_default_remap_ids | apply steps_add_remapped ]).
Qed.

Lemma steps_remap_groups env opts p bid gs patches :
  okw p → steps R (remap_groups env opts p bid gs patches).
Proof.
  intros H. revert patches. induction gs as [|g gs IH]; intros patches; simpl;
    walk_with ltac:(first [ apply steps_remap_group | apply IH ]).
Qed.

Lemma steps_apply_patches opts patches a b c :
  okp a → okp b → okp c → steps R (apply_patches opts patches a b c).
Proof.
  intros Ha Hb Hc. unfold apply_patches.
  frame_step; [apply steps_print |].
  frame_step; [destruct (patch_ids opts); [frame_step | apply steps_print] |].
  apply steps_for_each_in. intros target Ht.
  apply steps_for_each; [done |]. intros kv. apply steps_binary_replace.
  unfold patch_targets in Ht.
  destruct (patch_ids opts); repeat (apply elem_of_cons in Ht as [->|Ht]; [done |]);
    by apply elem_of_nil in Ht.
Qed.

Lemma steps_sign_primary_oracle env opts m om dist c ob b i cb ep en :
  okp i → okp cb → okw ep → okw en →
  steps R (sign_primary_oracle env opts m om dist c ob b i cb ep en).
Proof.
  intros Hi Hcb Hep Hen. unfold sign_primary_oracle.
  walk_with ltac:(first
    [ apply steps_strip_entitlements | apply steps_remap_groups
    | apply steps_apply_patches | apply steps_xcode_archive
    | apply steps_xcode_export ]).
Qed.

Lemma steps_sign_primary_entitlements env opts m om dist c ob b i cb ep en :
  okp i → okp cb → okw ep → okw en →
  steps R (sign_primary_entitlements env opts m om dist c ob b i cb ep en).
Proof.
  intros Hi Hcb Hep Hen. unfold sign_primary_entitlements.
  destruct (prov_file opts);
    [by apply steps_sign_primary_prov | by apply steps_sign_primary_oracle].
Qed.

Lemma steps_set_bundle_identifier opts ob b i :
  okw i → steps R (set_bundle_identifier opts ob b i).
Proof. intros Hi. unfold set_bundle_identifier. walk. Qed.

Lemma steps_set_debugging opts e : okw e → steps R (set_debugging opts e).
Proof. intros He. unfold set_debugging. walk. Qed.

Lemma steps_force_all_devices opts i : okw i → steps R (force_all_devices opts i).
Proof. intros Hi. unfold force_all_devices. walk. Qed.

Lemma steps_force_file_sharing opts i : okw i → steps R (force_file_sharing opts i).
Proof. intros Hi. unfold force_file_sharing. walk. Qed.

Lemma steps_sign_primary_finish env opts c ob b i e :
  okw i → okw e → steps R (sign_primary_finish env opts c ob b i e).
Proof.
  intros Hi He. unfold sign_primary_finish.
  walk_with ltac:(first
    [ apply steps_set_bundle_identifier | apply steps_set_debugging
    | apply steps_force_all_devices | apply steps_force_file_sharing ]).
Qed.

Lemma steps_sign_secondary env opts c w : steps R (sign_secondary env opts c w).
Proof. unfold sign_secondary. walk. Qed.

Lemma steps_sign_primary env opts m om dist c w :
  okw (joinpath c "Info.plist") →
  okp (joinpath c (path_stem c)) →
  okw (joinpath c "embedded.mobileprovision") →
  (∀ n, okw (joinpath w (tmp_name n +:+ ".plist"))) →
  steps R (sign_primary env opts m om dist c w).
Proof.
  intros Hi Hb He Hw. unfold sign_primary.
  apply steps_named_temporary_file; [done |]. intros n.
  walk_with ltac:(first
    [ apply steps_sign_primary_entitlements
    | apply steps_sign_primary_finish | apply Hw ]).
Qed.

Lemma steps_settle_contained env c keys jobs : steps R (settle_contained env c keys jobs).
Proof.
  revert jobs. induction keys as [|k keys IH]; intros jobs; simpl;
    walk_with ltac:(apply IH).
Qed.

Lemma steps_sign_components env opts m om dist tmpdir cs jobs :
  (∀ c, c ∈ cs →
     okw (joinpath c "Info.plist") ∧ okp (joinpath c (path_stem c))
     ∧ okw (joinpath c "embedded.mobileprovision")
     ∧ ∀ p, joinpath c "SC_Info" `prefix_of` p → okd p) →
  (∀ n, okw (joinpath tmpdir (tmp_name n +:+ ".plist"))) →
  steps R (sign_components env opts m om dist tmpdir cs jobs).
Proof.
  intros Hcs Hw. revert jobs. induction cs as [|c cs IH]; intros jobs; simpl;
    [walk |].
  destruct (Hcs c) as (Hi & Hb & He & Hsc); [apply list_elem_of_here |].
  walk_with ltac:(first
    [ apply steps_settle_contained | apply steps_sign_primary
    | apply steps_sign_secondary | apply steps_rmtree
    | apply IH; intros; apply Hcs; by apply list_elem_of_further ]).
Qed.

Lemma steps_run_scheduler env opts m om dist cs :
  (∀ c, c ∈ cs →
     okw (joinpath c "Info.plist") ∧ okp (joinpath c (path_stem c))
     ∧ okw (joinpath c "embedded.mobileprovision")
     ∧ ∀ p, joinpath c "SC_Info" `prefix_of` p → okd p) →
  steps R (run_scheduler env opts m om dist cs).
Proof.
  intros Hcs. unfold run_scheduler.
  walk_with ltac:(apply steps_sign_components; [exact Hcs | intros ?]).
Qed.

End Session.

(** ** C2: first seen wins *)

#[local] Instance mappings_kept_preorder : PreOrder mappings_kept.
Proof.
  split.
  - intros st. unfold mappings_kept. done.
  - intros a b c Hab Hbc. unfold mappings_kept in *. by etrans.
Qed.

Lemma remap_first (env : Env) (opts : SignOpts) (a : string) (st : St) :
  mappings st !! a = None →
  mappings (remap env opts a st).2 !! a = Some (first_mapping env opts a).
Proof.
  intros H. unfold remap, gets, first_mapping. rewrite bind_unfold, H.
  destruct (encode_ids opts); simpl; rewrite lookup_insert_eq; [| done].
  by destruct (bundle_id opts) as [[|c r]|].
Qed.

Lemma remap_grows (env : Env) (opts : SignOpts) (a : string) :
  steps mappings_kept (remap env opts a).
Proof.
  intros st. unfold mappings_kept. apply map_subseteq_spec. intros b w H.
  by apply remap_keeps.
Qed.

Lemma sign_components_grows env opts m om dist tmpdir cs jobs :
  steps mappings_kept (sign_components env opts m om dist tmpdir cs jobs).
Proof.
  apply (steps_sign_components mappings_kept (λ _, True) (λ _, True) (λ _, True));
    try (intros; unfold mappings_kept; simpl; done).
  apply remap_grows.
Qed.

Lemma session_later_grows (st st' : St) : session_later st st' → mappings_kept st st'.
Proof.
  induction 1 as [| env opts b st' _ IH | env opts m om dist tmpdir cs jobs st' _ IH].
  - done.
  - etrans; [exact IH | apply remap_grows].
  - etrans; [exact IH | apply sign_components_grows].
Qed.

(** C2. The memo table is first-seen-wins and sticky: after a request for
    an identifier the table holds a replacement for it, the one computed
    now if the identifier was not there and the one found otherwise; in
    every state the session reaches later, whatever requests and components
    came in between, the table holds the same replacement, a further
    request for the identifier with any options (any seed) changes nothing,
    and reading the table gives that replacement; no entry that was there
    is overwritten. *)
Theorem memo_table_first_seen_wins (env : Env) (opts : SignOpts) (a : string) (st st' : St) :
  session_later (remap env opts a st).2 st' →
  ∃ stored,
    mappings (remap env opts a st).2 !! a = Some stored
    ∧ (mappings st !! a = None → stored = first_mapping env opts a)
    ∧ (∀ w, mappings st !! a = Some w → stored = w)
    ∧ mappings st' !! a = Some stored
    ∧ (∀ env' opts', remap env' opts' a st' = (Ok tt, st'))
    ∧ mapping_of a st' = (Ok stored, st')
    ∧ (∀ b w, mappings st !! b = Some w → mappings st' !! b = Some w).
Proof.
  intros Hlater.
  assert (∃ stored, mappings (remap env opts a st).2 !! a = Some stored
            ∧ (mappings st !! a = None → stored = first_mapping env opts a)
            ∧ (∀ w, mappings st !! a = Some w → stored = w)) as (stored & H1 & H2 & H3).
  { destruct (mappings st !! a) as [w|] eqn:Ha.
    - exists w. split; [by apply remap_keeps |]. split; [done | congruence].
    - exists (first_mapping env opts a). split; [by apply remap_first |]. done. }
  pose proof (session_later_grows _ _ Hlater) as Hgrow.
  unfold mappings_kept in Hgrow.
  assert (mappings st' !! a = Some stored) as H4
    by (eapply lookup_weaken; [exact H1 | exact Hgrow]).
  exists stored. repeat split; try done.
  - intros env' opts'. by eapply remap_known.
  - unfold mapping_of. by rewrite H4.
  - intros b w Hb. eapply lookup_weaken; [| exact Hgrow]. by apply remap_keeps.
Qed.

(** ** C9: stripping entitlements twice *)

Lemma plist_update_id (p : Path) (st : St) : plist_update p (λ m, m) st = st.
Proof.
  unfold plist_update. destruct (fs st !! p) as [[s|m|m]|] eqn:H; try done.
  destruct st; unfold set_fs; simpl in *. f_equal. by apply insert_id.
Qed.

Lemma plist_update_compose (p : Path) (f g : Plist → Plist) (st : St) :
  plist_update p g (plist_update p f st) = plist_update p (λ m, g (f m)) st.
Proof.
  unfold plist_update. destruct (fs st !! p) as [[s|m|m]|] eqn:H; rewrite ?H; try done.
  simpl. rewrite lookup_insert_eq. unfold set_fs; simpl. f_equal.
  apply insert_insert_eq.
Qed.

Lemma plist_buddy_unchecked (cmd : PBCmd) (p : Path) (st : St) :
  (_ ← plist_buddy cmd p false; mret tt) st = (Ok tt, plist_update p (pb_apply cmd) st).
Proof.
  rewrite bind_unfold. unfold plist_buddy, plist_update, pb_apply.
  destruct (fs st !! p) as [[s|m|m]|] eqn:H; try done.
  destruct (PlistBuddy.run cmd m) as [[out m']|]; [done |].
  simpl. f_equal. destruct st; unfold set_fs; simpl in *. f_equal.
  symmetry. by apply insert_id.
Qed.

Lemma for_each_plist_buddy_unchecked (cmds : list PBCmd) (p : Path) (st : St) :
  for_each cmds (λ cmd, _ ← plist_buddy cmd p false; mret tt) st
  = (Ok tt, plist_update p (λ m, foldl (λ acc cmd, pb_apply cmd acc) m cmds) st).
Proof.
  revert st. induction cmds as [|cmd cmds IH]; intros st.
  - simpl. by rewrite plist_update_id.
  - cbn [for_each]. rewrite bind_unfold, plist_buddy_unchecked, IH.
    by rewrite plist_update_compose.
Qed.

Lemma for_each_map {A B} (f : A → B) (xs : list A) (body : B → M unit) :
  for_each (map f xs) body = for_each xs (λ x, body (f x)).
Proof. induction xs as [|x xs IH]; simpl; [done | by rewrite IH]. Qed.

Lemma strip_entitlements_run (p : Path) (st : St) :
  strip_entitlements p st = (Ok tt, plist_update p strip_manifest st).
Proof.
  pose (B := λ cmd, (_ ← plist_buddy cmd p false; mret tt) : M unit).
  change (strip_entitlements p st)
    with ((_ ← for_each stripped_entitlements (λ item, B (PB_Delete item));
           for_each demoted_entitlements (λ kv, B (PB_Set kv.1 kv.2))) st).
  rewrite <- (for_each_map PB_Delete _ B).
  rewrite <- (for_each_map (λ kv : string * string, PB_Set kv.1 kv.2) _ B).
  rewrite <- for_each_app. apply for_each_plist_buddy_unchecked.
Qed.

Lemma pb_apply_delete (k : string) (m : Plist) : pb_apply (PB_Delete k) m = delete k m.
Proof.
  unfold pb_apply. simpl. destruct (m !! k) eqn:H; simpl; [done |].
  symmetry. by apply delete_id.
Qed.

Lemma pb_apply_set (k text : string) (m : Plist) :
  pb_apply (PB_Set k text) m = alter (set_or_keep text) k m.
Proof.
  unfold pb_apply, set_or_keep. simpl. apply map_eq. intros i.
  destruct (decide (k = i)) as [<-|Hne].
  - rewrite lookup_alter_eq.
    destruct (m !! k) as [old|] eqn:H; simpl; [| by rewrite H].
    destruct (PlistBuddy.set_value old text) as [v'|]; simpl.
    + by rewrite lookup_insert_eq.
    + by rewrite H.
  - rewrite lookup_alter_ne by done.
    destruct (m !! k) as [old|]; simpl; [| done].
    destruct (PlistBuddy.set_value old text) as [v'|]; simpl; [| done].
    by rewrite lookup_insert_ne.
Qed.

Lemma lookup_foldl_delete (ks : list string) (m : Plist) (k : string) :
  foldl (λ acc cmd, pb_apply cmd acc) m (map PB_Delete ks) !! k
  = if bool_decide (k ∈ ks) then None else m !! k.
Proof.
  revert m. induction ks as [|k0 ks IH]; intros m; simpl; [done |].
  rewrite IH, pb_apply_delete.
  destruct (decide (k = k0)) as [->|Hne].
  - rewrite lookup_delete_eq.
    rewrite (bool_decide_eq_true_2 (k0 ∈ k0 :: ks)) by apply list_elem_of_here.
    by case_bool_decide.
  - rewrite lookup_delete_ne by done.
    case_bool_decide as Hin.
    + by rewrite bool_decide_eq_true_2 by (by apply list_elem_of_further).
    + rewrite bool_decide_eq_false_2; [done |].
      intros [?|?]%elem_of_cons; done.
Qed.

Lemma lookup_foldl_set (kvs : list (string * string)) (m : Plist) (k : string) :
  foldl (λ acc cmd, pb_apply cmd acc) m (map (λ kv : string * string, PB_Set kv.1 kv.2) kvs) !! k
  = demote_value k kvs <$> m !! k.
Proof.
  unfold demote_value. revert m. induction kvs as [|[k0 v] kvs IH]; intros m; simpl.
  - by destruct (m !! k).
  - rewrite IH, pb_apply_set, lookup_alter.
    destruct (decide (k0 = k)) as [->|Hne]; [| done].
    by destruct (m !! k).
Qed.

Lemma strip_manifest_lookup (m : Plist) (k : string) :
  strip_manifest m !! k
  = if bool_decide (k ∈ stripped_entitlements) then None
    else demote_value k demoted_entitlements <$> m !! k.
Proof.
  unfold strip_manifest, strip_commands. rewrite foldl_app.
  rewrite lookup_foldl_set, lookup_foldl_delete. by case_bool_decide.
Qed.

Lemma set_or_keep_twice (text : string) (old : PVal) :
  set_or_keep text (set_or_keep text old) = set_or_keep text old.
Proof. by destruct old. Qed.

Lemma demote_value_twice (k : string) (old : PVal) :
  demote_value k demoted_entitlements (demote_value k demoted_entitlements old)
  = demote_value k demoted_entitlements old.
Proof.
  unfold demote_value, demoted_entitlements. simpl.
  repeat case_decide; simplify_eq; by rewrite ?set_or_keep_twice.
Qed.

Lemma strip_manifest_twice (m : Plist) : strip_manifest (strip_manifest m) = strip_manifest m.
Proof.
  apply map_eq. intros k. rewrite !strip_manifest_lookup.
  case_bool_decide; [done |].
  destruct (m !! k) as [old|]; [| done].
  cbv [fmap option_fmap option_map]. by rewrite demote_value_twice.
Qed.

(** C9. The strip step is idempotent: it never fails, and running the
    delete-list and the two demotions a second time leaves the state, and
    so the manifest, exactly as the first run left it, whatever the
    manifest was. *)
Theorem strip_entitlements_idempotent (p : Path) (st : St) :
  (strip_entitlements p st).1 = Ok tt
  ∧ strip_entitlements p (strip_entitlements p st).2
    = (Ok tt, (strip_entitlements p st).2)
  ∧ ∀ m, fs st !! p = Some (FPlist m) →
      fs (strip_entitlements p st).2 !! p = Some (FPlist (strip_manifest m))
      ∧ strip_manifest (strip_manifest m) = strip_manifest m.
Proof.
  rewrite !strip_entitlements_run. simpl. split; [done |]. split.
  - f_equal. rewrite plist_update_compose.
    unfold plist_update. destruct (fs st !! p) as [[s|m|m]|]; try done.
    by rewrite strip_manifest_twice.
  - intros m H. split; [| apply strip_manifest_twice].
    unfold plist_update. rewrite H. simpl. apply lookup_insert_eq.
Qed.

(** ** C3: the retry wrapper *)

Lemma exec_retry_loop_unfold {A} (fuel : nat) (name : string) (func : M A)
    (start_time : Q) (last_error : option Exn) (st : St) :
  exec_retry_loop (S fuel) name func start_time last_error st =
  if Qlt_le_dec (clock st - start_time) retry_deadline then
    match func st with
    | (Raise e, st') =>
        if cause_is_timeout e then
          exec_retry_loop fuel name func start_time (Some e)
            (add_log (name +:+ " timed out, retrying") st')
        else (Raise e, st')
    | r => r
    end
  else (Raise (too_many_timeouts name last_error), st).
Proof.
  cbn [exec_retry_loop]. rewrite bind_unfold. unfold time_time, gets.
  destruct (Qlt_le_dec _ _); [| done].
  unfold try_except_as. destruct (func st) as [[r|e|] st']; try done.
  destruct (cause_is_timeout e); [| done].
  by rewrite bind_unfold.
Qed.


Lemma exec_retry_loop_more_fuel {A} (fuel : nat) (name : string) (func : M A)
    (start_time : Q) (last_error : option Exn) (st : St) (out : Result A * St) :
  exec_retry_loop fuel name func start_time last_error st = out →
  out.1 ≠ OutOfFuel →
  exec_retry_loop (S fuel) name func start_time last_error st = out.
Proof.
  revert last_error st. induction fuel as [|fuel IH]; intros last st Hrun Hout.
  - subst out. by destruct Hout.
  - rewrite exec_retry_loop_unfold in *.
    destruct (Qlt_le_dec _ _); [| done].
    destruct (func st) as [[r|e|] st']; try done.
    destruct (cause_is_timeout e); [| done]. by apply IH.
Qed.


Lemma exec_retry_unfold {A} (fuel : nat) (name : string) (func : M A) (st : St) :
  exec_retry fuel name func st = exec_retry_loop fuel name func (clock st) None st.
Proof. reflexivity. Qed.


(** ** Running the primitives *)

Ltac neq := first [assumption | apply not_eq_sym; assumption].

Lemma bind_run {A B} (m : M A) (f : A → M B) (st st1 : St) (a : A) :
  m st = (Ok a, st1) → (m ≫= f) st = f a st1.
Proof. intros H. by rewrite bind_unfold, H. Qed.

Lemma write_file_run (p : Path) (c : File) (st : St) :
  write_file p c st = (Ok tt, set_fs (insert p c) st).
Proof. reflexivity. Qed.

Lemma rmtree_run (d : Path) (st : St) : rmtree d st = (Ok tt, set_fs (outside d) st).
Proof. reflexivity. Qed.

Lemma print_run (line : string) (st : St) : print line st = (Ok tt, add_log line st).
Proof. reflexivity. Qed.

Lemma plist_buddy_print_run (k : string) (p : Path) (m : Plist) (v : PVal) (st : St) :
  fs st !! p = Some (FPlist m) → m !! k = Some v →
  plist_buddy (PB_Print k) p true st
  = (Ok (Py.join (String Py.newline EmptyString) (PlistBuddy.render v)), st).
Proof.
  intros Hp Hk. unfold plist_buddy. rewrite Hp. simpl. rewrite Hk. simpl.
  f_equal. destruct st; unfold set_fs; simpl in *. f_equal. by apply insert_id.
Qed.

Lemma tmp_name_inj (a b : nat) : tmp_name a = tmp_name b → a = b.
Proof.
  unfold tmp_name. intros H. apply (inj (String.app "tmp")) in H.
  by apply (inj pretty) in H.
Qed.

Lemma joinpath_inj (p q : Path) (a b : string) : joinpath p a = joinpath q b → p = q ∧ a = b.
Proof. unfold joinpath. intros H. by apply app_inj_tail in H. Qed.

Lemma joinpath_ne_name (p q : Path) (a b : string) : a ≠ b → joinpath p a ≠ joinpath q b.
Proof. intros Hab H. apply joinpath_inj in H as [_ ?]. done. Qed.

Lemma temporary_joinpath (p : Path) (a : string) : temporary p → temporary (joinpath p a).
Proof. unfold temporary, joinpath. intros H. by apply prefix_app_r. Qed.

Lemma temporary_tmp_dir (n : nat) : temporary (tmp_dir n).
Proof. unfold temporary, tmp_dir. by exists [tmp_name n]. Qed.

Lemma dump_prov_entitlements_plist_run (prov ent : Path) (manifest : Plist)
    (kvs : list (string * PVal)) (st : St) :
  fs st !! prov = Some (FProv manifest) →
  manifest !! "Entitlements" = Some (PDict kvs) →
  prov ≠ joinpath (tmp_dir (tmp_count st)) "prov.plist" →
  ent ≠ joinpath (tmp_dir (tmp_count st)) "prov.plist" →
  dump_prov_entitlements_plist prov ent st
  = (Ok tt,
     set_fs (λ m, outside (tmp_dir (tmp_count st))
                    (<[ent := FPlist (list_to_map kvs)]>
                       (<[joinpath (tmp_dir (tmp_count st)) "prov.plist" := FPlist manifest]> m)))
       (bump_tmp st)).
Proof.
  intros Hprov Hent Hne1 Hne2.
  unfold dump_prov_entitlements_plist, with_tmpdir. rewrite bind_unfold.
  unfold mkdtemp. unfold try_finally.
  rewrite (bind_run _ _ _ _ _ (write_file_run _ _ _)).
  erewrite bind_run; cycle 1.
  { unfold security_dump_prov. simpl. rewrite lookup_insert_ne by neq.
    rewrite Hprov. reflexivity. }
  rewrite (bind_run _ _ _ _ _ (write_file_run _ _ _)).
  rewrite (bind_run _ _ _ _ _ (write_file_run _ _ _)).
  erewrite bind_run; cycle 1.
  { unfold plist_buddy_xml. simpl. rewrite lookup_insert_ne by neq.
    rewrite lookup_insert_eq, Hent. reflexivity. }
  rewrite write_file_run. rewrite (bind_run _ _ _ _ _ (rmtree_run _ _)).
  unfold mret, M_ret. f_equal. unfold set_fs; simpl.
  by rewrite !insert_insert_eq.
Qed.

(** What the file system holds at [ent] once the entitlements of a
    profile are dumped there. *)
Lemma dump_prov_entitlements_plist_lookup (ent : Path) (n : nat) (E manifest : Plist)
    (fsys : gmap Path File) :
  ¬ tmp_dir n `prefix_of` ent →
  outside (tmp_dir n)
    (<[ent := FPlist E]> (<[joinpath (tmp_dir n) "prov.plist" := FPlist manifest]> fsys))
  !! ent = Some (FPlist E).
Proof.
  intros H. unfold outside. apply map_lookup_filter_Some. split; [| done].
  apply lookup_insert_eq.
Qed.

(** ** The retry wrapper ends *)

(** The loop ends: when every attempt that times out takes at least [d]
    seconds, and the attempts themselves end, some loop budget is enough
    whatever the attempts do. *)
Lemma exec_retry_loop_ends {A} (name : string) (func : M A) (start_time d : Q) :
  (0 < d)%Q →
  (∀ st, (func st).1 ≠ OutOfFuel) →
  (∀ st e st', func st = (Raise e, st') → cause_is_timeout e = true →
               (clock st + d <= clock st')%Q) →
  ∀ (n : nat) (last_error : option Exn) (st : St),
    (retry_deadline - (clock st - start_time) <= inject_Z (Z.of_nat n) * d)%Q →
    ∃ fuel, (exec_retry_loop fuel name func start_time last_error st).1 ≠ OutOfFuel.
Proof.
  intros Hd Hends Hslow n. induction n as [|n IH]; intros last st Hleft.
  - exists 1%nat. rewrite exec_retry_loop_unfold.
    destruct (Qlt_le_dec _ _) as [Hlt|Hge]; [| done].
    exfalso. change (inject_Z (Z.of_nat 0)) with 0%Q in Hleft.
    rewrite Qmult_0_l in Hleft.
    apply (Qlt_not_le _ _ Hlt).
    apply (Qplus_le_l _ _ (- (clock st - start_time))).
    rewrite Qplus_opp_r. exact Hleft.
  - destruct (Qlt_le_dec (clock st - start_time) retry_deadline) as [Hlt|Hge] eqn:Htest.
    2:{ exists 1%nat. rewrite exec_retry_loop_unfold, Htest. done. }
    destruct (func st) as [[r|e|] st'] eqn:Hf.
    + exists 1%nat. rewrite exec_retry_loop_unfold, Htest, Hf. done.
    + destruct (cause_is_timeout e) eqn:Hc.
      2:{ exists 1%nat. rewrite exec_retry_loop_unfold, Htest, Hf, Hc. done. }
      destruct (IH (Some e) (add_log (name +:+ " timed out, retrying") st')) as [fuel Hfuel].
      { simpl. pose proof (Hslow st e st' Hf Hc) as Hstep.
        rewrite Nat2Z.inj_succ in Hleft. unfold Z.succ in Hleft.
        rewrite inject_Z_plus in Hleft. change (inject_Z 1) with 1%Q in Hleft.
        unfold retry_deadline in *. lra. }
      exists (S fuel). rewrite exec_retry_loop_unfold, Htest, Hf, Hc. exact Hfuel.
    + pose proof (Hends st) as H. rewrite Hf in H. by destruct H.
Qed.

Lemma exec_retry_ends {A} (name : string) (func : M A) (d : Q) (st : St) :
  (0 < d)%Q →
  (∀ st, (func st).1 ≠ OutOfFuel) →
  (∀ st e st', func st = (Raise e, st') → cause_is_timeout e = true →
               (clock st + d <= clock st')%Q) →
  ∃ fuel, (exec_retry fuel name func st).1 ≠ OutOfFuel.
Proof.
  intros Hd Hends Hslow.
  set (n := Z.to_nat (Qceiling (retry_deadline / d))).
  destruct (exec_retry_loop_ends name func (clock st) d Hd Hends Hslow n None st)
    as [fuel Hfuel]; [| by exists fuel].
  assert (retry_deadline / d <= inject_Z (Z.of_nat n))%Q as Hn.
  { apply (Qle_trans _ (inject_Z (Qceiling (retry_deadline / d)))); [apply Qle_ceiling |].
    rewrite <- Zle_Qle. unfold n. lia. }
  apply (Qmult_le_r _ _ d Hd) in Hn.
  assert (retry_deadline / d * d == retry_deadline)%Q as Hdiv.
  { field. intros H0. rewrite H0 in Hd. by apply Qlt_irrefl in Hd. }
  rewrite Hdiv in Hn.
  lra.
Qed.

(** The same for attempts that use up the runs of a tool. *)
Lemma exec_retry_loop_ends_by_runs {A} (name : string) (func : M A) (start_time : Q) :
  (∀ st, (func st).1 ≠ OutOfFuel) →
  (∀ st e st', func st = (Raise e, st') → cause_is_timeout e = true →
               (length (xcode st') < length (xcode st))%nat) →
  ∀ (n : nat) (last_error : option Exn) (st : St),
    (length (xcode st) < n)%nat →
    (exec_retry_loop n name func start_time last_error st).1 ≠ OutOfFuel.
Proof.
  intros Hends Hruns n. induction n as [|n IH]; intros last st Hn; [lia |].
  rewrite exec_retry_loop_unfold.
  destruct (Qlt_le_dec _ _); [| done].
  destruct (func st) as [[r|e|] st'] eqn:Hf; [done | |].
  - destruct (cause_is_timeout e) eqn:Hc; [| done].
    apply IH. simpl. pose proof (Hruns st e st' Hf Hc). lia.
  - pose proof (Hends st) as H. by rewrite Hf in H.
Qed.

Lemma xcodebuild_uses_a_run (product : Path) (st st' : St) (r : Result unit) :
  xcodebuild product st = (r, st') →
  r ≠ OutOfFuel
  ∧ (∀ e, r = Raise e → cause_is_timeout e = true →
          (length (xcode st') < length (xcode st))%nat).
Proof.
  unfold xcodebuild. destruct (xcode st) as [|run rest] eqn:Hx.
  - intros [= <- <-]. split; [done |]. intros e [= <-]. done.
  - destruct (xr_outcome run); intros [= <- <-]; (split; [done |]);
      intros e [= <-]; simpl; intros; lia.
Qed.

(** An archive and an export end within a budget of one loop test more
    than the runs the tool has left. *)
Lemma xcode_archive_ends (project_dir : Path) (scheme_name : string) (archive : Path)
    (st : St) :
  (exec_retry (S (length (xcode st))) "xcode_archive"
     (_xcode_archive project_dir scheme_name archive) st).1 ≠ OutOfFuel.
Proof.
  rewrite exec_retry_unfold. apply exec_retry_loop_ends_by_runs; [| | lia].
  - intros st0. unfold _xcode_archive.
    destruct (xcodebuild _ st0) as [r st'] eqn:E. by apply xcodebuild_uses_a_run in E as [? _].
  - intros st0 e st' E. unfold _xcode_archive in E.
    apply xcodebuild_uses_a_run in E as [_ E]. by apply E.
Qed.

Lemma xcode_export_ends (project_dir archive export_dir : Path) (st : St) :
  (exec_retry (S (length (xcode st))) "xcode_export"
     (_xcode_export project_dir archive export_dir) st).1 ≠ OutOfFuel.
Proof.
  rewrite exec_retry_unfold. apply exec_retry_loop_ends_by_runs; [| | lia].
  - intros st0. unfold _xcode_export. rewrite (bind_run _ _ _ _ _ (write_file_run _ _ _)).
    destruct (xcodebuild _ _) as [r st'] eqn:E. by apply xcodebuild_uses_a_run in E as [? _].
  - intros st0 e st' E. unfold _xcode_export in E.
    rewrite (bind_run _ _ _ _ _ (write_file_run _ _ _)) in E.
    apply xcodebuild_uses_a_run in E as [_ E]. by apply E.
Qed.

(** ** C4: the main bundle identifier from a provisioning profile *)

Lemma find_from_app (team rest : string) (i : Z) :
  Py.contains_char "." team = false →
  Py.find_from "." (team +:+ String "." rest) i = (i + Z.of_nat (String.length team))%Z.
Proof.
  revert i. induction team as [|c team IH]; intros i H.
  - rewrite append_nil. simpl. lia.
  - rewrite append_cons. simpl in *. apply orb_false_elim in H as [Hc Ht].
    rewrite Hc, IH by done. lia.
Qed.

Lemma drop_team_prefix (team rest : string) :
  Py.contains_char "." team = false →
  Py.slice_from (Py.find "." (team +:+ String "." rest) + 1) (team +:+ String "." rest)
  = rest.
Proof.
  intros H. unfold Py.find. rewrite find_from_app by done.
  unfold Py.slice_from. rewrite (proj2 (Z.leb_le _ _)) by lia.
  replace (Z.to_nat (0 + Z.of_nat (String.length team) + 1))
    with (String.length (team +:+ ".")).
  - replace (team +:+ String "." rest) with ((team +:+ ".") +:+ rest).
    + apply drop_app.
    + by rewrite string_app_assoc.
  - clear H. induction team as [|c team IH]; [done |].
    rewrite append_cons. simpl String.length. lia.
Qed.

Lemma join_singleton (sep s : string) : Py.join sep [s] = s.
Proof. reflexivity. Qed.

Lemma render_string (s : string) : PlistBuddy.render (PString s) = [s].
Proof. reflexivity. Qed.

(** C4. When the main bundle identifier is to be derived from the
    provisioning profile (a profile is supplied and the override is the
    empty string) and the profile's application identifier is a team
    identifier, a dot and a rest, the session does not fail here: the main
    bundle identifier is the rest, the team prefix stripped, unless the rest
    holds a wildcard; then it is the original bundle identifier, and a
    line saying so is logged. *)
Theorem main_bundle_id_from_profile (env : Env) (opts : SignOpts) (old_main_bundle_id : string)
    (pf : Path) (manifest : Plist) (kvs : list (string * PVal)) (team rest : string)
    (st : St) :
  prov_file opts = Some pf →
  bundle_id opts = Some EmptyString →
  ¬ temporary pf →
  fs st !! pf = Some (FProv manifest) →
  manifest !! "Entitlements" = Some (PDict kvs) →
  (list_to_map kvs : Plist) !! "application-identifier"
    = Some (PString (team +:+ String "." rest)) →
  Py.contains_char "." team = false →
  let run := sign_main_bundle_id env opts old_main_bundle_id st in
  run.1 = Ok (if Py.contains "*" rest then old_main_bundle_id else rest)
  ∧ log run.2
    = log st ++ "Using provisioning profile's application id"
        :: (if Py.contains "*" rest
            then ["Provisioning profile is wildcard, using original bundle id"]
            else []).
Proof.
  intros Hpf Hbid Htmp Hfs Hent Happ Hteam run. subst run.
  unfold sign_main_bundle_id. rewrite Hpf, Hbid.
  rewrite (bind_run _ _ _ _ _ (print_run _ _)).
  unfold with_tmpdir. rewrite bind_unfold. unfold mkdtemp. unfold try_finally.
  erewrite bind_run; cycle 1.
  { apply dump_prov_entitlements_plist_run with (manifest := manifest) (kvs := kvs);
      [done | done | |].
    - intros ->. apply Htmp. apply temporary_joinpath, temporary_tmp_dir.
    - by apply joinpath_ne_name. }
  erewrite bind_run; cycle 1.
  { eapply plist_buddy_print_run; [| exact Happ].
    simpl. apply dump_prov_entitlements_plist_lookup.
    intros [k Hk]. unfold joinpath, tmp_dir in Hk. simpl in Hk.
    assert (tmp_name (tmp_count st) = tmp_name (S (tmp_count st))) as Hn by congruence.
    apply tmp_name_inj in Hn. lia. }
  rewrite render_string, join_singleton.
  rewrite drop_team_prefix by done.
  destruct (Py.contains "*" rest).
  - rewrite (bind_run _ _ _ _ _ (print_run _ _)). simpl. split; [done |].
    by rewrite <- app_assoc.
  - simpl. split; [done |]. done.
Qed.

(** ** What signing a primary component goes through *)

#[local] Instance same_trace_preorder : PreOrder same_trace.
Proof. split; [done |]. intros a b c Hab Hbc. unfold same_trace in *. congruence. Qed.

#[local] Instance same_file_preorder (p : Path) : PreOrder (same_file p).
Proof. split; [done |]. intros a b c Hab Hbc. unfold same_file in *. congruence. Qed.

Lemma remap_same_trace (env : Env) (opts : SignOpts) (a : string) :
  steps same_trace (remap env opts a).
Proof.
  intros st. unfold remap, gets. rewrite bind_unfold.
  destruct (mappings st !! a); [done |]. by destruct (encode_ids opts).
Qed.

Lemma named_temporary_file_run (workdir : Path) (suffix : string) (st : St) :
  named_temporary_file workdir suffix st
  = (Ok (joinpath workdir (tmp_name (tmp_count st) +:+ suffix)),
     set_fs (insert (joinpath workdir (tmp_name (tmp_count st) +:+ suffix)) (FText EmptyString))
       (bump_tmp st)).
Proof. reflexivity. Qed.

Lemma tmp_plist_name (n : nat) (name : string) :
  (∃ rest, name = String "I" rest) → tmp_name n +:+ ".plist" ≠ name.
Proof. intros [rest ->]. unfold tmp_name. rewrite string_app_assoc. discriminate. Qed.

(** The entitlements file of a component is never its manifest. *)
Lemma entitlements_plist_ne_info (workdir component : Path) (n : nat) :
  joinpath workdir (tmp_name n +:+ ".plist") ≠ joinpath component "Info.plist".
Proof. apply joinpath_ne_name, tmp_plist_name. by eexists. Qed.

(** The four steps of [sign_primary]. *)
Lemma sign_primary_inv env opts m om dist component workdir st pipe st' :
  sign_primary env opts m om dist component workdir st = (Ok pipe, st') →
  let info := joinpath component "Info.plist" in
  let ent := joinpath workdir (tmp_name (tmp_count st) +:+ ".plist") in
  let st_a := set_fs (insert ent (FText EmptyString)) (bump_tmp st) in
  ∃ old st_b st_c,
    plist_buddy (PB_Print "CFBundleIdentifier") info true st_a = (Ok old, st_b)
    ∧ sign_primary_entitlements env opts m om dist component old
        (component_bundle_id m om old) info (joinpath component (path_stem component))
        (joinpath component "embedded.mobileprovision") ent st_b = (Ok tt, st_c)
    ∧ sign_primary_finish env opts component old (component_bundle_id m om old) info ent st_c
      = (Ok pipe, st').
Proof.
  intros Hrun info ent st_a. unfold sign_primary in Hrun.
  apply bind_Ok_inv in Hrun as (ent' & st_a' & Hntf & Hrun).
  rewrite named_temporary_file_run in Hntf. injection Hntf as <- <-.
  apply bind_Ok_inv in Hrun as (old & st_b & Hprint & Hrun).
  apply bind_Ok_inv in Hrun as ([] & st_c & Hmid & Hrun).
  by exists old, st_b, st_c.
Qed.

Lemma steps_run {A} (R : St → St → Prop) (m : M A) (st st' : St) (r : Result A) :
  steps R m → m st = (r, st') → R st st'.
Proof. intros H Hrun. specialize (H st). by rewrite Hrun in H. Qed.

Lemma sign_primary_entitlements_same_trace env opts m om dist c ob b i cb ep en :
  steps same_trace (sign_primary_entitlements env opts m om dist c ob b i cb ep en).
Proof.
  apply (steps_sign_primary_entitlements same_trace (λ _, True) (λ _, True) (λ _, True));
    try done.
  apply remap_same_trace.
Qed.

(** ** C10: the debugging entitlement *)

Lemma plist_buddy_unchecked_run (cmd : PBCmd) (p : Path) (st : St) :
  ∃ out, plist_buddy cmd p false st = (Ok out, plist_update p (pb_apply cmd) st).
Proof.
  unfold plist_buddy, plist_update, pb_apply.
  destruct (fs st !! p) as [[s|m|m]|] eqn:H; try by eexists.
  destruct (PlistBuddy.run cmd m) as [[out m']|]; [by eexists |].
  exists EmptyString. f_equal. destruct st; unfold set_fs; simpl in *. f_equal.
  symmetry. by apply insert_id.
Qed.

Lemma set_debugging_entitlement (opts : SignOpts) (ent : Path) (st st' : St) :
  set_debugging opts ent st = (Ok tt, st') →
  plist_entry "get-task-allow" (fs st' !! ent)
  = if patch_debug opts then Some (PBool true) else None.
Proof.
  unfold set_debugging. intros Hrun.
  destruct (plist_buddy_unchecked_run (PB_Delete "get-task-allow") ent st) as [out Hdel].
  rewrite (bind_run _ _ _ _ _ Hdel) in Hrun.
  destruct (patch_debug opts).
  - apply bind_Ok_inv in Hrun as (out' & st1 & Hadd & Hprint).
    rewrite print_run in Hprint. injection Hprint as <-. simpl.
    unfold plist_buddy in Hadd.
    destruct (fs _ !! ent) as [[s|m1|m1]|] eqn:H1; try discriminate.
    destruct (PlistBuddy.run _ m1) as [[o m2]|] eqn:Hrun2; [| discriminate].
    injection Hadd as _ <-. simpl. rewrite lookup_insert_eq. simpl.
    simpl in Hrun2. destruct (m1 !! "get-task-allow"); [discriminate |].
    injection Hrun2 as _ <-. by rewrite lookup_insert_eq.
  - rewrite print_run in Hrun. injection Hrun as <-. simpl.
    unfold plist_update. destruct (fs st !! ent) as [[s|m1|m1]|] eqn:H1; simpl;
      rewrite ?H1; try done.
    rewrite lookup_insert_eq. simpl. rewrite pb_apply_delete. apply lookup_delete_eq.
Qed.

Lemma same_file_insert (q p : Path) (c : File) (st : St) :
  p ≠ q → same_file q st (set_fs (insert p c) st).
Proof. intros H. unfold same_file. simpl. by rewrite lookup_insert_ne. Qed.

Lemma read_file_inv (p : Path) (st st' : St) (shown : string) :
  read_file p st = (Ok shown, st') → st' = st.
Proof. unfold read_file. destruct (fs st !! p); intros H; by injection H. Qed.

(** What [sign_primary_finish] hands to codesign. *)
Lemma sign_primary_finish_dispatch env opts component old bid info ent st pipe st' :
  ent ≠ info →
  sign_primary_finish env opts component old bid info ent st = (Ok pipe, st') →
  ∃ st1 st2,
    set_bundle_identifier opts old bid info st = (Ok tt, st1)
    ∧ set_debugging opts ent st1 = (Ok tt, st2)
    ∧ trace st' = trace st ++ [EvDispatch component (fs st2 !! ent)].
Proof.
  intros Hne Hrun. unfold sign_primary_finish in Hrun.
  apply bind_Ok_inv in Hrun as ([] & st1 & H1 & Hrun).
  apply bind_Ok_inv in Hrun as ([] & st2 & H2 & Hrun).
  apply bind_Ok_inv in Hrun as ([] & st3 & H3 & Hrun).
  apply bind_Ok_inv in Hrun as ([] & st4 & H4 & Hrun).
  apply bind_Ok_inv in Hrun as (shown & st5 & H5 & Hrun).
  apply read_file_inv in H5 as ->.
  rewrite (bind_run _ _ _ _ _ (print_run _ _)) in Hrun.
  unfold codesign_async in Hrun. injection Hrun as _ <-.
  exists st1, st2. split; [done |]. split; [done |]. simpl.
  assert (trace st4 = trace st) as ->.
  { pose proof (steps_run same_trace _ _ _ _
      (steps_set_bundle_identifier same_trace (λ _, True) ltac:(done) ltac:(done)
         opts old bid info I) H1) as T1.
    pose proof (steps_run same_trace _ _ _ _
      (steps_set_debugging same_trace (λ _, True) ltac:(done) ltac:(done) opts ent I) H2)
      as T2.
    pose proof (steps_run same_trace _ _ _ _
      (steps_force_all_devices same_trace (λ _, True) ltac:(done) ltac:(done) opts info I)
      H3) as T3.
    pose proof (steps_run same_trace _ _ _ _
      (steps_force_file_sharing same_trace (λ _, True) ltac:(done) ltac:(done) opts info I)
      H4) as T4.
    unfold same_trace in *. congruence. }
  assert (fs st4 !! ent = fs st2 !! ent) as ->; [| done].
  pose proof (steps_run (same_file ent) _ _ _ _
    (steps_force_all_devices (same_file ent) (λ p, p ≠ ent)
       (same_file_insert ent) ltac:(done) opts info (not_eq_sym Hne)) H3) as F3.
  pose proof (steps_run (same_file ent) _ _ _ _
    (steps_force_file_sharing (same_file ent) (λ p, p ≠ ent)
       (same_file_insert ent) ltac:(done) opts info (not_eq_sym Hne)) H4) as F4.
  unfold same_file in *. congruence.
Qed.

Lemma sign_primary_same_trace_before_finish env opts m om dist component workdir st
    old st_b st_c :
  let info := joinpath component "Info.plist" in
  let ent := joinpath workdir (tmp_name (tmp_count st) +:+ ".plist") in
  let st_a := set_fs (insert ent (FText EmptyString)) (bump_tmp st) in
  plist_buddy (PB_Print "CFBundleIdentifier") info true st_a = (Ok old, st_b) →
  sign_primary_entitlements env opts m om dist component old
    (component_bundle_id m om old) info (joinpath component (path_stem component))
    (joinpath component "embedded.mobileprovision") ent st_b = (Ok tt, st_c) →
  trace st_c = trace st.
Proof.
  intros info ent st_a Hprint Hmid.
  pose proof (steps_run same_trace _ _ _ _
    (steps_plist_buddy_print same_trace _ _ _) Hprint) as T1.
  pose proof (steps_run same_trace _ _ _ _
    (sign_primary_entitlements_same_trace _ _ _ _ _ _ _ _ _ _ _ _) Hmid) as T2.
  unfold same_trace in *. rewrite T2, T1. done.
Qed.

(** C10. When a primary component has been signed, the entitlements
    handed to codesign hold the key get-task-allow exactly when the
    enable-debugging flag is set, and then as the boolean true: whatever
    value the derived or extracted entitlements had for it was deleted
    first. *)
Theorem get_task_allow_iff_patch_debug env opts m om dist component workdir st pipe st' :
  sign_primary env opts m om dist component workdir st = (Ok pipe, st') →
  ∃ given,
    trace st' = trace st ++ [EvDispatch component given]
    ∧ plist_entry "get-task-allow" given
      = (if patch_debug opts then Some (PBool true) else None)
    ∧ (is_Some (plist_entry "get-task-allow" given) ↔ patch_debug opts = true).
Proof.
  intros Hrun. apply sign_primary_inv in Hrun as (old & st_b & st_c & Hprint & Hmid & Hfin).
  pose proof (sign_primary_same_trace_before_finish _ _ _ _ _ _ _ _ _ _ _ Hprint Hmid) as T.
  apply sign_primary_finish_dispatch in Hfin as (st1 & st2 & _ & Hdbg & Htrace);
    [| apply entitlements_plist_ne_info].
  apply set_debugging_entitlement in Hdbg.
  eexists. split; [by rewrite Htrace, T |]. split; [exact Hdbg |].
  rewrite Hdbg. destruct (patch_debug opts); split; try done.
Qed.

(** ** Entries that a step leaves alone *)

#[local] Instance same_entry_preorder (p : Path) (k : string) : PreOrder (same_entry p k).
Proof. split; [done |]. intros a b c Hab Hbc. unfold same_entry in *. congruence. Qed.

Lemma run_keeps_other_keys (cmd : PBCmd) (m m' : Plist) (out k : string) :
  PlistBuddy.run cmd m = Some (out, m') → cmd_key cmd ≠ k → m' !! k = m !! k.
Proof.
  intros Hrun Hk. destruct cmd as [k0|k0|k0 v|k0 ty v|k0 i ty v]; simpl in *.
  - destruct (m !! k0); simplify_eq/=. done.
  - destruct (m !! k0); simplify_eq/=. by rewrite lookup_delete_ne.
  - destruct (m !! k0) as [old|]; simplify_eq/=.
    destruct (PlistBuddy.set_value old v); simplify_eq/=. by rewrite lookup_insert_ne.
  - destruct (m !! k0); simplify_eq/=. by rewrite lookup_insert_ne.
  - destruct (m !! k0) as [[]|]; simplify_eq/=. by rewrite lookup_insert_ne.
Qed.

Lemma steps_same_entry_plist_buddy (p : Path) (k : string) (cmd : PBCmd) (q : Path)
    (check : bool) :
  q ≠ p ∨ cmd_key cmd ≠ k → steps (same_entry p k) (plist_buddy cmd q check).
Proof.
  intros Hor st. unfold plist_buddy, same_entry.
  destruct (fs st !! q) as [[s|m|m]|] eqn:Hq; try (by destruct check).
  destruct (PlistBuddy.run cmd m) as [[out m']|] eqn:Hrun; [| by destruct check].
  simpl. destruct (decide (q = p)) as [->|Hne].
  - rewrite lookup_insert_eq, Hq. simpl. destruct Hor as [? | Hk]; [done |].
    by eapply run_keeps_other_keys.
  - by rewrite lookup_insert_ne.
Qed.

Lemma steps_same_entry_print (p : Path) (k line : string) :
  steps (same_entry p k) (print line).
Proof. by intros st. Qed.

Ltac entry_walk :=
  repeat first
    [ frame_step
    | apply steps_same_entry_print
    | apply steps_same_entry_plist_buddy; first [ by left | by right ] ].


Lemma same_entry_set_debugging p k opts ent :
  ent ≠ p ∨ k ≠ "get-task-allow" → steps (same_entry p k) (set_debugging opts ent).
Proof.
  intros H. unfold set_debugging.
  assert (ent ≠ p ∨ "get-task-allow" ≠ k) by (destruct H; [by left | by right]).
  repeat first
    [ frame_step | apply steps_same_entry_print | by apply steps_same_entry_plist_buddy ].
Qed.

Lemma same_entry_force_all_devices p k opts info :
  info ≠ p ∨ k ∉ ["UISupportedDevices"; "UIDeviceFamily"] →
  steps (same_entry p k) (force_all_devices opts info).
Proof.
  intros H. unfold force_all_devices.
  repeat first
    [ frame_step | apply steps_same_entry_print
    | apply steps_same_entry_plist_buddy; destruct H as [? | H]; [by left | right];
      simpl; intros <-; apply H; set_solver ].
Qed.

Lemma same_entry_force_file_sharing p k opts info :
  info ≠ p ∨ k ∉ ["UIFileSharingEnabled"; "UISupportsDocumentBrowser"] →
  steps (same_entry p k) (force_file_sharing opts info).
Proof.
  intros H. unfold force_file_sharing.
  repeat first
    [ frame_step | apply steps_same_entry_print
    | apply steps_same_entry_plist_buddy; destruct H as [? | H]; [by left | right];
      simpl; intros <-; apply H; set_solver ].
Qed.

(** ** C6: the bundle identifier that is written *)

#[local] Instance keeps_bundle_identifier_string_preorder (info : Path) :
  PreOrder (keeps_bundle_identifier_string info).
Proof.
  split; [by intros st H |]. intros a b c Hab Hbc H. by apply Hbc, Hab.
Qed.

Lemma bundle_identifier_is_string_same_fs (info : Path) (st st' : St) :
  fs st' !! info = fs st !! info →
  keeps_bundle_identifier_string info st st'.
Proof. intros H. unfold keeps_bundle_identifier_string, bundle_identifier_is_string. by rewrite H. Qed.

Lemma not_temporary_joinpath (component : Path) (name : string) :
  ¬ temporary component → name ≠ "tmp" → ¬ temporary (joinpath component name).
Proof.
  unfold temporary, joinpath. intros Hc Hn [k Hk].
  destruct component as [|c cs]; simpl in *.
  - injection Hk as -> _. done.
  - injection Hk as -> _. apply Hc. by eexists.
Qed.

Lemma profile_name_ne_info (n : nat) : tmp_name n +:+ ".mobileprovision" ≠ "Info.plist".
Proof. unfold tmp_name. rewrite string_app_assoc. discriminate. Qed.

(** Deriving the entitlements never makes the bundle identifier of the
    manifest anything but a string. *)
Lemma sign_primary_entitlements_keeps_string env opts m om dist component old bid ent
    (info := joinpath component "Info.plist") :
  ¬ temporary component →
  ent ≠ info →
  steps (keeps_bundle_identifier_string info)
    (sign_primary_entitlements env opts m om dist component old bid info
       (joinpath component (path_stem component))
       (joinpath component "embedded.mobileprovision") ent).
Proof.
  intros Htmp Hent.
  assert (¬ temporary info) as Hinfo by (by apply not_temporary_joinpath).
  apply (steps_sign_primary_entitlements (keeps_bundle_identifier_string info)
           (λ p, p ≠ info) (λ _, True) (λ _, True)); try done;
    try (intros; by apply bundle_identifier_is_string_same_fs).
  - intros p Hp ->. done.
  - intros n. apply joinpath_ne_name, profile_name_ne_info.
  - intros p c st Hp. apply bundle_identifier_is_string_same_fs. simpl.
    by rewrite lookup_insert_ne.
  - intros p st _ [Hgone | (mm & s & Hm & Hs)]; simpl.
    + left. simpl. rewrite lookup_delete. case_decide; done.
    + destruct (decide (p = info)) as [->|Hne].
      * left. simpl. by rewrite lookup_delete_eq.
      * right. exists mm, s. simpl. by rewrite lookup_delete_ne.
  - intros d st _ [Hgone | (mm & s & Hm & Hs)]; simpl.
    + left. simpl. unfold outside. apply map_lookup_filter_None. by left.
    + destruct (decide (d `prefix_of` info)) as [Hpre|Hpre].
      * left. simpl. unfold outside. apply map_lookup_filter_None. right.
        intros x _ Hx. by apply Hx.
      * right. exists mm, s. split; [| done]. simpl. unfold outside.
        by apply map_lookup_filter_Some.
  - intros extra st Hextra. apply bundle_identifier_is_string_same_fs. simpl.
    apply lookup_union_r. destruct (extra !! info) eqn:E; [| done].
    by destruct (Hextra info).
  - intros f o n c st _ Hf [Hgone | (mm & s & Hm & Hs)]; simpl.
    + destruct (decide (f = info)) as [->|Hne]; [congruence |].
      left. simpl. by rewrite lookup_insert_ne.
    + right. destruct (decide (f = info)) as [->|Hne].
      * rewrite Hm in Hf. injection Hf as <-. simpl.
        eexists _, _. rewrite lookup_insert_eq. split; [done |].
        rewrite lookup_fmap, Hs. done.
      * exists mm, s. simpl. by rewrite lookup_insert_ne.
  - intros env' opts' a st. apply bundle_identifier_is_string_same_fs.
    unfold remap, gets. rewrite bind_unfold.
    destruct (mappings st !! a); [done |]. by destruct (encode_ids opts').
  - apply joinpath_ne_name. discriminate.
Qed.

Lemma set_bundle_identifier_written (opts : SignOpts) (old bid : string) (info : Path)
    (st st' : St) :
  bundle_identifier_is_string info st →
  set_bundle_identifier opts old bid info st = (Ok tt, st') →
  plist_entry "CFBundleIdentifier" (fs st' !! info)
  = Some (PString (if force_original_id opts then old else bid)).
Proof.
  intros HQ Hrun. unfold set_bundle_identifier in Hrun.
  assert (∃ x out st1 st2, x = (if force_original_id opts then old else bid)
            ∧ plist_buddy (PB_Set "CFBundleIdentifier" x) info true st1 = (Ok out, st2)
            ∧ fs st1 = fs st ∧ fs st' = fs st2) as (x & out & st1 & st2 & -> & Hset & E1 & E2).
  { destruct (force_original_id opts);
      rewrite (bind_run _ _ _ _ _ (print_run _ _)) in Hrun;
      apply bind_Ok_inv in Hrun as (out & st2 & Hset & Hret);
      injection Hret as <-; by eexists _, out, _, st2. }
  rewrite E2. unfold plist_buddy in Hset. rewrite E1 in Hset.
  destruct HQ as [Hgone | (mm & s & Hm & Hs)]; [by rewrite Hgone in Hset |].
  rewrite Hm in Hset. simpl in Hset. rewrite Hs in Hset. simpl in Hset.
  injection Hset as _ <-. simpl. rewrite lookup_insert_eq. simpl.
  by rewrite lookup_insert_eq.
Qed.

Lemma sign_primary_finish_info env opts component old bid info ent st pipe st' :
  ent ≠ info →
  bundle_identifier_is_string info st →
  sign_primary_finish env opts component old bid info ent st = (Ok pipe, st') →
  plist_entry "CFBundleIdentifier" (fs st' !! info)
  = Some (PString (if force_original_id opts then old else bid)).
Proof.
  intros Hne HQ Hrun. unfold sign_primary_finish in Hrun.
  apply bind_Ok_inv in Hrun as ([] & st1 & H1 & Hrun).
  apply bind_Ok_inv in Hrun as ([] & st2 & H2 & Hrun).
  apply bind_Ok_inv in Hrun as ([] & st3 & H3 & Hrun).
  apply bind_Ok_inv in Hrun as ([] & st4 & H4 & Hrun).
  apply bind_Ok_inv in Hrun as (shown & st5 & H5 & Hrun).
  apply read_file_inv in H5 as ->.
  rewrite (bind_run _ _ _ _ _ (print_run _ _)) in Hrun.
  unfold codesign_async in Hrun. injection Hrun as _ <-. simpl.
  pose proof (set_bundle_identifier_written _ _ _ _ _ _ HQ H1) as W.
  pose proof (steps_run _ _ _ _ _
    (same_entry_set_debugging info "CFBundleIdentifier" opts ent (or_introl Hne)) H2) as E2.
  assert ("CFBundleIdentifier" ∉ ["UISupportedDevices"; "UIDeviceFamily"]) as N3
    by (repeat (apply not_elem_of_cons; split; [done |]); apply not_elem_of_nil).
  assert ("CFBundleIdentifier" ∉ ["UIFileSharingEnabled"; "UISupportsDocumentBrowser"]) as N4
    by (repeat (apply not_elem_of_cons; split; [done |]); apply not_elem_of_nil).
  pose proof (steps_run _ _ _ _ _
    (same_entry_force_all_devices info "CFBundleIdentifier" opts info (or_intror N3)) H3)
    as E3.
  pose proof (steps_run _ _ _ _ _
    (same_entry_force_file_sharing info "CFBundleIdentifier" opts info (or_intror N4)) H4)
    as E4.
  unfold same_entry in *. congruence.
Qed.

Lemma sign_primary_writes_bundle_identifier env opts m om dist component workdir st pipe st'
    (m0 : Plist) (old : string) (info := joinpath component "Info.plist") :
  ¬ temporary component →
  fs st !! info = Some (FPlist m0) →
  m0 !! "CFBundleIdentifier" = Some (PString old) →
  sign_primary env opts m om dist component workdir st = (Ok pipe, st') →
  plist_entry "CFBundleIdentifier" (fs st' !! info)
  = Some (PString (if force_original_id opts then old
                   else component_bundle_id m om old)).
Proof.
  intros Htmp Hinfo Hold Hrun.
  apply sign_primary_inv in Hrun as (old' & st_b & st_c & Hprint & Hmid & Hfin).
  pose proof (entitlements_plist_ne_info workdir component (tmp_count st)) as Hne.
  erewrite plist_buddy_print_run in Hprint; [| | exact Hold]; cycle 1.
  { simpl. rewrite lookup_insert_ne by done. exact Hinfo. }
  rewrite render_string, join_singleton in Hprint. injection Hprint as <- <-.
  eapply sign_primary_finish_info; [exact Hne | | exact Hfin].
  eapply (steps_run _ _ _ _ _
    (sign_primary_entitlements_keeps_string _ _ _ _ _ _ _ _ _ Htmp Hne) Hmid).
  right. exists m0, old. split; [| done]. simpl. by rewrite lookup_insert_ne.
Qed.

Lemma same_file_outside (q d : Path) (st : St) :
  ¬ d `prefix_of` q → same_file q st (set_fs (outside d) st).
Proof.
  intros H. unfold same_file, outside. simpl.
  destruct (fs st !! q) as [c|] eqn:E.
  - by apply map_lookup_filter_Some.
  - apply map_lookup_filter_None. by left.
Qed.

Lemma single_ne_joinpath (name a : string) (c : Path) :
  a ≠ name → joinpath c a ≠ [name].
Proof.
  intros Ha H. unfold joinpath in H. destruct c as [|x [|y c]]; simpl in H.
  - by injection H.
  - discriminate.
  - discriminate.
Qed.

(** The scheduler leaves the artifact [bundle_id.txt] alone. *)
Lemma run_scheduler_same_bundle_id_txt env opts m om dist cs :
  steps (same_file ["bundle_id.txt"]) (run_scheduler env opts m om dist cs).
Proof.
  set (q := ["bundle_id.txt"]).
  assert (∀ p, temporary p → p ≠ q) as Htmp.
  { intros p [k ->] H. discriminate. }
  apply (steps_run_scheduler (same_file q) (λ p, p ≠ q) (λ p, p ≠ q) (λ p, p ≠ q));
    try done.
  - intros p Hp H. subst p. destruct Hp as [k Hk]. discriminate.
  - intros p c st Hp. by apply same_file_insert.
  - intros p st Hp. unfold same_file. simpl. by rewrite lookup_delete_ne.
  - intros d st Hd. apply same_file_outside. intros Hpre. by apply (Hd q).
  - intros extra st Hextra. unfold same_file. simpl. apply lookup_union_r.
    destruct (extra !! q) eqn:E; [| done]. by destruct (Hextra q).
  - intros f o nw c st Hf _. by apply same_file_insert.
  - intros env' opts' a st. unfold same_file, remap, gets. rewrite bind_unfold.
    destruct (mappings st !! a); [done |]. by destruct (encode_ids opts').
  - intros c _. split; [by apply single_ne_joinpath |].
    split; [| split; [by apply single_ne_joinpath |]].
    + destruct c as [|x [|y c]]; [by vm_compute | discriminate..].
    + intros p [k ->] H. unfold joinpath in H.
      destruct c as [|x c]; simpl in H; [by injection H |].
      destruct c; discriminate.
Qed.

Lemma sign_records_bundle_id (env : Env) (opts : SignOpts) (st st' : St) :
  sign env opts st = (Ok tt, st') →
  ∃ main_app old_main main_bid st1 st2,
    head (glob env (app_dir opts) "Payload/*.app") = Some main_app
    ∧ plist_buddy (PB_Print "CFBundleIdentifier") (joinpath main_app "Info.plist") true st
      = (Ok old_main, st1)
    ∧ sign_main_bundle_id env opts old_main st1 = (Ok main_bid, st2)
    ∧ fs st' !! ["bundle_id.txt"]
      = Some (FText (if force_original_id opts then old_main else main_bid)).
Proof.
  intros Hrun. unfold sign in Hrun.
  apply bind_Ok_inv in Hrun as (main_app & st0 & Hglob & Hrun).
  assert (head (glob env (app_dir opts) "Payload/*.app") = Some main_app ∧ st0 = st)
    as [Hhead ->].
  { destruct (glob env (app_dir opts) "Payload/*.app"); [discriminate |].
    by injection Hglob as -> ->. }
  apply bind_Ok_inv in Hrun as (old_main & st1 & Hprint & Hrun).
  apply bind_Ok_inv in Hrun as (main_bid & st2 & Hmain & Hrun).
  apply bind_Ok_inv in Hrun as ([] & st3 & Hname & Hrun).
  rewrite (bind_run _ _ _ _ _ (write_file_run _ _ _)) in Hrun.
  apply bind_Ok_inv in Hrun as ([] & st5 & Hmap & Hrun).
  injection Hmap as <-.
  exists main_app, old_main, main_bid, st1, st2. repeat split; try done.
  pose proof (steps_run _ _ _ _ _ (run_scheduler_same_bundle_id_txt _ _ _ _ _ _) Hrun) as F.
  unfold same_file in F. rewrite F. simpl. apply lookup_insert_eq.
Qed.

(** C6. What is written as the bundle identifier.  For a component
    outside the temporary area whose manifest holds a bundle identifier
    before signing: once the component has been signed, the manifest holds
    that pre-signing identifier if force-original-id is set, whatever
    replacement was computed, and the computed identifier otherwise.  And
    at the end of a session that succeeded, [bundle_id.txt] records the
    original main bundle identifier if the flag is set and the computed
    main bundle identifier otherwise. *)
Theorem bundle_identifier_written (env : Env) (opts : SignOpts) :
  (∀ main_bundle_id old_main_bundle_id dist component workdir st pipe st' m0 old,
     ¬ temporary component →
     fs st !! joinpath component "Info.plist" = Some (FPlist m0) →
     m0 !! "CFBundleIdentifier" = Some (PString old) →
     sign_primary env opts main_bundle_id old_main_bundle_id dist component workdir st
     = (Ok pipe, st') →
     plist_entry "CFBundleIdentifier" (fs st' !! joinpath component "Info.plist")
     = Some (PString (if force_original_id opts then old
                      else component_bundle_id main_bundle_id old_main_bundle_id old)))
  ∧ (∀ st st',
       sign env opts st = (Ok tt, st') →
       ∃ main_app old_main main_bid st1 st2,
         head (glob env (app_dir opts) "Payload/*.app") = Some main_app
         ∧ plist_buddy (PB_Print "CFBundleIdentifier") (joinpath main_app "Info.plist")
             true st = (Ok old_main, st1)
         ∧ sign_main_bundle_id env opts old_main st1 = (Ok main_bid, st2)
         ∧ fs st' !! ["bundle_id.txt"]
           = Some (FText (if force_original_id opts then old_main else main_bid))).
Proof.
  split.
  - intros. by eapply sign_primary_writes_bundle_identifier.
  - intros. by apply sign_records_bundle_id.
Qed.

(** ** C5: a profile whose application identifier does not match *)

Lemma plist_buddy_run_ok (cmd : PBCmd) (p : Path) (check : bool) (m m' : Plist)
    (out : string) (st : St) :
  fs st !! p = Some (FPlist m) →
  PlistBuddy.run cmd m = Some (out, m') →
  plist_buddy cmd p check st = (Ok out, set_fs (insert p (FPlist m')) st).
Proof. intros Hp Hrun. unfold plist_buddy. by rewrite Hp, Hrun. Qed.







(** ** C7: the identifier patches *)




















Lemma patch_fs_other (targets : list Path) (patches : list (string * string))
    (fsys : gmap Path File) (q : Path) :
  q ∉ targets → patch_fs targets patches fsys !! q = fsys !! q.
Proof.
  unfold patch_fs. revert fsys. induction targets as [|t targets IH]; intros fsys Hq; [done |].
  apply not_elem_of_cons in Hq as [Hne Hq]. simpl. rewrite IH by done.
  destruct (fsys !! t); [by rewrite lookup_insert_ne | done].
Qed.


(** ** The scheduler: what is settled before a dispatch *)

Lemma marks_add_event (ev : Event) (st : St) :
  marks (add_event ev st) = marks st ++ [mark_of ev].
Proof. unfold marks. simpl. by rewrite map_app. Qed.

Lemma marks_same_trace (st st' : St) : same_trace st st' → marks st' = marks st.
Proof. unfold same_trace, marks. by intros ->. Qed.

Lemma dict_get_elem {V} (k : Path) (v : V) (d : list (Path * V)) :
  dict_get k d = Some v → (k, v) ∈ d.
Proof.
  induction d as [|[k' v'] d IH]; simpl; [done |].
  destruct (decide (k' = k)) as [-> | Hne].
  - intros [= ->]. apply list_elem_of_here.
  - intros H. apply list_elem_of_further. by apply IH.
Qed.

Lemma dict_pop_elem {V} (k p : Path) (v : V) (d : list (Path * V)) :
  (p, v) ∈ dict_pop k d → (p, v) ∈ d.
Proof.
  induction d as [|[k' v'] d IH]; simpl; [done |].
  destruct (decide (k' = k)) as [-> | Hne].
  - apply list_elem_of_further.
  - intros [[= -> ->] | H]%elem_of_cons; [apply list_elem_of_here |].
    apply list_elem_of_further. by apply IH.
Qed.

Lemma dict_pop_key {V} (k p : Path) (d : list (Path * V)) :
  p ∈ map fst (dict_pop k d) → p ∈ map fst d.
Proof.
  intros ([p' v] & -> & H)%list_elem_of_fmap. apply dict_pop_elem in H.
  apply list_elem_of_fmap. by exists (p', v).
Qed.

Lemma dict_pop_other {V} (k p : Path) (d : list (Path * V)) :
  p ≠ k → p ∈ map fst d → p ∈ map fst (dict_pop k d).
Proof.
  intros Hne. induction d as [|[k' v'] d IH]; simpl; [done |].
  destruct (decide (k' = k)) as [-> | Hk].
  - intros [-> | H]%elem_of_cons; done.
  - simpl. intros [-> | H]%elem_of_cons; [apply list_elem_of_here |].
    apply list_elem_of_further. by apply IH.
Qed.

Lemma dict_pop_gone {V} (k : Path) (d : list (Path * V)) :
  NoDup (map fst d) → k ∉ map fst (dict_pop k d).
Proof.
  induction d as [|[k' v'] d IH]; simpl; [intros _; apply not_elem_of_nil |].
  intros [Hk' Hd]%NoDup_cons. destruct (decide (k' = k)) as [-> | Hk]; [done |].
  simpl. apply not_elem_of_cons. split; [done | by apply IH].
Qed.

Lemma dict_pop_NoDup {V} (k : Path) (d : list (Path * V)) :
  NoDup (map fst d) → NoDup (map fst (dict_pop k d)).
Proof.
  induction d as [|[k' v'] d IH]; simpl; [done |].
  intros [Hk' Hd]%NoDup_cons. destruct (decide (k' = k)) as [-> | Hk]; [done |].
  simpl. apply NoDup_cons. split; [| by apply IH].
  intros H. apply Hk'. by apply dict_pop_key in H.
Qed.

Lemma dict_pop_get {V} (k p : Path) (d : list (Path * V)) :
  p ≠ k → dict_get p (dict_pop k d) = dict_get p d.
Proof.
  intros Hne. induction d as [|[k' v'] d IH]; simpl; [done |].
  destruct (decide (k' = k)) as [-> | Hk].
  - by destruct (decide (k = p)) as [-> | _].
  - simpl. by rewrite IH.
Qed.

Lemma dict_set_elem {V} (k p : Path) (v w : V) (d : list (Path * V)) :
  (p, w) ∈ dict_set k v d → (p = k ∧ w = v) ∨ (p, w) ∈ d.
Proof.
  induction d as [|[k' v'] d IH]; simpl.
  - intros [[= -> ->] | H]%elem_of_cons; [by left | by apply elem_of_nil in H].
  - destruct (decide (k' = k)) as [-> | Hk].
    + intros [[= -> ->] | H]%elem_of_cons; [by left |].
      right. by apply list_elem_of_further.
    + intros [[= -> ->] | H]%elem_of_cons; [right; apply list_elem_of_here |].
      destruct (IH H) as [? | ?]; [by left |]. right. by apply list_elem_of_further.
Qed.

Lemma dict_set_keys {V} (k p : Path) (v : V) (d : list (Path * V)) :
  p ∈ map fst (dict_set k v d) ↔ p = k ∨ p ∈ map fst d.
Proof.
  induction d as [|[k' v'] d IH]; simpl.
  - rewrite elem_of_cons. split; intros [? | ?]; auto.
  - destruct (decide (k' = k)) as [-> | Hk]; simpl.
    + rewrite elem_of_cons. split; [auto |]. intros [-> | H]; [by left | done].
    + rewrite !elem_of_cons, IH. split; [intros [? | [? | ?]] | intros [? | [? | ?]]]; auto.
Qed.

Lemma dict_set_NoDup {V} (k : Path) (v : V) (d : list (Path * V)) :
  NoDup (map fst d) → NoDup (map fst (dict_set k v d)).
Proof.
  induction d as [|[k' v'] d IH]; simpl.
  - intros _. apply NoDup_singleton.
  - intros [Hk' Hd]%NoDup_cons. destruct (decide (k' = k)) as [-> | Hk]; simpl.
    + by apply NoDup_cons.
    + apply NoDup_cons. split; [| by apply IH].
      rewrite dict_set_keys. intros [-> | H]; done.
Qed.

(** Waits and checks leave what was settled as it is. *)
Lemma settled_app (tr evs : list Mark) :
  (∀ m, m ∈ evs → ∀ c, m ≠ Dispatched c) →
  settled_before_dispatch tr → settled_before_dispatch (tr ++ evs).
Proof.
  intros Hevs Htr i k inner outer Hik Hi Hk Hrel.
  assert (k < length tr)%nat as Hlen.
  { destruct (decide (k < length tr)%nat) as [? | Hge]; [done |].
    rewrite lookup_app_r in Hk by lia.
    apply list_elem_of_lookup_2 in Hk. by destruct (Hevs _ Hk outer). }
  rewrite lookup_app_l in Hi, Hk by lia.
  destruct (Htr i k inner outer Hik Hi Hk Hrel) as (j & Hj & Hc).
  exists j. split; [done |]. rewrite lookup_app_l by lia. done.
Qed.

Lemma settles_not_dispatched (component : Path) (evs : list Mark) :
  Forall (settles component) evs → ∀ m, m ∈ evs → ∀ c, m ≠ Dispatched c.
Proof.
  intros Hall m Hm c ->. apply (proj1 (Forall_forall _ _) Hall) in Hm.
  destruct Hm as (p & _ & [? | [rc ?]]); discriminate.
Qed.

(** Lines 499 to 509.  The jobs whose paths lie in the component are
    waited for when they still run, checked, and dropped from the table;
    nothing else is waited for or checked, and the other jobs stay in the
    table as they were. *)
Lemma settle_contained_spec (env : Env) (component : Path) (keys : list Path)
    (jobs : list (Path * Popen)) (st st' : St) (r : Result (list (Path * Popen)))
    (tr : list Mark) :
  settle_contained env component keys jobs st = (r, st') →
  jobs_wf jobs → jobs_pending tr jobs →
  (∀ p, p ∈ map fst jobs → relative_to p component = true → p ∈ keys) →
  ∃ evs,
    marks st' = marks st ++ evs
    ∧ Forall (settles component) evs
    ∧ match r with
      | Ok jobs' =>
          jobs_wf jobs' ∧ jobs_pending (tr ++ evs) jobs'
          ∧ (∀ p, p ∈ map fst jobs' → relative_to p component = false)
          ∧ (∀ p, relative_to p component = false → dict_get p jobs' = dict_get p jobs)
      | _ => True
      end.
Proof.
  revert jobs st tr. induction keys as [|path keys IH]; intros jobs st tr Hrun Hwf Hpend Hkeys.
  - injection Hrun as <- <-. exists []. rewrite !app_nil_r.
    split; [done |]. split; [done |]. split; [done |]. split; [done |]. split; [| done].
    intros p Hp. destruct (relative_to p component) eqn:E; [| done].
    by destruct (not_elem_of_nil p (Hkeys p Hp E)).
  - cbn [settle_contained] in Hrun.
    destruct (dict_get path jobs) as [pipe|] eqn:Hget.
    2:{ injection Hrun as <- <-. exists []. by rewrite app_nil_r. }
    pose proof (dict_get_elem _ _ _ Hget) as Hin.
    destruct Hwf as [Hnd Hcomp]. pose proof (Hcomp _ _ Hin) as Hpc.
    destruct (relative_to path component) eqn:Hrel.
    2:{ apply (IH _ _ tr) in Hrun; [done | done | done |].
        intros p Hp E. pose proof (Hkeys p Hp E) as Hk0.
        apply elem_of_cons in Hk0 as [-> | ?]; [| done].
        congruence. }
    rewrite bind_unfold in Hrun. unfold popen_running at 1, gets at 1 in Hrun.
    set (running := poll_running env (popen_component pipe) (length (trace st))) in Hrun.
    assert (∃ w st1,
              (if running
               then _ ← print ("Waiting for sub-component to finish signing: "
                                +:+ path_str path); popen_wait pipe
               else mret tt) st = (Ok tt, st1)
              ∧ marks st1 = marks st ++ w
              ∧ Forall (settles component) w) as (w & st1 & Hwait & Hm1 & Hw).
    { destruct running.
      - exists [Waited path]. eexists. split; [reflexivity |]. split.
        + unfold marks. simpl. rewrite map_app. simpl. by rewrite Hpc.
        + apply Forall_singleton. exists path. split; [done | by left].
      - exists []. exists st. split; [done |]. by rewrite app_nil_r. }
    rewrite (bind_run _ _ _ _ _ Hwait) in Hrun.
    rewrite bind_unfold in Hrun. unfold popen_check at 1 in Hrun.
    rewrite bind_unfold in Hrun. unfold modify at 1 in Hrun.
    set (st2 := add_event (EvCheck (popen_component pipe) (popen_returncode pipe)) st1)
      in Hrun.
    set (settled := w ++ [Checked path (popen_returncode pipe)]).
    assert (marks st2 = marks st ++ settled) as Hm2.
    { unfold st2, settled. rewrite marks_add_event, Hm1, <- app_assoc. simpl. by rewrite Hpc. }
    assert (Forall (settles component) settled) as Hsettled.
    { apply Forall_app. split; [done |]. apply Forall_singleton.
      exists path. split; [done |]. right. by eexists. }
    case_bool_decide as Hrc.
    { injection Hrun as <- <-. eexists. split; [exact Hm2 |]. done. }
    assert (popen_returncode pipe = 0) as Hzero.
    { destruct (decide (popen_returncode pipe = 0)); [done | by destruct Hrc]. }
    simpl in Hrun.
    apply (IH _ _ (tr ++ settled)) in Hrun as (evs & Hm' & Hevs & Hr).
    + exists (settled ++ evs).
      split; [by rewrite Hm', Hm2, <- !app_assoc |].
      split; [by apply Forall_app |].
      destruct r as [jobs'| |]; [| done..].
      destruct Hr as (Hwf' & Hpend' & Hnone & Hsame).
      split; [done |]. split; [by rewrite app_assoc |]. split; [done |].
      intros p Hp. rewrite Hsame by done. apply dict_pop_get. congruence.
    + split; [by apply dict_pop_NoDup |].
      intros p pipe' Hp. apply Hcomp. by apply dict_pop_elem in Hp.
    + intros i c Hi.
      destruct (decide (i < length tr)%nat) as [Hlt | Hge].
      * rewrite lookup_app_l in Hi by done.
        destruct (Hpend i c Hi) as [Hc | (j & Hj & Hcheck)].
        -- destruct (decide (c = path)) as [-> | Hne].
           ++ right. exists (length tr + length w)%nat. split; [lia |].
              unfold settled. rewrite lookup_app_r by lia. rewrite lookup_app_r by lia.
              replace (length tr + length w - length tr - length w)%nat
                with 0%nat by lia.
              simpl. by rewrite Hzero.
           ++ left. by apply dict_pop_other.
        -- right. exists j. split; [done |].
           apply lookup_lt_Some in Hcheck as Hjlt. by rewrite lookup_app_l.
      * rewrite lookup_app_r in Hi by lia.
        apply list_elem_of_lookup_2 in Hi.
        by destruct (settles_not_dispatched _ _ Hsettled _ Hi c).
    + intros p Hp E. pose proof (dict_pop_key _ _ _ Hp) as Hp'.
      pose proof (Hkeys p Hp' E) as Hk0. apply elem_of_cons in Hk0 as [-> | ?]; [| done].
      by destruct (dict_pop_gone path jobs Hnd).
Qed.

(** ** The scheduler: a dispatch *)

Lemma dispatches_codesign_async env identity component entitlements :
  dispatches component (codesign_async env identity component entitlements).
Proof. intros st. unfold codesign_async. simpl. split; [done |]. apply marks_add_event. Qed.

Lemma dispatches_bind {A} (component : Path) (m : M A) (f : A → M Popen) :
  steps same_trace m → (∀ a, dispatches component (f a)) → dispatches component (m ≫= f).
Proof.
  intros Hm Hf st. rewrite bind_unfold. specialize (Hm st). apply marks_same_trace in Hm.
  destruct (m st) as [[a|e|] st1]; simpl in *; [| done..].
  specialize (Hf a st1). destruct (f a st1) as [[pipe|e|] st2]; simpl in *;
    by rewrite <- Hm.
Qed.

Lemma print_same_trace (line : string) : steps same_trace (print line).
Proof. done. Qed.

Lemma dispatches_sign_secondary env opts component workdir :
  dispatches component (sign_secondary env opts component workdir).
Proof.
  unfold sign_secondary. apply dispatches_bind; [apply print_same_trace | intros _].
  apply dispatches_codesign_async.
Qed.

Lemma dispatches_sign_primary env opts m om dist component workdir :
  dispatches component (sign_primary env opts m om dist component workdir).
Proof.
  unfold sign_primary.
  apply dispatches_bind; [done | intros ent].
  apply dispatches_bind; [apply (steps_plist_buddy_print same_trace) | intros old].
  apply dispatches_bind; [apply sign_primary_entitlements_same_trace | intros _].
  unfold sign_primary_finish.
  apply dispatches_bind;
    [by apply (steps_set_bundle_identifier same_trace (λ _, True)) | intros _].
  apply dispatches_bind; [by apply (steps_set_debugging same_trace (λ _, True)) | intros _].
  apply dispatches_bind;
    [by apply (steps_force_all_devices same_trace (λ _, True)) | intros _].
  apply dispatches_bind;
    [by apply (steps_force_file_sharing same_trace (λ _, True)) | intros _].
  apply dispatches_bind; [apply (steps_read_file same_trace) | intros shown].
  apply dispatches_bind; [apply print_same_trace | intros _].
  apply dispatches_codesign_async.
Qed.

Lemma pending_dispatch (tr : list Mark) (jobs : list (Path * Popen)) (c : Path)
    (pipe : Popen) :
  jobs_pending tr jobs → jobs_pending (tr ++ [Dispatched c]) (dict_set c pipe jobs).
Proof.
  intros Hpend i c0 Hi.
  destruct (decide (i < length tr)%nat) as [Hlt | Hge].
  - rewrite lookup_app_l in Hi by done.
    destruct (Hpend i c0 Hi) as [Hc | (j & Hj & Hcheck)].
    + left. apply dict_set_keys. by right.
    + right. exists j. split; [done |].
      apply lookup_lt_Some in Hcheck as Hjlt. by rewrite lookup_app_l.
  - rewrite lookup_app_r in Hi by lia.
    destruct (i - length tr)%nat; [| done]. injection Hi as <-.
    left. apply dict_set_keys. by left.
Qed.

Lemma settled_dispatch (tr : list Mark) (jobs : list (Path * Popen)) (c : Path) :
  settled_before_dispatch tr → jobs_pending tr jobs →
  (∀ p, p ∈ map fst jobs → relative_to p c = false) →
  settled_before_dispatch (tr ++ [Dispatched c]).
Proof.
  intros Hset Hpend Hnone i k inner outer Hik Hi Hk Hrel.
  assert (k < length (tr ++ [Dispatched c]))%nat as Hklt by by eapply lookup_lt_Some.
  rewrite length_app in Hklt. simpl in Hklt.
  rewrite lookup_app_l in Hi by lia.
  destruct (decide (k < length tr)%nat) as [Hlt | Hge].
  - rewrite lookup_app_l in Hk by done.
    destruct (Hset i k inner outer Hik Hi Hk Hrel) as (j & Hj & Hc).
    exists j. split; [done |]. rewrite lookup_app_l by lia. done.
  - assert (k = length tr) as -> by lia.
    rewrite lookup_app_r in Hk by lia. rewrite Nat.sub_diag in Hk. injection Hk as <-.
    destruct (Hpend i inner Hi) as [Hc | (j & Hj & Hcheck)].
    + specialize (Hnone inner Hc). congruence.
    + apply lookup_lt_Some in Hcheck as Hjlt.
      exists j. split; [lia |]. by rewrite lookup_app_l.
Qed.

Lemma leftover_same_trace (sc_info : Path) (leftover : bool) :
  steps same_trace
    (if leftover then _ ← print "Removing leftover AppStore data"; rmtree sc_info
     else mret tt).
Proof. by destruct leftover. Qed.

(** Lines 496 to 521.  Along the loop, whatever the order of the
    components: a job whose path lies in the component at hand has been
    checked, and had succeeded, before the component is dispatched. *)
Lemma sign_components_settles env opts m om dist tmpdir (components : list Path)
    (jobs : list (Path * Popen)) (st st' : St) (r : Result (list (Path * Popen)))
    (tr : list Mark) :
  sign_components env opts m om dist tmpdir components jobs st = (r, st') →
  jobs_wf jobs → jobs_pending tr jobs → settled_before_dispatch tr →
  ∃ evs,
    marks st' = marks st ++ evs
    ∧ settled_before_dispatch (tr ++ evs)
    ∧ match r with
      | Ok jobs' => jobs_wf jobs' ∧ jobs_pending (tr ++ evs) jobs'
      | _ => True
      end.
Proof.
  revert jobs st tr.
  induction components as [|component rest IH]; intros jobs st tr Hrun Hwf Hpend Hset.
  - injection Hrun as <- <-. exists []. by rewrite !app_nil_r.
  - cbn [sign_components] in Hrun.
    rewrite (bind_run _ _ _ _ _ (print_run _ _)) in Hrun.
    set (st0 := add_log _ st) in Hrun.
    rewrite bind_unfold in Hrun.
    destruct (settle_contained env component (map fst jobs) jobs st0) as [r1 st1] eqn:Hsettle.
    apply (settle_contained_spec _ _ _ _ _ _ _ tr) in Hsettle
      as (evs1 & Hm1 & Hevs1 & Hr1); [| done | done | done].
    change (marks st0) with (marks st) in Hm1.
    pose proof (settled_app tr evs1 (settles_not_dispatched _ _ Hevs1) Hset) as Hset1.
    destruct r1 as [jobs1|e|]; [| injection Hrun as <- <-; by exists evs1..].
    destruct Hr1 as (Hwf1 & Hpend1 & Hnone & _).
    rewrite (bind_run _ _ _ _ _ (print_run _ _)) in Hrun.
    rewrite bind_unfold in Hrun. unfold dir_exists at 1, gets at 1 in Hrun.
    rewrite bind_unfold in Hrun.
    match type of Hrun with
    | context [(if ?b then _ ← print _; rmtree ?d else mret tt) ?s] =>
        pose proof (leftover_same_trace d b s) as Hleft;
        destruct ((if b then _ ← print "Removing leftover AppStore data"; rmtree d
                   else mret tt) s) as [rl st2] eqn:Hl
    end.
    apply marks_same_trace in Hleft. simpl in Hleft.
    change (marks (add_log "Processing" st1)) with (marks st1) in Hleft.
    destruct rl as [[]|e|]; [| injection Hrun as <- <-; exists evs1; by rewrite Hleft..].
    rewrite bind_unfold in Hrun.
    match type of Hrun with
    | context [(if ?b then ?p else ?s) st2] =>
        assert (dispatches component (if b then p else s)) as Hd
          by (destruct b; [apply dispatches_sign_primary | apply dispatches_sign_secondary]);
        specialize (Hd st2);
        destruct ((if b then p else s) st2) as [rp st3] eqn:Hp
    end.
    simpl in Hd.
    destruct rp as [pipe|e|];
      [| injection Hrun as <- <-; exists evs1; by rewrite Hd, Hleft..].
    destruct Hd as [Hpipe Hm3].
    apply (IH _ _ ((tr ++ evs1) ++ [Dispatched component])) in Hrun
      as (evs2 & Hm' & Hset' & Hr).
    + exists (evs1 ++ [Dispatched component] ++ evs2).
      rewrite <- !app_assoc in Hset', Hr.
      split; [| done]. rewrite Hm', Hm3, Hleft, Hm1, <- !app_assoc. done.
    + destruct Hwf1 as [Hnd Hcomp]. split; [by apply dict_set_NoDup |].
      intros p pipe' Hin. apply dict_set_elem in Hin as [[-> ->] | Hin]; [done |].
      by apply Hcomp.
    + by apply pending_dispatch.
    + by eapply settled_dispatch.
Qed.

Lemma settled_nil : settled_before_dispatch [].
Proof. intros i k inner outer _ Hi. done. Qed.

Lemma settled_after {A B} (m : M A) (f : A → M B) (st : St) :
  steps same_trace m →
  (∀ a st1, ∃ evs, marks (f a st1).2 = marks st1 ++ evs ∧ settled_before_dispatch evs) →
  ∃ evs, marks ((m ≫= f) st).2 = marks st ++ evs ∧ settled_before_dispatch evs.
Proof.
  intros Hm Hf. rewrite bind_unfold. specialize (Hm st). apply marks_same_trace in Hm.
  destruct (m st) as [[a|e|] st1]; simpl in *;
    [| exists []; rewrite app_nil_r; split; [done | apply settled_nil]..].
  destruct (Hf a st1) as (evs & Hevs & Hset). exists evs. by rewrite Hevs, Hm.
Qed.

Lemma try_finally_marks {A} (m : M A) (cleanup : M unit) (st : St) :
  steps same_trace cleanup → marks (try_finally m cleanup st).2 = marks (m st).2.
Proof.
  intros Hc. unfold try_finally. destruct (m st) as [[a|e|] st1]; simpl; [| | done].
  - rewrite bind_unfold. specialize (Hc st1). apply marks_same_trace in Hc.
    by destruct (cleanup st1) as [[[]|e|] st2].
  - rewrite bind_unfold. specialize (Hc st1). apply marks_same_trace in Hc.
    by destruct (cleanup st1) as [[[]|e'|] st2].
Qed.

(** Lines 523 to 526: the last loop waits and checks, and dispatches
    nothing. *)
Lemma remaining_jobs_marks (pipes : list Popen) (st : St) :
  ∃ evs,
    marks (for_each pipes (λ pipe, _ ← popen_wait pipe; popen_check pipe) st).2
    = marks st ++ evs
    ∧ ∀ m, m ∈ evs → ∀ c, m ≠ Dispatched c.
Proof.
  revert st. induction pipes as [|pipe pipes IH]; intros st.
  - exists []. rewrite app_nil_r. split; [done |]. intros m Hm. by apply elem_of_nil in Hm.
  - cbn [for_each]. rewrite bind_unfold.
    unfold popen_wait at 1, popen_check at 1, modify. rewrite !bind_unfold.
    set (st2 := add_event _ (add_event _ st)).
    assert (marks st2 = marks st ++ [Waited (popen_component pipe);
                                      Checked (popen_component pipe) (popen_returncode pipe)])
      as Hm2.
    { unfold st2. rewrite !marks_add_event, <- app_assoc. done. }
    assert (∀ m, m ∈ [Waited (popen_component pipe);
                      Checked (popen_component pipe) (popen_returncode pipe)] →
                 ∀ c, m ≠ Dispatched c) as Hnone.
    { intros m Hm c ->. apply elem_of_cons in Hm as [? | Hm]; [done |].
      apply elem_of_cons in Hm as [? | Hm]; [done |]. by apply elem_of_nil in Hm. }
    case_bool_decide.
    + eexists. split; [exact Hm2 | exact Hnone].
    + destruct (IH st2) as (evs & Hevs & Hnone').
      eexists. split; [simpl; rewrite Hevs, Hm2, <- app_assoc; reflexivity |].
      intros m [Hm | Hm]%elem_of_app; [by apply Hnone | by apply Hnone'].
Qed.

Lemma run_scheduler_settles env opts m om dist (components : list Path) (st : St) :
  ∃ evs,
    marks (run_scheduler env opts m om dist components st).2 = marks st ++ evs
    ∧ settled_before_dispatch evs.
Proof.
  unfold run_scheduler, with_tmpdir. apply settled_after; [done |]. intros tmpdir st1.
  rewrite try_finally_marks by done. rewrite bind_unfold.
  destruct (sign_components env opts m om dist tmpdir components [] st1) as [r st2] eqn:Hrun.
  apply (sign_components_settles _ _ _ _ _ _ _ _ _ _ _ []) in Hrun
    as (evs & Hevs & Hset & _).
  - destruct r as [jobs| |]; [| by exists evs..].
    rewrite (bind_run _ _ _ _ _ (print_run _ _)).
    destruct (remaining_jobs_marks (map snd jobs)
                (add_log "Waiting for any remaining components to finish signing" st2))
      as (evs2 & Hevs2 & Hnone).
    exists (evs ++ evs2). split.
    + rewrite Hevs2. change (marks (add_log _ st2)) with (marks st2).
      by rewrite Hevs, <- app_assoc.
    + by apply settled_app.
  - split; [apply NoDup_nil_2 |]. intros p pipe Hin. by apply elem_of_nil in Hin.
  - intros i c Hi. done.
  - apply settled_nil.
Qed.

(** What the scheduler does see to, on every bundle and whatever the
    tools do: in the events of a session, between the dispatch of a
    component and a later dispatch of a component that holds it, the job
    of the first has been checked and had succeeded. *)
Lemma sign_settles_before_dispatch (env : Env) (opts : SignOpts) (st : St) :
  ∃ evs,
    marks (sign env opts st).2 = marks st ++ evs ∧ settled_before_dispatch evs.
Proof.
  unfold sign.
  apply settled_after; [by destruct (glob env (app_dir opts) "Payload/*.app") |].
  intros main_app st1.
  apply settled_after; [apply (steps_plist_buddy_print same_trace) |]. intros old st2.
  apply settled_after.
  { by apply (steps_sign_main_bundle_id same_trace (λ _, True) (λ _, True)). }
  intros main_bundle_id st3.
  apply settled_after.
  { destruct (bundle_name opts) as [[|a rest]|]; [done | | done].
    repeat (apply (steps_bind same_trace); [| intros ?]); try done;
      by apply (steps_plist_buddy same_trace (λ _, True)). }
  intros _ st4.
  apply settled_after; [done |]. intros _ st5.
  apply settled_after; [done |]. intros _ st6.
  apply run_scheduler_settles.
Qed.

(** ** C1: the order of dispatch *)

(** C1. On a bundle whose extension holds an application, the order of
    discovery puts the extension before the application it holds, and the
    scheduler dispatches the job of the extension while the application
    inside it has not even been prepared: the ordering claimed of every
    pair of nested components does not hold of this session.  What does
    hold of every session is the ordering for the pairs that discovery
    happens to put inner first: a job dispatched before a component that
    holds its path has been checked, and had succeeded, by the time that
    component is dispatched. *)
Theorem container_dispatched_before_contained :
  let opts := Demo.opts Demo.wildcard_profile (Some "com.new.app") false false false in
  let run := sign Demo.env opts Demo.st0 in
  discover Demo.env Demo.main_app = [Demo.watch_ext; Demo.watch_app; Demo.main_app]
  ∧ relative_to Demo.watch_app Demo.watch_ext = true
  ∧ run.1 = Ok tt
  ∧ marks run.2
    = [ Dispatched Demo.watch_ext; Dispatched Demo.watch_app;
        Waited Demo.watch_ext; Checked Demo.watch_ext 0;
        Waited Demo.watch_app; Checked Demo.watch_app 0;
        Dispatched Demo.main_app;
        Waited Demo.main_app; Checked Demo.main_app 0 ]
  ∧ ¬ contained_first (discover Demo.env Demo.main_app) (marks run.2)
  ∧ (∀ env opts st,
       ∃ evs, marks (sign env opts st).2 = marks st ++ evs ∧ settled_before_dispatch evs).
Proof.
  intros opts run.
  assert (marks run.2
    = [ Dispatched Demo.watch_ext; Dispatched Demo.watch_app;
        Waited Demo.watch_ext; Checked Demo.watch_ext 0;
        Waited Demo.watch_app; Checked Demo.watch_app 0;
        Dispatched Demo.main_app;
        Waited Demo.main_app; Checked Demo.main_app 0 ]) as Hmarks
    by (vm_compute; reflexivity).
  assert (discover Demo.env Demo.main_app = [Demo.watch_ext; Demo.watch_app; Demo.main_app])
    as Hdisc by (vm_compute; reflexivity).
  split; [exact Hdisc |]. split; [by vm_compute |]. split; [by vm_compute |].
  split; [exact Hmarks |]. split; [| apply sign_settles_before_dispatch].
  intros Hclaim. rewrite Hmarks, Hdisc in Hclaim.
  destruct (Hclaim Demo.watch_app Demo.watch_ext 0%nat) as (j & rc & Hj & _).
  - apply elem_of_cons; right. apply elem_of_cons; by left.
  - apply elem_of_cons; by left.
  - by vm_compute.
  - by vm_compute.
  - reflexivity.
  - lia.
Qed.

(** ** The properties at work on the demonstration bundle *)

Lemma run_with_result {A} (run : Result A * St) (r : Result A) :
  run.1 = r → run = (r, run.2).
Proof. destruct run as [r' st']. simpl. by intros ->. Defined.

Lemma memo_table_first_seen_wins_witness :
  let first := Demo.opts Demo.wildcard_profile None false false true in
  let other := Demo.opts Demo.fixed_profile (Some "com.new.app") false false true in
  let st1 := (remap Demo.env first "shared" Demo.st0).2 in
  let st2 := (remap Demo.env other "shared" st1).2 in
  session_later st1 st2 ∧ mappings st2 !! "shared" = Some "shared-sharedTEAMID".
Proof.
  intros first other st1 st2.
  assert (session_later st1 st2) as Hlater by apply later_remap, later_now.
  split; [exact Hlater |].
  destruct (memo_table_first_seen_wins Demo.env first "shared" Demo.st0 st2 Hlater)
    as (stored & _ & Hfirst & _ & Hkept & _).
  rewrite Hkept. f_equal. apply Hfirst. reflexivity.
Defined.


Lemma main_bundle_id_from_profile_witness :
  let opts := Demo.opts Demo.wildcard_profile (Some EmptyString) false false false in
  ¬ temporary Demo.wildcard_profile
  ∧ (sign_main_bundle_id Demo.env opts "com.example.app" Demo.st0).1 = Ok "com.example.app".
Proof.
  intros opts.
  assert (¬ temporary Demo.wildcard_profile) as Htmp by (intros [k Hk]; discriminate Hk).
  split; [exact Htmp |].
  destruct (main_bundle_id_from_profile Demo.env opts "com.example.app"
              Demo.wildcard_profile (Demo.profile "TEAMID.com.example.*")
              (Demo.granted "TEAMID.com.example.*") "TEAMID" "com.example.*" Demo.st0)
    as [Hrun _]; [reflexivity | reflexivity | exact Htmp | reflexivity | reflexivity
                 | reflexivity | reflexivity |].
  exact Hrun.
Defined.


Lemma bundle_identifier_written_witness :
  let opts := Demo.opts Demo.fixed_profile (Some "com.new.app") true false false in
  let st := bump_tmp Demo.st0 in
  let run := sign_primary Demo.env opts "com.new.app" "com.example.app" false
               Demo.watch_ext (tmp_dir 0) st in
  ¬ temporary Demo.watch_ext
  ∧ run.1 = Ok {| popen_component := Demo.watch_ext;
                  popen_entitlements := Some (joinpath (tmp_dir 0) (tmp_name 1 +:+ ".plist"));
                  popen_returncode := 0 |}
  ∧ plist_entry "CFBundleIdentifier" (fs run.2 !! joinpath Demo.watch_ext "Info.plist")
    = Some (PString "com.example.app.watchkitextension")
  ∧ fs (sign Demo.env opts Demo.st0).2 !! ["bundle_id.txt"] = Some (FText "com.example.app").
Proof.
  intros opts st run.
  assert (¬ temporary Demo.watch_ext) as Htmp by (intros [k Hk]; discriminate Hk).
  assert (run.1 = Ok {| popen_component := Demo.watch_ext;
                         popen_entitlements :=
                           Some (joinpath (tmp_dir 0) (tmp_name 1 +:+ ".plist"));
                         popen_returncode := 0 |}) as Hresult
    by (vm_compute; reflexivity).
  pose proof (run_with_result run _ Hresult) as Hrun.
  assert ((sign Demo.env opts Demo.st0).1 = Ok tt) as Hsigned by (vm_compute; reflexivity).
  pose proof (run_with_result _ _ Hsigned) as Hsign.
  destruct (bundle_identifier_written Demo.env opts) as [Hcomponent Hsession].
  split; [exact Htmp |]. split; [exact Hresult |]. split.
  - assert (fs st !! joinpath Demo.watch_ext "Info.plist"
            = Some (FPlist (<["CFBundleIdentifier" :=
                                PString "com.example.app.watchkitextension"]> ∅)))
      as Hinfo by (vm_compute; reflexivity).
    assert ((<["CFBundleIdentifier" := PString "com.example.app.watchkitextension"]> ∅
             : Plist) !! "CFBundleIdentifier"
            = Some (PString "com.example.app.watchkitextension")) as Hid
      by (vm_compute; reflexivity).
    exact (Hcomponent "com.new.app" "com.example.app" false Demo.watch_ext (tmp_dir 0) st _
             run.2 _ "com.example.app.watchkitextension" Htmp Hinfo Hid Hrun).
  - destruct (Hsession Demo.st0 _ Hsign)
      as (main_app & old_main & main_bid & st1 & st2 & Hhead & Hprint & _ & Hfile).
    rewrite Hfile.
    assert (Some main_app = Some Demo.main_app) as Hmain
      by (rewrite <- Hhead; vm_compute; reflexivity).
    injection Hmain as ->.
    assert (fs Demo.st0 !! joinpath Demo.main_app "Info.plist"
            = Some (FPlist (<["CFBundleIdentifier" := PString "com.example.app"]> ∅)))
      as Hinfo by (vm_compute; reflexivity).
    assert ((<["CFBundleIdentifier" := PString "com.example.app"]> ∅ : Plist)
            !! "CFBundleIdentifier" = Some (PString "com.example.app")) as Hid
      by (vm_compute; reflexivity).
    rewrite (plist_buddy_print_run _ _ _ _ _ Hinfo Hid) in Hprint.
    injection Hprint as <- _. reflexivity.
Defined.


Lemma strip_entitlements_idempotent_witness :
  let p := joinpath Demo.main_app "Info.plist" in
  strip_entitlements p (strip_entitlements p Demo.st0).2
  = (Ok tt, (strip_entitlements p Demo.st0).2).
Proof.
  intros p. destruct (strip_entitlements_idempotent p Demo.st0) as (_ & Htwice & _).
  exact Htwice.
Defined.

Lemma get_task_allow_iff_patch_debug_witness :
  let opts := Demo.opts Demo.wildcard_profile (Some "com.new.app") false true false in
  let st := bump_tmp Demo.st0 in
  let run := sign_primary Demo.env opts "com.new.app" "com.example.app" false
               Demo.main_app (tmp_dir 0) st in
  run.1 = Ok {| popen_component := Demo.main_app;
                popen_entitlements := Some (joinpath (tmp_dir 0) (tmp_name 1 +:+ ".plist"));
                popen_returncode := 0 |}
  ∧ ∃ given,
      trace run.2 = trace st ++ [EvDispatch Demo.main_app given]
      ∧ plist_entry "get-task-allow" given = Some (PBool true).
Proof.
  intros opts st run.
  assert (run.1 = Ok {| popen_component := Demo.main_app;
                         popen_entitlements :=
                           Some (joinpath (tmp_dir 0) (tmp_name 1 +:+ ".plist"));
                         popen_returncode := 0 |}) as Hresult
    by (vm_compute; reflexivity).
  pose proof (run_with_result run _ Hresult) as Hrun.
  split; [exact Hresult |].
  destruct (get_task_allow_iff_patch_debug Demo.env opts "com.new.app" "com.example.app"
              false Demo.main_app (tmp_dir 0) st _ run.2 Hrun)
    as (given & Htrace & Hkey & _).
  exists given. split; [exact Htrace | exact Hkey].
Defined.

(** * More of the signer *)

(** ** The identifier of a component that does not extend the main one *)





(** ** What the strip step leaves of a manifest *)

(** Lines 300 to 343.  After the strip step none of the fifteen stripped
    keys is left; every key that is neither stripped nor demoted is as it
    was; a demoted key that was absent stays absent, since [Set] does not
    create an entry, and one that held a string holds the demoted value.
    A file that is no property list is passed over without an error. *)
Theorem strip_entitlements_effect (p : Path) (st : St) :
  (∀ m, fs st !! p = Some (FPlist m) →
     ∃ m',
       strip_entitlements p st = (Ok tt, set_fs (insert p (FPlist m')) st)
       ∧ (∀ k, k ∈ stripped_entitlements → m' !! k = None)
       ∧ (∀ k, k ∉ stripped_entitlements → k ∉ map fst demoted_entitlements →
               m' !! k = m !! k)
       ∧ (∀ k v, (k, v) ∈ demoted_entitlements →
            match m !! k with
            | None => m' !! k = None
            | Some (PString _) => m' !! k = Some (PString v)
            | Some old => m' !! k = Some (set_or_keep v old)
            end))
  ∧ ((∀ m, fs st !! p ≠ Some (FPlist m)) → strip_entitlements p st = (Ok tt, st)).
Proof.
  rewrite strip_entitlements_run. unfold plist_update. split.
  - intros m Hm. rewrite Hm. exists (strip_manifest m). split; [done |]. split; [| split].
    + intros k Hk. rewrite strip_manifest_lookup. by rewrite bool_decide_eq_true_2.
    + intros k Hk Hd. rewrite strip_manifest_lookup, bool_decide_eq_false_2 by done.
      destruct (m !! k) as [old|]; [| done]. simpl. f_equal.
      unfold demote_value, demoted_entitlements in *. simpl in *.
      repeat case_decide; simplify_eq; try done;
        exfalso; apply Hd; set_solver.
    + intros k v Hkv.
      assert (k ∉ stripped_entitlements) as Hk.
      { unfold demoted_entitlements, stripped_entitlements in *.
        apply elem_of_cons in Hkv as [[= -> ->] | Hkv];
          [| apply elem_of_cons in Hkv as [[= -> ->] | Hkv%elem_of_nil]; [| done]];
          repeat (apply not_elem_of_cons; split; [done |]); apply not_elem_of_nil. }
      rewrite strip_manifest_lookup, bool_decide_eq_false_2 by done.
      destruct (m !! k) as [old|]; [| done]. cbv [fmap option_fmap option_map].
      assert (demote_value k demoted_entitlements old = set_or_keep v old) as ->.
      { unfold demote_value, demoted_entitlements in *. simpl.
        apply elem_of_cons in Hkv as [[= -> ->] | Hkv];
          [| apply elem_of_cons in Hkv as [[= -> ->] | Hkv%elem_of_nil]; [| done]];
          repeat case_decide; simplify_eq; done. }
      by destruct old.
  - intros Hnone. destruct (fs st !! p) as [[s|m|m]|]; try done. by destruct (Hnone m).
Qed.

(** ** Devices and file sharing *)

Lemma plist_buddy_delete_run (k : string) (p : Path) (m : Plist) (st : St) :
  fs st !! p = Some (FPlist m) →
  plist_buddy (PB_Delete k) p false st
  = (Ok EmptyString, set_fs (insert p (FPlist (delete k m))) st).
Proof.
  intros Hp. unfold plist_buddy. rewrite Hp. simpl.
  destruct (m !! k) eqn:E; simpl; [done |]. f_equal. rewrite delete_id by done.
  destruct st; unfold set_fs; simpl in *. f_equal. symmetry. by apply insert_id.
Qed.

Lemma plist_buddy_add_run (k : string) (ty : PBType) (text : string) (p : Path) (m : Plist)
    (st : St) :
  fs st !! p = Some (FPlist m) → m !! k = None →
  plist_buddy (PB_Add k ty text) p true st
  = (Ok EmptyString, set_fs (insert p (FPlist (<[k := PlistBuddy.value_of ty text]> m))) st).
Proof. intros Hp Hk. apply plist_buddy_run_ok with (m := m); [done |]. simpl. by rewrite Hk. Qed.

Lemma plist_buddy_add_at_run (k : string) (i : nat) (ty : PBType) (text : string) (p : Path)
    (m : Plist) (xs : list PVal) (st : St) :
  fs st !! p = Some (FPlist m) → m !! k = Some (PArray xs) →
  plist_buddy (PB_AddAt k i ty text) p true st
  = (Ok EmptyString,
     set_fs (insert p (FPlist (<[k := PArray (PlistBuddy.insert_at i
                                               (PlistBuddy.value_of ty text) xs)]> m))) st).
Proof. intros Hp Hk. apply plist_buddy_run_ok with (m := m); [done |]. simpl. by rewrite Hk. Qed.

Lemma fs_after_insert (p : Path) (c : File) (st : St) :
  fs (set_fs (insert p c) st) !! p = Some c.
Proof. apply lookup_insert_eq. Qed.

(** Lines 474 to 481.  With support for all devices forced, the manifest
    ends with the device families 1 and 2 and without a list of supported
    devices, whatever it said of either before; its other keys and the
    other files are as they were. *)
Theorem force_all_devices_result (opts : SignOpts) (info : Path) (m : Plist) (st : St) :
  patch_all_devices opts = true →
  fs st !! info = Some (FPlist m) →
  ∃ st' m',
    force_all_devices opts info st = (Ok tt, st')
    ∧ fs st' !! info = Some (FPlist m')
    ∧ m' !! "UIDeviceFamily" = Some (PArray [PInteger 1; PInteger 2])
    ∧ m' !! "UISupportedDevices" = None
    ∧ (∀ k, k ≠ "UIDeviceFamily" → k ≠ "UISupportedDevices" → m' !! k = m !! k)
    ∧ (∀ q, q ≠ info → fs st' !! q = fs st !! q).
Proof.
  intros Hflag Hinfo. unfold force_all_devices. rewrite Hflag.
  rewrite (bind_run _ _ _ _ _ (print_run _ _)).
  erewrite bind_run; [| by apply plist_buddy_delete_run].
  erewrite bind_run; [| apply plist_buddy_delete_run, fs_after_insert].
  erewrite bind_run;
    [| apply plist_buddy_add_run; [apply fs_after_insert | apply lookup_delete_eq]].
  erewrite bind_run;
    [| eapply plist_buddy_add_at_run; [apply fs_after_insert | apply lookup_insert_eq]].
  erewrite bind_run;
    [| eapply plist_buddy_add_at_run; [apply fs_after_insert | apply lookup_insert_eq]].
  eexists _, _. split; [reflexivity |]. split; [apply fs_after_insert |].
  split; [by rewrite lookup_insert_eq |]. split.
  - rewrite !lookup_insert_ne by done. rewrite lookup_delete_ne by done.
    apply lookup_delete_eq.
  - split.
    + intros k Hk1 Hk2. rewrite !lookup_insert_ne by done. by rewrite !lookup_delete_ne.
    + intros q Hq. cbn [fs set_fs add_log]. by rewrite !lookup_insert_ne.
Qed.

(** Lines 483 to 488.  With file sharing forced, the manifest ends with
    both [UIFileSharingEnabled] and [UISupportsDocumentBrowser] set to the
    boolean true, whatever it said of either before; its other keys and
    the other files are as they were. *)
Theorem force_file_sharing_result (opts : SignOpts) (info : Path) (m : Plist) (st : St) :
  patch_file_sharing opts = true →
  fs st !! info = Some (FPlist m) →
  ∃ st' m',
    force_file_sharing opts info st = (Ok tt, st')
    ∧ fs st' !! info = Some (FPlist m')
    ∧ m' !! "UIFileSharingEnabled" = Some (PBool true)
    ∧ m' !! "UISupportsDocumentBrowser" = Some (PBool true)
    ∧ (∀ k, k ≠ "UIFileSharingEnabled" → k ≠ "UISupportsDocumentBrowser" →
            m' !! k = m !! k)
    ∧ (∀ q, q ≠ info → fs st' !! q = fs st !! q).
Proof.
  intros Hflag Hinfo. unfold force_file_sharing. rewrite Hflag.
  rewrite (bind_run _ _ _ _ _ (print_run _ _)).
  erewrite bind_run; [| by apply plist_buddy_delete_run].
  erewrite bind_run;
    [| apply plist_buddy_add_run; [apply fs_after_insert | apply lookup_delete_eq]].
  erewrite bind_run; [| apply plist_buddy_delete_run, fs_after_insert].
  erewrite bind_run;
    [| apply plist_buddy_add_run; [apply fs_after_insert | apply lookup_delete_eq]].
  eexists _, _. split; [reflexivity |]. split; [apply fs_after_insert |].
  split.
  - rewrite lookup_insert_ne by done. rewrite lookup_delete_ne by done.
    by rewrite lookup_insert_eq.
  - split; [by rewrite lookup_insert_eq |]. split.
    + intros k Hk1 Hk2. rewrite !lookup_insert_ne, !lookup_delete_ne by done.
      by rewrite !lookup_insert_ne, !lookup_delete_ne by done.
    + intros q Hq. cbn [fs set_fs add_log]. by rewrite !lookup_insert_ne.
Qed.

(** ** Entitlements from a provisioning profile: how the dump fails *)

Lemma lookup_outside (d q : Path) (fsys : gmap Path File) :
  ¬ d `prefix_of` q → outside d fsys !! q = fsys !! q.
Proof.
  intros H. unfold outside. destruct (fsys !! q) as [c|] eqn:E.
  - by apply map_lookup_filter_Some.
  - apply map_lookup_filter_None. left. done.
Qed.

Lemma under_outside (d : Path) (fsys : gmap Path File) : under d (outside d fsys) = ∅.
Proof.
  apply map_eq. intros q. rewrite lookup_empty. unfold under, outside.
  apply map_lookup_filter_None. right. intros c Hc Hpre.
  apply map_lookup_filter_Some in Hc as [_ Hc]. by apply Hc.
Qed.

Lemma tmp_file_in_tmp_dir (n : nat) (name : string) :
  tmp_dir n `prefix_of` joinpath (tmp_dir n) name.
Proof. by apply prefix_app_r. Qed.

(** The three ways the dump ends. *)
Lemma dump_prov_entitlements_plist_cases (prov ent : Path) (st : St) :
  ¬ tmp_dir (tmp_count st) `prefix_of` prov →
  ¬ tmp_dir (tmp_count st) `prefix_of` ent →
  let tmp := tmp_dir (tmp_count st) in
  let st1 := set_fs (insert (joinpath tmp "prov.plist") (FText EmptyString)) (bump_tmp st) in
  dump_prov_entitlements_plist prov ent st
  = match fs st !! prov with
    | Some (FProv manifest) =>
        let st2 :=
          set_fs (insert ent (FText EmptyString))
            (set_fs (insert (joinpath tmp "prov.plist") (FPlist manifest)) st1) in
        match manifest !! "Entitlements" with
        | None =>
            (Raise (process_failed "/usr/libexec/PlistBuddy"), set_fs (outside tmp) st2)
        | Some (PDict kvs) =>
            (Ok tt, set_fs (outside tmp) (set_fs (insert ent (FPlist (list_to_map kvs))) st2))
        | Some v =>
            (Ok tt,
             set_fs (outside tmp)
               (set_fs (insert ent
                          (FText (Py.join (String Py.newline EmptyString)
                                    (PlistBuddy.render v)))) st2))
        end
    | _ => (Raise (process_failed "security"), set_fs (outside tmp) st1)
    end.
Proof.
  intros Hprov Hent tmp st1.
  assert (prov ≠ joinpath tmp "prov.plist") as Hne1.
  { intros ->. apply Hprov, tmp_file_in_tmp_dir. }
  assert (ent ≠ joinpath tmp "prov.plist") as Hne2.
  { intros ->. apply Hent, tmp_file_in_tmp_dir. }
  unfold dump_prov_entitlements_plist, with_tmpdir. rewrite bind_unfold.
  unfold mkdtemp, try_finally. fold tmp.
  rewrite (bind_run _ _ _ _ _ (write_file_run _ _ _)). fold st1.
  rewrite bind_unfold. unfold security_dump_prov at 1.
  assert (fs st1 !! prov = fs st !! prov) as ->.
  { unfold st1. cbn [fs set_fs bump_tmp]. by rewrite lookup_insert_ne by neq. }
  destruct (fs st !! prov) as [[s|m|manifest]|] eqn:Hfile;
    [by rewrite (bind_run _ _ _ _ _ (rmtree_run _ _))..| |
     by rewrite (bind_run _ _ _ _ _ (rmtree_run _ _))].
  rewrite (bind_run _ _ _ _ _ (write_file_run _ _ _)).
  rewrite (bind_run _ _ _ _ _ (write_file_run _ _ _)).
  rewrite bind_unfold. unfold plist_buddy_xml at 1. cbn [fs set_fs bump_tmp].
  rewrite lookup_insert_ne by neq. rewrite lookup_insert_eq.
  destruct (manifest !! "Entitlements") as [[s|b|z|xs|kvs]|] eqn:Hkey;
    rewrite ?write_file_run; by rewrite (bind_run _ _ _ _ _ (rmtree_run _ _)).
Qed.

(** Lines 148 to 157.  The temporary directory is gone however the dump
    ends.  When the profile cannot be decoded the output file is left as
    it was; when the decoded profile has no entitlements the output file
    has already been opened for writing and is left empty; otherwise it
    holds the entitlements of the profile. *)
Theorem dump_prov_entitlements_plist_outcomes (prov ent : Path) (st : St) :
  ¬ tmp_dir (tmp_count st) `prefix_of` prov →
  ¬ tmp_dir (tmp_count st) `prefix_of` ent →
  let run := dump_prov_entitlements_plist prov ent st in
  under (tmp_dir (tmp_count st)) (fs run.2) = ∅
  ∧ ((∀ manifest, fs st !! prov ≠ Some (FProv manifest)) →
     run.1 = Raise (process_failed "security") ∧ fs run.2 !! ent = fs st !! ent)
  ∧ (∀ manifest, fs st !! prov = Some (FProv manifest) →
       match manifest !! "Entitlements" with
       | None =>
           run.1 = Raise (process_failed "/usr/libexec/PlistBuddy")
           ∧ fs run.2 !! ent = Some (FText EmptyString)
       | Some (PDict kvs) =>
           run.1 = Ok tt ∧ fs run.2 !! ent = Some (FPlist (list_to_map kvs))
       | Some _ => run.1 = Ok tt
       end).
Proof.
  intros Hprov Hent run.
  pose proof (dump_prov_entitlements_plist_cases prov ent st Hprov Hent) as Hrun.
  cbv zeta in Hrun. fold run in Hrun.
  set (tmp := tmp_dir (tmp_count st)) in *.
  assert (ent ≠ joinpath tmp "prov.plist") as Hne2.
  { intros ->. apply Hent, tmp_file_in_tmp_dir. }
  split; [| split].
  - destruct (fs st !! prov) as [[s|m|manifest]|];
      [| | destruct (manifest !! "Entitlements") as [[s|b|z|xs|kvs]|] |];
      rewrite Hrun; apply under_outside.
  - intros Hnone. destruct (fs st !! prov) as [[s|m|manifest]|];
      [| | by destruct (Hnone manifest) |];
      rewrite Hrun; (split; [done |]); cbn [snd fs set_fs];
      rewrite lookup_outside by done; by rewrite lookup_insert_ne by neq.
  - intros manifest Hfile. rewrite Hfile in Hrun.
    destruct (manifest !! "Entitlements") as [[s|b|z|xs|kvs]|]; rewrite Hrun; try done;
      (split; [done |]); cbn [snd fs set_fs]; rewrite lookup_outside by done;
      apply lookup_insert_eq.
Qed.

(** ** The retry wrapper: how many rounds, and where its outcomes come from *)

Lemma exec_retry_loop_ends_within {A} (name : string) (func : M A) (start_time d : Q) :
  (0 < d)%Q →
  (∀ st, (func st).1 ≠ OutOfFuel) →
  (∀ st e st', func st = (Raise e, st') → cause_is_timeout e = true →
               (clock st + d <= clock st')%Q) →
  ∀ (n : nat) (last_error : option Exn) (st : St),
    (retry_deadline - (clock st - start_time) <= inject_Z (Z.of_nat n) * d)%Q →
    (exec_retry_loop (S n) name func start_time last_error st).1 ≠ OutOfFuel.
Proof.
  intros Hd Hends Hslow n. induction n as [|n IH]; intros last st Hleft.
  - rewrite exec_retry_loop_unfold.
    destruct (Qlt_le_dec _ _) as [Hlt|Hge]; [| done].
    exfalso. change (inject_Z (Z.of_nat 0)) with 0%Q in Hleft. unfold retry_deadline in *. lra.
  - rewrite exec_retry_loop_unfold.
    destruct (Qlt_le_dec (clock st - start_time) retry_deadline) as [Hlt|Hge]; [| done].
    destruct (func st) as [[r|e|] st'] eqn:Hf; [done | |].
    + destruct (cause_is_timeout e) eqn:Hc; [| done].
      apply IH. simpl. pose proof (Hslow st e st' Hf Hc) as Hstep.
      rewrite Nat2Z.inj_succ in Hleft. unfold Z.succ in Hleft.
      rewrite inject_Z_plus in Hleft. change (inject_Z 1) with 1%Q in Hleft.
      unfold retry_deadline in *. lra.
    + pose proof (Hends st) as H. by rewrite Hf in H.
Qed.

(** Lines 79 to 91.  When every attempt that times out has taken at
    least [d] seconds, and the attempts themselves end, the loop is over
    after at most 90 / [d] rounds, rounded up, and one more test of the
    deadline: with attempts that time out after 20 seconds, after five. *)
Theorem exec_retry_ends_within {A} (name : string) (func : M A) (d : Q) (st : St) :
  (0 < d)%Q →
  (∀ st, (func st).1 ≠ OutOfFuel) →
  (∀ st e st', func st = (Raise e, st') → cause_is_timeout e = true →
               (clock st + d <= clock st')%Q) →
  (exec_retry (S (Z.to_nat (Qceiling (retry_deadline / d)))) name func st).1 ≠ OutOfFuel.
Proof.
  intros Hd Hends Hslow. rewrite exec_retry_unfold.
  apply (exec_retry_loop_ends_within name func (clock st) d Hd Hends Hslow).
  set (n := Z.to_nat (Qceiling (retry_deadline / d))).
  assert (retry_deadline / d <= inject_Z (Z.of_nat n))%Q as Hn.
  { apply (Qle_trans _ (inject_Z (Qceiling (retry_deadline / d)))); [apply Qle_ceiling |].
    rewrite <- Zle_Qle. unfold n. lia. }
  apply (Qmult_le_r _ _ d Hd) in Hn.
  assert (retry_deadline / d * d == retry_deadline)%Q as Hdiv.
  { field. intros H0. rewrite H0 in Hd. by apply Qlt_irrefl in Hd. }
  rewrite Hdiv in Hn. lra.
Qed.



(** ** The scheduler: which jobs are settled, and the last loop *)

Lemma dispatched_app (a b : list Mark) : dispatched (a ++ b) = dispatched a ++ dispatched b.
Proof. apply omap_app. Qed.

Lemma dispatched_settles (component : Path) (evs : list Mark) :
  Forall (settles component) evs → dispatched evs = [].
Proof.
  induction 1 as [|m evs (p & _ & [-> | [rc ->]]) _ IH]; [done | exact IH..].
Qed.

Lemma dict_get_of_elem {V} (k : Path) (v : V) (d : list (Path * V)) :
  NoDup (map fst d) → (k, v) ∈ d → dict_get k d = Some v.
Proof.
  induction d as [|[k' v'] d IH]; simpl; [by intros _ H%elem_of_nil |].
  intros [Hk' Hd]%NoDup_cons Hin. apply elem_of_cons in Hin as [[= <- <-] | Hin].
  - by rewrite decide_True.
  - rewrite decide_False; [by apply IH |].
    intros ->. apply Hk'. apply list_elem_of_fmap. by exists (k, v).
Qed.

(** What a value returned through a chain of steps is, is decided by the
    last step. *)
Lemma returned_bind {A B} (P : B → Prop) (m : M A) (f : A → M B) :
  (∀ a st b st', f a st = (Ok b, st') → P b) →
  ∀ st b st', (m ≫= f) st = (Ok b, st') → P b.
Proof.
  intros Hf st b st' Hrun. apply bind_Ok_inv in Hrun as (a & st1 & _ & Hrun). by eapply Hf.
Qed.

Lemma sign_primary_status env opts m om dist component workdir st pipe st' :
  sign_primary env opts m om dist component workdir st = (Ok pipe, st') →
  popen_returncode pipe = codesign_status env component.
Proof.
  revert st pipe st'. unfold sign_primary, sign_primary_finish.
  do 9 (apply returned_bind; intros ?).
  intros st pipe st' [= <- _]. done.
Qed.

Lemma sign_secondary_status env opts component workdir st pipe st' :
  sign_secondary env opts component workdir st = (Ok pipe, st') →
  popen_returncode pipe = codesign_status env component.
Proof.
  revert st pipe st'. unfold sign_secondary. apply returned_bind; intros ?.
  intros st pipe st' [= <- _]. done.
Qed.

Lemma checks_from_app (env : Env) (a b : list Mark) :
  checks_from env a → checks_from env b → checks_from env (a ++ b).
Proof. intros Ha Hb c rc [H | H]%elem_of_app; [by apply Ha | by apply Hb]. Qed.

Lemma checks_from_nil (env : Env) : checks_from env [].
Proof. by intros c rc H%elem_of_nil. Qed.

(** The statuses checked in lines 499 to 509 are those of the processes
    of the table. *)
Lemma settle_contained_status (env : Env) (component : Path) (keys : list Path)
    (jobs : list (Path * Popen)) (st st' : St) (r : Result (list (Path * Popen))) :
  settle_contained env component keys jobs st = (r, st') →
  jobs_wf jobs → jobs_from env jobs →
  ∃ evs, marks st' = marks st ++ evs ∧ checks_from env evs.
Proof.
  revert jobs st. induction keys as [|path keys IH]; intros jobs st Hrun Hwf Hfrom.
  - injection Hrun as <- <-. exists []. rewrite app_nil_r. split; [done | apply checks_from_nil].
  - cbn [settle_contained] in Hrun.
    destruct (dict_get path jobs) as [pipe|] eqn:Hget.
    2:{ injection Hrun as <- <-. exists []. rewrite app_nil_r.
        split; [done | apply checks_from_nil]. }
    pose proof (dict_get_elem _ _ _ Hget) as Hin.
    destruct Hwf as [Hnd Hcomp]. pose proof (Hcomp _ _ Hin) as Hpc.
    pose proof (Hfrom _ _ Hin) as Hst.
    destruct (relative_to path component); [| by apply IH in Hrun].
    rewrite bind_unfold in Hrun. unfold popen_running at 1, gets at 1 in Hrun.
    set (running := poll_running env (popen_component pipe) (length (trace st))) in Hrun.
    assert (∃ w st1,
              (if running
               then _ ← print ("Waiting for sub-component to finish signing: "
                                +:+ path_str path); popen_wait pipe
               else mret tt) st = (Ok tt, st1)
              ∧ marks st1 = marks st ++ w
              ∧ checks_from env w) as (w & st1 & Hwait & Hm1 & Hw).
    { destruct running.
      - exists [Waited path]. eexists. split; [reflexivity |]. split.
        + unfold marks. simpl. rewrite map_app. simpl. by rewrite Hpc.
        + intros c rc [H | H%elem_of_nil]%elem_of_cons; done.
      - exists []. exists st. split; [done |]. rewrite app_nil_r.
        split; [done | apply checks_from_nil]. }
    rewrite (bind_run _ _ _ _ _ Hwait) in Hrun.
    rewrite bind_unfold in Hrun. unfold popen_check at 1 in Hrun.
    rewrite bind_unfold in Hrun. unfold modify at 1 in Hrun.
    set (st2 := add_event (EvCheck (popen_component pipe) (popen_returncode pipe)) st1)
      in Hrun.
    set (settled := w ++ [Checked path (popen_returncode pipe)]).
    assert (marks st2 = marks st ++ settled) as Hm2.
    { unfold st2, settled. rewrite marks_add_event, Hm1, <- app_assoc. simpl. by rewrite Hpc. }
    assert (checks_from env settled) as Hsettled.
    { apply checks_from_app; [done |].
      intros c rc [[= -> ->] | H%elem_of_nil]%elem_of_cons; done. }
    case_bool_decide as Hrc.
    { injection Hrun as <- <-. by exists settled. }
    simpl in Hrun. apply IH in Hrun as (evs & Hm' & Hevs).
    + exists (settled ++ evs). split; [by rewrite Hm', Hm2, <- app_assoc |].
      by apply checks_from_app.
    + split; [by apply dict_pop_NoDup |].
      intros p pipe' Hp. apply Hcomp. by apply dict_pop_elem in Hp.
    + intros p pipe' Hp. apply Hfrom. by apply dict_pop_elem in Hp.
Qed.

(** Lines 496 to 521, with what the table and the events of the loop
    hold at its end. *)
Lemma sign_components_dispatches env opts m om dist tmpdir (components : list Path)
    (jobs : list (Path * Popen)) (st st' : St) (r : Result (list (Path * Popen)))
    (tr : list Mark) :
  sign_components env opts m om dist tmpdir components jobs st = (r, st') →
  jobs_wf jobs → jobs_from env jobs → jobs_pending tr jobs →
  ∃ evs,
    marks st' = marks st ++ evs
    ∧ dispatched evs `prefix_of` components
    ∧ checks_from env evs
    ∧ match r with
      | Ok jobs' =>
          jobs_wf jobs' ∧ jobs_from env jobs' ∧ jobs_pending (tr ++ evs) jobs'
          ∧ dispatched evs = components
      | _ => True
      end.
Proof.
  revert jobs st tr.
  induction components as [|component rest IH]; intros jobs st tr Hrun Hwf Hfrom Hpend.
  - injection Hrun as <- <-. exists []. rewrite !app_nil_r.
    split; [done |]. split; [done |]. split; [apply checks_from_nil | done].
  - cbn [sign_components] in Hrun.
    rewrite (bind_run _ _ _ _ _ (print_run _ _)) in Hrun.
    set (st0 := add_log _ st) in Hrun.
    rewrite bind_unfold in Hrun.
    destruct (settle_contained env component (map fst jobs) jobs st0) as [r1 st1] eqn:Hsettle.
    pose proof (settle_contained_status _ _ _ _ _ _ _ Hsettle Hwf Hfrom)
      as (evs0 & Hm0 & Hc1).
    apply (settle_contained_spec _ _ _ _ _ _ _ tr) in Hsettle
      as (evs1 & Hm1 & Hevs1 & Hr1); [| done | done | done].
    assert (evs0 = evs1) as -> by (rewrite Hm1 in Hm0; by apply app_inv_head in Hm0).
    change (marks st0) with (marks st) in Hm1.
    pose proof (dispatched_settles _ _ Hevs1) as Hd1.
    assert (dispatched evs1 `prefix_of` component :: rest) as Hpre1
      by (rewrite Hd1; apply prefix_nil).
    destruct r1 as [jobs1|e|]; [| injection Hrun as <- <-; by exists evs1..].
    destruct Hr1 as (Hwf1 & Hpend1 & Hnone & Hsame).
    assert (jobs_from env jobs1) as Hfrom1.
    { intros p pipe Hin. apply Hfrom. apply dict_get_elem.
      rewrite <- Hsame.
      - apply dict_get_of_elem; [apply Hwf1 | done].
      - apply Hnone. apply list_elem_of_fmap. by exists (p, pipe). }
    rewrite (bind_run _ _ _ _ _ (print_run _ _)) in Hrun.
    rewrite bind_unfold in Hrun. unfold dir_exists at 1, gets at 1 in Hrun.
    rewrite bind_unfold in Hrun.
    match type of Hrun with
    | context [(if ?b then _ ← print _; rmtree ?d else mret tt) ?s] =>
        pose proof (leftover_same_trace d b s) as Hleft;
        destruct ((if b then _ ← print "Removing leftover AppStore data"; rmtree d
                   else mret tt) s) as [rl st2] eqn:Hl
    end.
    apply marks_same_trace in Hleft. simpl in Hleft.
    change (marks (add_log "Processing" st1)) with (marks st1) in Hleft.
    destruct rl as [[]|e|]; [| injection Hrun as <- <-; exists evs1; by rewrite Hleft..].
    rewrite bind_unfold in Hrun.
    match type of Hrun with
    | context [(if ?b then ?p else ?s) st2] =>
        assert (dispatches component (if b then p else s)) as Hd
          by (destruct b; [apply dispatches_sign_primary | apply dispatches_sign_secondary]);
        assert (∀ pipe st3, (if b then p else s) st2 = (Ok pipe, st3) →
                            popen_returncode pipe = codesign_status env component) as Hstatus
          by (destruct b; intros ? ?;
              [apply sign_primary_status | apply sign_secondary_status]);
        specialize (Hd st2);
        destruct ((if b then p else s) st2) as [rp st3] eqn:Hp
    end.
    simpl in Hd.
    destruct rp as [pipe|e|];
      [| injection Hrun as <- <-; exists evs1; by rewrite Hd, Hleft..].
    destruct Hd as [Hpipe Hm3]. specialize (Hstatus pipe st3 eq_refl).
    apply (IH _ _ ((tr ++ evs1) ++ [Dispatched component])) in Hrun
      as (evs2 & Hm' & Hpre & Hc2 & Hr).
    + exists (evs1 ++ [Dispatched component] ++ evs2).
      rewrite <- !app_assoc in Hr.
      split; [rewrite Hm', Hm3, Hleft, Hm1, <- !app_assoc; done |].
      rewrite !dispatched_app, Hd1. simpl.
      split; [by apply prefix_cons |].
      split.
      { intros c rc [H | H]%elem_of_app; [by apply Hc1 |].
        apply elem_of_cons in H as [H | H]; [done | by apply Hc2]. }
      destruct r as [jobs'| |]; [| done..].
      destruct Hr as (? & ? & ? & ->). done.
    + destruct Hwf1 as [Hnd Hcomp]. split; [by apply dict_set_NoDup |].
      intros p pipe' Hin. apply dict_set_elem in Hin as [[-> ->] | Hin]; [done |].
      by apply Hcomp.
    + intros p pipe' Hin. apply dict_set_elem in Hin as [[-> ->] | Hin]; [done |].
      by apply Hfrom1.
    + by apply pending_dispatch.
Qed.

(** Lines 523 to 526: when the last loop goes through, every process it
    was given had ended with status 0 and has been waited for and
    checked. *)
Lemma remaining_jobs_checked (pipes : list Popen) (st st' : St) :
  for_each pipes (λ pipe, _ ← popen_wait pipe; popen_check pipe) st = (Ok tt, st') →
  ∃ evs,
    marks st' = marks st ++ evs
    ∧ dispatched evs = []
    ∧ ∀ pipe, pipe ∈ pipes →
        popen_returncode pipe = 0 ∧ Checked (popen_component pipe) 0 ∈ evs.
Proof.
  revert st. induction pipes as [|pipe pipes IH]; intros st Hrun.
  - injection Hrun as <-. exists []. rewrite app_nil_r. split; [done |]. split; [done |].
    by intros pipe H%elem_of_nil.
  - cbn [for_each] in Hrun. apply bind_Ok_inv in Hrun as ([] & st1 & Hone & Hrun).
    apply bind_Ok_inv in Hone as ([] & st0 & Hwait & Hcheck). injection Hwait as <-.
    unfold popen_check in Hcheck. apply bind_Ok_inv in Hcheck as ([] & st2 & Hev & Hcheck).
    injection Hev as <-. case_bool_decide as Hrc; [discriminate Hcheck |].
    injection Hcheck as <-.
    assert (popen_returncode pipe = 0) as Hzero.
    { destruct (decide (popen_returncode pipe = 0)); [done | by destruct Hrc]. }
    apply IH in Hrun as (evs & Hevs & Hnone & Hall).
    exists ([Waited (popen_component pipe); Checked (popen_component pipe) 0] ++ evs).
    split; [| split].
    + rewrite Hevs, !marks_add_event, Hzero, <- !app_assoc. done.
    + by rewrite dispatched_app, Hnone.
    + intros p [-> | Hp]%elem_of_cons.
      * split; [done |]. apply elem_of_app. left.
        apply list_elem_of_further, list_elem_of_here.
      * destruct (Hall p Hp) as [? ?]. split; [done |]. apply elem_of_app. by right.
Qed.

Lemma try_finally_Ok {A} (m : M A) (cleanup : M unit) (st st' : St) (a : A) :
  try_finally m cleanup st = (Ok a, st') →
  ∃ st1 st2, m st = (Ok a, st1) ∧ cleanup st1 = (Ok tt, st2) ∧ st' = st2.
Proof.
  unfold try_finally. destruct (m st) as [[b|e|] st1]; [| | discriminate].
  - intros H. apply bind_Ok_inv in H as ([] & st2 & Hc & [= -> ->]). by exists st1, st'.
  - rewrite bind_unfold. by destruct (cleanup st1) as [[[]|e'|] st2].
Qed.

(** The whole scheduler. *)
Lemma run_scheduler_dispatches env opts m om dist (components : list Path) (st st' : St)
    (r : Result unit) :
  run_scheduler env opts m om dist components st = (r, st') →
  ∃ evs,
    marks st' = marks st ++ evs
    ∧ dispatched evs `prefix_of` components
    ∧ (r = Ok tt →
       dispatched evs = components
       ∧ ∀ i c, evs !! i = Some (Dispatched c) →
           codesign_status env c = 0
           ∧ ∃ j, (i < j)%nat ∧ evs !! j = Some (Checked c 0)).
Proof.
  unfold run_scheduler, with_tmpdir. rewrite bind_unfold. unfold mkdtemp at 1.
  set (tmpdir := tmp_dir (tmp_count st)). set (st0 := bump_tmp st).
  intros Hrun.
  assert (marks st' = marks (( jobs ← sign_components env opts m om dist tmpdir components [];
                               _ ← print "Waiting for any remaining components to finish signing";
                               for_each (map snd jobs)
                                 (λ pipe, _ ← popen_wait pipe; popen_check pipe)) st0).2)
    as Hmarks.
  { pose proof (try_finally_marks
                  (jobs ← sign_components env opts m om dist tmpdir components [];
                   _ ← print "Waiting for any remaining components to finish signing";
                   for_each (map snd jobs) (λ pipe, _ ← popen_wait pipe; popen_check pipe))
                  (rmtree tmpdir) st0 ltac:(done)) as H.
    by rewrite Hrun in H. }
  destruct (sign_components env opts m om dist tmpdir components [] st0) as [r1 st1] eqn:Hloop.
  pose proof Hloop as Hloop'.
  apply (sign_components_dispatches _ _ _ _ _ _ _ _ _ _ _ []) in Hloop'
    as (evs1 & Hm1 & Hpre1 & Hc1 & Hr1).
  2:{ split; [apply NoDup_nil_2 |]. by intros p pipe H%elem_of_nil. }
  2:{ by intros p pipe H%elem_of_nil. }
  2:{ by intros i c Hi. }
  change (marks st0) with (marks st) in Hm1.
  rewrite bind_unfold, Hloop in Hmarks.
  destruct r1 as [jobs|e|].
  2,3: exists evs1; split; [by rewrite Hmarks | split; [done |]];
       intros ->; apply try_finally_Ok in Hrun as (? & ? & Hbody & _);
       rewrite bind_unfold, Hloop in Hbody; discriminate Hbody.
  destruct Hr1 as (Hwf & Hfrom & Hpend & Hall).
  rewrite (bind_run _ _ _ _ _ (print_run _ _)) in Hmarks.
  set (st2 := add_log _ st1) in Hmarks.
  destruct (remaining_jobs_marks (map snd jobs) st2) as (evs2 & Hm2 & Hnone).
  assert (dispatched evs2 = []) as Hd2.
  { clear -Hnone. induction evs2 as [|ev evs2 IH]; [done |].
    destruct ev as [c| |]; simpl.
    - destruct (Hnone (Dispatched c) (list_elem_of_here _ _) c eq_refl).
    - apply IH. intros ? ?. apply Hnone. by apply list_elem_of_further.
    - apply IH. intros ? ?. apply Hnone. by apply list_elem_of_further. }
  exists (evs1 ++ evs2). split; [| split].
  - rewrite Hmarks, Hm2. change (marks st2) with (marks st1). by rewrite Hm1, <- app_assoc.
  - rewrite dispatched_app, Hd2, app_nil_r. done.
  - intros ->. rewrite dispatched_app, Hd2, app_nil_r. split; [done |].
    apply try_finally_Ok in Hrun as (st3 & st4 & Hbody & _ & _).
    rewrite bind_unfold, Hloop in Hbody.
    rewrite (bind_run _ _ _ _ _ (print_run _ _)) in Hbody. fold st2 in Hbody.
    pose proof Hbody as Hbody'. apply remaining_jobs_checked in Hbody' as (evs2' & Hm2' & _ & Hchecked).
    assert (evs2' = evs2) as ->.
    { rewrite Hbody in Hm2. simpl in Hm2. rewrite Hm2' in Hm2. by apply app_inv_head in Hm2. }
    intros i c Hi.
    assert (i < length evs1)%nat as Hlt.
    { destruct (decide (i < length evs1)%nat) as [? | Hge]; [done |].
      rewrite lookup_app_r in Hi by lia. apply list_elem_of_lookup_2 in Hi.
      by destruct (Hnone _ Hi c). }
    rewrite lookup_app_l in Hi by done.
    destruct (Hpend i c Hi) as [Hc | (j & Hj & Hcheck)].
    + apply list_elem_of_fmap in Hc as ([p pipe] & -> & Hin). simpl.
      pose proof (Hfrom _ _ Hin) as Hst. destruct Hwf as [_ Hcomp].
      pose proof (Hcomp _ _ Hin) as Hpc.
      destruct (Hchecked pipe) as [Hzero Hev].
      { apply list_elem_of_fmap. by exists (p, pipe). }
      split; [congruence |].
      rewrite Hpc in Hev. apply list_elem_of_lookup_1 in Hev as [j Hj].
      exists (length evs1 + j)%nat. split; [lia |].
      rewrite lookup_app_r by lia. by replace (length evs1 + j - length evs1)%nat with j by lia.
    + simpl in Hcheck. apply lookup_lt_Some in Hcheck as Hjlt.
      split; [| exists j; split; [done | by rewrite lookup_app_l]].
      symmetry. apply Hc1. by eapply list_elem_of_lookup_2.
Qed.

Lemma sign_main_bundle_id_same_trace env opts old :
  steps same_trace (sign_main_bundle_id env opts old).
Proof. by apply (steps_sign_main_bundle_id same_trace (λ _, True) (λ _, True)). Qed.

Lemma display_name_same_trace (opts : SignOpts) (info : Path) :
  steps same_trace
    (match bundle_name opts with
     | Some (String a rest) =>
         _ ← print ("Setting CFBundleDisplayName to " +:+ String a rest);
         _ ← plist_buddy (PB_Delete "CFBundleDisplayName") info false;
         _ ← plist_buddy (PB_Add "CFBundleDisplayName" TString (String a rest)) info true;
         mret tt
     | _ => mret tt
     end).
Proof.
  destruct (bundle_name opts) as [[|a rest]|]; [done | | done].
  repeat (apply (steps_bind same_trace); [| intros ?]); try done;
    by apply (steps_plist_buddy same_trace (λ _, True)).
Qed.

(** The steps of [sign] before the scheduler add no event. *)
Lemma sign_reaches_scheduler (env : Env) (opts : SignOpts) (st st' : St) (r : Result unit) :
  sign env opts st = (r, st') →
  (marks st' = marks st ∧ r ≠ Ok tt)
  ∨ ∃ main_app m om st1,
      head (glob env (app_dir opts) "Payload/*.app") = Some main_app
      ∧ marks st1 = marks st
      ∧ run_scheduler env opts m om (Py.contains "Distribution" (common_name opts))
          (discover env main_app) st1 = (r, st').
Proof.
  unfold sign. intros Hrun. rewrite bind_unfold in Hrun.
  destruct (glob env (app_dir opts) "Payload/*.app") as [|main_app others] eqn:Hglob.
  { injection Hrun as <- <-. by left. }
  cbn [mret M_ret] in Hrun. cbv zeta in Hrun.
  rewrite bind_unfold in Hrun.
  destruct (plist_buddy (PB_Print "CFBundleIdentifier") (joinpath main_app "Info.plist")
              true st) as [[om|e|] st1] eqn:E1;
    pose proof (steps_run same_trace _ _ _ _ (steps_plist_buddy_print same_trace _ _ _) E1)
      as T1; apply marks_same_trace in T1;
    [| injection Hrun as <- <-; by left..].
  rewrite bind_unfold in Hrun.
  destruct (sign_main_bundle_id env opts om st1) as [[m|e|] st2] eqn:E2;
    pose proof (steps_run same_trace _ _ _ _ (sign_main_bundle_id_same_trace _ _ _) E2) as T2;
    apply marks_same_trace in T2;
    [| injection Hrun as <- <-; left; split; [congruence | done]..].
  rewrite bind_unfold in Hrun.
  match type of Hrun with
  | match ?x with _ => _ end = _ =>
      assert (marks x.2 = marks st2) as T3
        by exact (marks_same_trace _ _
                    (display_name_same_trace opts (joinpath main_app "Info.plist") st2));
      destruct x as [[[]|e|] st3]
  end; simpl in T3;
    [| injection Hrun as <- <-; left; split; [congruence | done]..].
  rewrite (bind_run _ _ _ _ _ (write_file_run _ _ _)) in Hrun.
  rewrite bind_unfold in Hrun. unfold modify at 1 in Hrun.
  right. eexists main_app, m, om, _. split; [done |]. split; [| exact Hrun].
  unfold marks in *. simpl. congruence.
Qed.

(** In a session that goes through, every job dispatched has been checked
    afterwards, and codesign had ended with status 0 for its component:
    no job is left unchecked, and a job that failed is never passed
    over.  So codesign has succeeded on every component discovered. *)
Theorem successful_session_checked_every_job (env : Env) (opts : SignOpts) (st st' : St) :
  sign env opts st = (Ok tt, st') →
  ∃ evs,
    marks st' = marks st ++ evs
    ∧ (∀ i c, evs !! i = Some (Dispatched c) →
         codesign_status env c = 0
         ∧ ∃ j, (i < j)%nat ∧ evs !! j = Some (Checked c 0))
    ∧ (∀ main_app c,
         head (glob env (app_dir opts) "Payload/*.app") = Some main_app →
         c ∈ discover env main_app → codesign_status env c = 0).
Proof.
  intros Hrun. apply sign_reaches_scheduler in Hrun
    as [[_ Hne] | (main_app & m & om & st1 & Hhead & Hm1 & Hrun)]; [done |].
  apply run_scheduler_dispatches in Hrun as (evs & Hevs & _ & Hok).
  destruct (Hok eq_refl) as [Hall Hchecked].
  exists evs. split; [by rewrite Hevs, Hm1 |]. split; [exact Hchecked |].
  intros main_app' c Hhead' Hc. rewrite Hhead in Hhead'. injection Hhead' as <-.
  rewrite <- Hall in Hc. unfold dispatched in Hc.
  apply list_elem_of_omap in Hc as (ev & Hev & Hdisp).
  destruct ev as [c'| |]; try discriminate Hdisp. injection Hdisp as ->.
  apply list_elem_of_lookup_1 in Hev as [i Hi]. by destruct (Hchecked i c Hi).
Qed.

(** A session dispatches the components in the order of their discovery,
    each once, and nothing else; when it goes through it has dispatched
    all of them, the main application last. *)
Theorem session_dispatches_in_discovery_order (env : Env) (opts : SignOpts) (st st' : St)
    (r : Result unit) :
  sign env opts st = (r, st') →
  ∃ evs,
    marks st' = marks st ++ evs
    ∧ match head (glob env (app_dir opts) "Payload/*.app") with
      | None => evs = []
      | Some main_app =>
          dispatched evs `prefix_of` discover env main_app
          ∧ (r = Ok tt →
             dispatched evs = discover env main_app
             ∧ last (dispatched evs) = Some main_app)
      end.
Proof.
  intros Hrun. pose proof Hrun as Hrun'. apply sign_reaches_scheduler in Hrun'
    as [[Hsame Hne] | (main_app & m & om & st1 & Hhead & Hm1 & Hsched)].
  - exists []. rewrite app_nil_r. split; [done |].
    destruct (head _); [| done]. split; [apply prefix_nil | done].
  - apply run_scheduler_dispatches in Hsched as (evs & Hevs & Hpre & Hok).
    exists evs. split; [by rewrite Hevs, Hm1 |]. rewrite Hhead. split; [done |].
    intros ->. destruct (Hok eq_refl) as [-> _]. split; [done |].
    unfold discover. apply last_snoc.
Qed.

(** Lines 499 to 509 write no file. *)
Lemma settle_contained_same_fs (env : Env) (component : Path) (keys : list Path)
    (jobs : list (Path * Popen)) (st st' : St) (r : Result (list (Path * Popen))) :
  settle_contained env component keys jobs st = (r, st') → fs st' = fs st.
Proof.
  pose (R := λ a b : St, fs b = fs a).
  assert (PreOrder R) by (split; [done | intros a b c; unfold R; congruence]).
  assert (∀ keys jobs0, steps R (settle_contained env component keys jobs0)) as Hsteps.
  { intros keys0. induction keys0 as [|k keys0 IH]; intros jobs0; simpl; [done |].
    destruct (dict_get k jobs0); [| done].
    destruct (relative_to k component); [| apply IH].
    apply (steps_bind R); [done | intros running].
    apply (steps_bind R); [by destruct running | intros _].
    apply (steps_bind R); [| intros _; apply IH].
    unfold popen_check. apply (steps_bind R); [done | intros _]. by case_bool_decide. }
  intros Hrun. exact (steps_run R _ _ _ _ (Hsteps _ _) Hrun).
Qed.

(** Lines 499 to 509.  Before a component is dispatched, the jobs of the
    table whose paths lie in it, and only they, are checked and dropped
    from the table, each after a wait when it was still running; every
    other job stays in the table as it was and is neither waited for nor
    checked. *)
Theorem settle_contained_leaves_other_jobs (env : Env) (component : Path)
    (jobs jobs' : list (Path * Popen)) (st st' : St) :
  jobs_wf jobs →
  settle_contained env component (map fst jobs) jobs st = (Ok jobs', st') →
  (∀ p, relative_to p component = false → dict_get p jobs' = dict_get p jobs)
  ∧ (∀ p, relative_to p component = true → dict_get p jobs' = None)
  ∧ fs st' = fs st
  ∧ ∃ evs,
      marks st' = marks st ++ evs
      ∧ Forall (settles component) evs
      ∧ ∀ p, p ∈ map fst jobs → relative_to p component = true → Checked p 0 ∈ evs.
Proof.
  intros Hwf Hrun.
  pose proof (settle_contained_same_fs _ _ _ _ _ _ _ Hrun) as Hfs.
  apply (settle_contained_spec _ _ _ _ _ _ _ (map Dispatched (map fst jobs))) in Hrun
    as (evs & Hevs & Hsettles & Hwf' & Hpend & Hnone & Hsame); [| done | | done].
  2:{ intros i c Hi. left. rewrite list_lookup_fmap in Hi.
      destruct (map fst jobs !! i) as [p|] eqn:E; [| done]. injection Hi as <-.
      by eapply list_elem_of_lookup_2. }
  split; [done |]. split; [| split; [done |]].
  - intros p Hrel. destruct (dict_get p jobs') as [pipe|] eqn:E; [| done].
    apply dict_get_elem in E.
    assert (p ∈ map fst jobs') as Hp by (apply list_elem_of_fmap; by exists (p, pipe)).
    specialize (Hnone p Hp). congruence.
  - exists evs. split; [done |]. split; [done |]. intros p Hp Hrel.
    apply list_elem_of_lookup_1 in Hp as [i Hi].
    destruct (Hpend i p) as [Hin | (j & Hj & Hcheck)].
    + rewrite lookup_app_l by (rewrite !length_map; apply lookup_lt_Some in Hi;
                               by rewrite length_map in Hi).
      by rewrite list_lookup_fmap, Hi.
    + specialize (Hnone p Hin). congruence.
    + destruct (decide (j < length (map Dispatched (map fst jobs)))%nat) as [Hlt | Hge].
      * rewrite lookup_app_l in Hcheck by done. rewrite list_lookup_fmap in Hcheck.
        by destruct (map fst jobs !! j).
      * rewrite lookup_app_r in Hcheck by lia. by eapply list_elem_of_lookup_2.
Qed.

(** Lines 496 to 521 for a component that is neither an application nor
    an extension: a framework or a library.  When its turn goes through,
    codesign has been started on it with no entitlements file, its
    [SC_Info] directory is gone, and no other file has changed: its
    manifest and its binary are neither rewritten nor patched. *)
Theorem secondary_component_keeps_its_files env opts m om dist (tmpdir component : Path)
    (jobs jobs' : list (Path * Popen)) (st st' : St) :
  path_suffix component ∉ [".appex"; ".app"] →
  sign_components env opts m om dist tmpdir [component] jobs st = (Ok jobs', st') →
  last (trace st') = Some (EvDispatch component None)
  ∧ under (joinpath component "SC_Info") (fs st') = ∅
  ∧ (∀ q, ¬ joinpath component "SC_Info" `prefix_of` q → fs st' !! q = fs st !! q).
Proof.
  intros Hsuffix Hrun. cbn [sign_components] in Hrun.
  rewrite (bind_run _ _ _ _ _ (print_run _ _)) in Hrun.
  apply bind_Ok_inv in Hrun as (jobs1 & st1 & Hsettle & Hrun).
  apply settle_contained_same_fs in Hsettle. simpl in Hsettle.
  rewrite (bind_run _ _ _ _ _ (print_run _ _)) in Hrun.
  rewrite bind_unfold in Hrun. unfold dir_exists at 1, gets at 1 in Hrun.
  rewrite bool_decide_eq_false_2 in Hrun by done.
  apply bind_Ok_inv in Hrun as ([] & st2 & Hleft & Hrun).
  apply bind_Ok_inv in Hrun as (pipe & st3 & Hsign & Hrun). injection Hrun as _ <-.
  unfold sign_secondary in Hsign.
  rewrite (bind_run _ _ _ _ _ (print_run _ _)) in Hsign.
  unfold codesign_async in Hsign. injection Hsign as _ <-.
  split; [simpl; apply last_snoc |]. cbn [fs add_event add_log].
  set (sc_info := joinpath component "SC_Info") in *.
  case_bool_decide as Hthere.
  - rewrite (bind_run _ _ _ _ _ (print_run _ _)) in Hleft.
    rewrite rmtree_run in Hleft. injection Hleft as <-. cbn [fs set_fs add_log].
    split; [apply under_outside |]. intros q Hq.
    rewrite lookup_outside by done. by rewrite Hsettle.
  - injection Hleft as <-. cbn [fs add_log]. split.
    + destruct (decide (under sc_info (fs st1) = ∅)) as [He | Hne]; [done |].
      by destruct Hthere.
    + intros q _. by rewrite Hsettle.
Qed.

(** ** The session: what it writes and what it leaves alone *)

(** How [sign] gets to the scheduler, for a relation the steps before it
    keep. *)
Lemma sign_cases (R : St → St → Prop) `{!PreOrder R} (env : Env) (opts : SignOpts)
    (st st' : St) (r : Result unit) :
  (∀ old, steps R (sign_main_bundle_id env opts old)) →
  (∀ main_app, head (glob env (app_dir opts) "Payload/*.app") = Some main_app →
     ∀ cmd check, steps R (plist_buddy cmd (joinpath main_app "Info.plist") check)) →
  (∀ line st, R st (add_log line st)) →
  sign env opts st = (r, st') →
  (R st st' ∧ r ≠ Ok tt)
  ∨ ∃ main_app old_main main_bid st1 st2 st3,
      head (glob env (app_dir opts) "Payload/*.app") = Some main_app
      ∧ plist_buddy (PB_Print "CFBundleIdentifier") (joinpath main_app "Info.plist") true st
        = (Ok old_main, st1)
      ∧ sign_main_bundle_id env opts old_main st1 = (Ok main_bid, st2)
      ∧ R st st3
      ∧ run_scheduler env opts main_bid old_main
          (Py.contains "Distribution" (common_name opts)) (discover env main_app)
          (set_mappings (λ _, ∅)
             (set_fs (insert ["bundle_id.txt"]
                        (FText (if force_original_id opts then old_main else main_bid)))
                st3))
        = (r, st').
Proof.
  intros Hmain Hinfo Hlog. unfold sign. intros Hrun. rewrite bind_unfold in Hrun.
  destruct (glob env (app_dir opts) "Payload/*.app") as [|main_app others] eqn:Hglob.
  { injection Hrun as <- <-. by left. }
  specialize (Hinfo main_app eq_refl).
  cbn [mret M_ret] in Hrun. cbv zeta in Hrun.
  rewrite bind_unfold in Hrun.
  destruct (plist_buddy (PB_Print "CFBundleIdentifier") (joinpath main_app "Info.plist")
              true st) as [[om|e|] st1] eqn:E1;
    pose proof (steps_run R _ _ _ _ (Hinfo _ _) E1) as T1;
    [| injection Hrun as <- <-; by left..].
  rewrite bind_unfold in Hrun.
  destruct (sign_main_bundle_id env opts om st1) as [[m|e|] st2] eqn:E2;
    pose proof (steps_run R _ _ _ _ (Hmain _) E2) as T2;
    [| injection Hrun as <- <-; left; split; [by etrans | done]..].
  rewrite bind_unfold in Hrun.
  assert (steps R
            (match bundle_name opts with
             | Some (String a rest) =>
                 _ ← print ("Setting CFBundleDisplayName to " +:+ String a rest);
                 _ ← plist_buddy (PB_Delete "CFBundleDisplayName")
                       (joinpath main_app "Info.plist") false;
                 _ ← plist_buddy (PB_Add "CFBundleDisplayName" TString (String a rest))
                       (joinpath main_app "Info.plist") true;
                 mret tt
             | _ => mret tt
             end)) as Hname.
  { destruct (bundle_name opts) as [[|a rest]|];
      [apply (steps_ret R) | | apply (steps_ret R)].
    repeat (apply (steps_bind R); [| intros ?]);
      first [apply Hinfo | apply (steps_ret R) | intros ?; apply Hlog]. }
  match type of Hrun with
  | match ?x with _ => _ end = _ =>
      assert (R st2 x.2) as T3 by exact (Hname st2);
      destruct x as [[[]|e|] st3]
  end.
  all: simpl in T3.
  2,3: injection Hrun as <- <-; left; split; [by do 2 (etrans; [eassumption |]) | done].
  rewrite (bind_run _ _ _ _ _ (write_file_run _ _ _)) in Hrun.
  rewrite bind_unfold in Hrun. unfold modify at 1 in Hrun.
  right. exists main_app, om, m, st1, st2, st3. split; [done |]. split; [done |].
  split; [done |]. split; [| exact Hrun].
  by do 2 (etrans; [eassumption |]).
Qed.

Lemma sign_main_bundle_id_same_file env opts old (q : Path) :
  ¬ temporary q → steps (same_file q) (sign_main_bundle_id env opts old).
Proof.
  intros Hq.
  apply (steps_sign_main_bundle_id (same_file q) (λ p, p ≠ q) (λ p, p ≠ q)); try done.
  - by intros p Hp ->.
  - by intros p Hp ->.
  - intros p c st Hp. by apply same_file_insert.
  - intros d st Hd. apply same_file_outside. intros Hpre. by apply (Hd q).
Qed.

Lemma plist_buddy_same_file cmd (p q : Path) check :
  p ≠ q → steps (same_file q) (plist_buddy cmd p check).
Proof.
  intros Hp. apply (steps_plist_buddy (same_file q) (λ p, p ≠ q)); [| done].
  intros p' c st Hp'. by apply same_file_insert.
Qed.

(** The scheduler changes no file but those of the components, the
    temporary ones and the provisioning profiles of the system
    location. *)
Lemma run_scheduler_same_file env opts m om dist (cs : list Path) (q : Path) :
  ¬ temporary q →
  ¬ prov_profiles_dir `prefix_of` q →
  (∀ c, c ∈ cs →
     joinpath c "Info.plist" ≠ q ∧ joinpath c (path_stem c) ≠ q
     ∧ joinpath c "embedded.mobileprovision" ≠ q
     ∧ ¬ joinpath c "SC_Info" `prefix_of` q) →
  steps (same_file q) (run_scheduler env opts m om dist cs).
Proof.
  intros Htmp Hprov Hcs.
  apply (steps_run_scheduler (same_file q) (λ p, p ≠ q) (λ p, p ≠ q) (λ p, p ≠ q));
    try done.
  - by intros p Hp ->.
  - by intros p Hp ->.
  - intros n Heq. apply Hprov. rewrite <- Heq. by apply prefix_app_r.
  - by intros p Hp ->.
  - intros p c st Hp. by apply same_file_insert.
  - intros p st Hp. unfold same_file. simpl. by rewrite lookup_delete_ne.
  - intros d st Hd. apply same_file_outside. intros Hpre. by apply (Hd q).
  - intros extra st Hextra. unfold same_file. simpl. apply lookup_union_r.
    destruct (extra !! q) eqn:E; [| done]. by destruct (Hextra q).
  - intros f o nw c st Hf _. by apply same_file_insert.
  - intros env' opts' a st. unfold same_file, remap, gets. rewrite bind_unfold.
    destruct (mappings st !! a); [done |]. by destruct (encode_ids opts').
  - intros c Hc. destruct (Hcs c Hc) as (H1 & H2 & H3 & H4).
    split; [done |]. split; [done |]. split; [done |]. by intros p Hp ->.
Qed.

(** What [sign] never touches.  A file that is not [bundle_id.txt], not
    a temporary file, not a provisioning profile of the system location
    and, for every component discovered, neither its manifest, its
    binary, its embedded profile nor something under its [SC_Info], is
    after the session what it was before, however the session ends: the
    template project, the supplied profile and everything else in the
    bundle are only read. *)
Theorem sign_leaves_other_files (env : Env) (opts : SignOpts) (st st' : St)
    (r : Result unit) (q : Path) :
  sign env opts st = (r, st') →
  q ≠ ["bundle_id.txt"] →
  ¬ temporary q →
  ¬ prov_profiles_dir `prefix_of` q →
  (∀ main_app c,
     head (glob env (app_dir opts) "Payload/*.app") = Some main_app →
     c ∈ discover env main_app →
     joinpath c "Info.plist" ≠ q ∧ joinpath c (path_stem c) ≠ q
     ∧ joinpath c "embedded.mobileprovision" ≠ q
     ∧ ¬ joinpath c "SC_Info" `prefix_of` q) →
  fs st' !! q = fs st !! q.
Proof.
  intros Hrun Hbid Htmp Hprov Hcs.
  apply (sign_cases (same_file q)) in Hrun
    as [[Hsame _] | (main_app & om & m & st1 & st2 & st3 & Hhead & _ & _ & Hsame & Hrun)].
  - exact Hsame.
  - apply (steps_run (same_file q)) in Hrun.
    + unfold same_file in *. rewrite Hrun. simpl. by rewrite lookup_insert_ne.
    + apply run_scheduler_same_file; [done | done |]. intros c Hc. by apply (Hcs main_app).
  - intros old. by apply sign_main_bundle_id_same_file.
  - intros main_app Hhead cmd check. apply plist_buddy_same_file.
    destruct (Hcs main_app main_app Hhead) as [H _]; [| done].
    unfold discover. apply elem_of_app. right. apply list_elem_of_here.
  - done.
Qed.

(** Lines 225 to 229.  However the session ends, [bundle_id.txt] is
    either as it was before, when the session fails before line 225, or
    it records the identifier chosen: the file is written before the
    first component is prepared and stays as written when signing fails
    later. *)
Theorem bundle_id_txt_untouched_or_written (env : Env) (opts : SignOpts) (st st' : St)
    (r : Result unit) :
  sign env opts st = (r, st') →
  (fs st' !! ["bundle_id.txt"] = fs st !! ["bundle_id.txt"] ∧ r ≠ Ok tt)
  ∨ ∃ main_app old_main main_bid st1 st2,
      head (glob env (app_dir opts) "Payload/*.app") = Some main_app
      ∧ plist_buddy (PB_Print "CFBundleIdentifier") (joinpath main_app "Info.plist") true st
        = (Ok old_main, st1)
      ∧ sign_main_bundle_id env opts old_main st1 = (Ok main_bid, st2)
      ∧ fs st' !! ["bundle_id.txt"]
        = Some (FText (if force_original_id opts then old_main else main_bid)).
Proof.
  intros Hrun.
  assert (¬ temporary ["bundle_id.txt"]) as Htmp by (intros [k Hk]; discriminate Hk).
  apply (sign_cases (same_file ["bundle_id.txt"])) in Hrun
    as [[Hsame Hne] | (main_app & om & m & st1 & st2 & st3 & Hhead & H1 & H2 & _ & Hrun)].
  - by left.
  - right. exists main_app, om, m, st1, st2. split; [done |]. split; [done |].
    split; [done |].
    pose proof (steps_run _ _ _ _ _ (run_scheduler_same_bundle_id_txt _ _ _ _ _ _) Hrun) as F.
    unfold same_file in F. rewrite F. simpl. apply lookup_insert_eq.
  - intros old. by apply sign_main_bundle_id_same_file.
  - intros main_app _ cmd check. apply plist_buddy_same_file. by apply single_ne_joinpath.
  - done.
Qed.

(** Lines 186 to 188.  Without a main application under [Payload], or
    with a main application whose manifest cannot be read or has no
    bundle identifier, the session fails at once: nothing is written,
    logged or started. *)
Theorem sign_needs_a_main_application (env : Env) (opts : SignOpts) (st : St) :
  (glob env (app_dir opts) "Payload/*.app" = [] →
   sign env opts st = (Raise (MkExn KStopIteration EmptyString None), st))
  ∧ (∀ main_app others,
       glob env (app_dir opts) "Payload/*.app" = main_app :: others →
       (∀ m, fs st !! joinpath main_app "Info.plist" = Some (FPlist m) →
             m !! "CFBundleIdentifier" = None) →
       sign env opts st = (Raise (process_failed "/usr/libexec/PlistBuddy"), st)).
Proof.
  split.
  - intros Hglob. unfold sign. by rewrite bind_unfold, Hglob.
  - intros main_app others Hglob Hinfo. unfold sign. rewrite bind_unfold, Hglob.
    cbn [mret M_ret]. cbv zeta. rewrite bind_unfold. unfold plist_buddy at 1.
    destruct (fs st !! joinpath main_app "Info.plist") as [[s|m|m]|] eqn:E; try done.
    simpl. by rewrite (Hinfo m eq_refl).
Qed.

(** ** The provisioning profiles of the system location *)

(** Removing files that are there, each once. *)
Lemma for_each_os_remove (l : list Path) (st : St) :
  NoDup l → (∀ p, p ∈ l → is_Some (fs st !! p)) →
  ∃ st',
    for_each l os_remove st = (Ok tt, st')
    ∧ ∀ q, fs st' !! q = if bool_decide (q ∈ l) then None else fs st !! q.
Proof.
  revert st. induction l as [|p l IH]; intros st Hnd Hall.
  - exists st. split; [done |]. intros q. rewrite bool_decide_eq_false_2; [done |].
    apply not_elem_of_nil.
  - apply NoDup_cons in Hnd as [Hp Hnd]. cbn [for_each]. rewrite bind_unfold.
    unfold os_remove at 1. destruct (Hall p (list_elem_of_here _ _)) as [c Hc]. rewrite Hc.
    destruct (IH (set_fs (delete p) st) Hnd) as (st' & Hrun & Hfs).
    { intros q Hq. simpl. rewrite lookup_delete_ne by (by intros ->).
      apply Hall. by apply list_elem_of_further. }
    exists st'. split; [done |]. intros q. rewrite Hfs. simpl.
    destruct (decide (q = p)) as [-> | Hne].
    + rewrite (bool_decide_eq_true_2 (p ∈ p :: l)) by apply list_elem_of_here.
      case_bool_decide; [done | apply lookup_delete_eq].
    + rewrite lookup_delete_ne by done.
      case_bool_decide as Hin.
      * by rewrite bool_decide_eq_true_2 by (by apply list_elem_of_further).
      * rewrite bool_decide_eq_false_2; [done |].
        intros [? | ?]%elem_of_cons; done.
Qed.

Lemma prov_profiles_listed (st : St) (p : Path) :
  p ∈ map fst (map_to_list (under prov_profiles_dir (fs st)))
  ↔ prov_profiles_dir `prefix_of` p ∧ is_Some (fs st !! p).
Proof.
  rewrite list_elem_of_fmap. split.
  - intros ([p' c] & -> & Hin). apply elem_of_map_to_list in Hin.
    apply map_lookup_filter_Some in Hin as [Hc Hpre]. by split; [| exists c].
  - intros [Hpre [c Hc]]. exists (p, c). split; [done |].
    apply elem_of_map_to_list. by apply map_lookup_filter_Some.
Qed.

(** Lines 453 to 456.  With no provisioning profile in the system
    location, taking the first one fails with an [IndexError] and nothing
    changes.  Otherwise one of the profiles there is moved to the
    component, every other one is removed, none of the removals fails,
    and the system location is left empty; no other file changes. *)
Theorem keep_first_profile_outcomes (embedded : Path) (st : St) :
  ¬ prov_profiles_dir `prefix_of` embedded →
  let run := keep_first_profile embedded st in
  (under prov_profiles_dir (fs st) = ∅ →
   run = (Raise (MkExn KIndexError "list index out of range" None), st))
  ∧ (under prov_profiles_dir (fs st) ≠ ∅ →
     run.1 = Ok tt
     ∧ under prov_profiles_dir (fs run.2) = ∅
     ∧ (∃ p c, prov_profiles_dir `prefix_of` p ∧ fs st !! p = Some c
               ∧ fs run.2 !! embedded = Some c)
     ∧ ∀ q, ¬ prov_profiles_dir `prefix_of` q → q ≠ embedded →
            fs run.2 !! q = fs st !! q).
Proof.
  intros Hemb run. split.
  - intros Hnone. unfold run, keep_first_profile, get_prov_profiles, gets.
    by rewrite bind_unfold, Hnone, map_to_list_empty.
  - intros Hsome.
    pose proof (NoDup_fst_map_to_list (under prov_profiles_dir (fs st))) as Hnd.
    change (NoDup (map fst (map_to_list (under prov_profiles_dir (fs st))))) in Hnd.
    pose proof (prov_profiles_listed st) as Hlisted.
    destruct (map fst (map_to_list (under prov_profiles_dir (fs st)))) as [|first others]
      eqn:Hlist.
    { apply fmap_nil_inv in Hlist. by apply map_to_list_empty_iff in Hlist. }
    destruct (proj1 (Hlisted first) (list_elem_of_here _ _)) as [Hpre [c Hc]].
    apply NoDup_cons in Hnd as [Hfirst Hnd].
    destruct (for_each_os_remove others
                (set_fs (λ m, <[embedded := c]> (delete first m)) st) Hnd)
      as (st' & Hrun & Hfs).
    { intros p Hp. simpl.
      destruct (proj1 (Hlisted p) (list_elem_of_further _ _ _ Hp)) as [Hpp Hsomep].
      rewrite lookup_insert_ne by (by intros ->).
      rewrite lookup_delete_ne by (by intros ->). done. }
    assert (run = (Ok tt, st')) as ->.
    { unfold run, keep_first_profile, get_prov_profiles, gets.
      rewrite bind_unfold, Hlist, bind_unfold. unfold move at 1. by rewrite Hc. }
    cbn [fst snd]. split; [done |].
    assert (∀ q, prov_profiles_dir `prefix_of` q → fs st' !! q = None) as Hgone.
    { intros q Hq. rewrite Hfs. case_bool_decide as Hin; [done |]. simpl.
      rewrite lookup_insert_ne by (by intros ->).
      destruct (decide (q = first)) as [-> | Hne]; [apply lookup_delete_eq |].
      rewrite lookup_delete_ne by done.
      destruct (fs st !! q) as [c'|] eqn:E; [| done].
      exfalso. apply Hin.
      assert (q ∈ first :: others) as Hq' by (apply Hlisted; by split; [| exists c']).
      apply elem_of_cons in Hq' as [? | ?]; done. }
    split; [| split].
    + apply map_eq. intros q. rewrite lookup_empty.
      apply map_lookup_filter_None. right. intros c' Hc' Hq. simpl in Hq.
      by rewrite (Hgone q Hq) in Hc'.
    + exists first, c. split; [done |]. split; [done |]. rewrite Hfs.
      rewrite bool_decide_eq_false_2.
      * simpl. apply lookup_insert_eq.
      * intros Hin. apply Hemb.
        by destruct (proj1 (Hlisted embedded) (list_elem_of_further _ _ _ Hin)).
    + intros q Hq Hne. rewrite Hfs. rewrite bool_decide_eq_false_2.
      * simpl. rewrite lookup_insert_ne by done. apply lookup_delete_ne.
        intros <-. by apply Hq.
      * intros Hin. apply Hq.
        by destruct (proj1 (Hlisted q) (list_elem_of_further _ _ _ Hin)).
Qed.

(** ** The profile a component is given *)

Lemma tmp_plist_ne_embedded (n : nat) : tmp_name n +:+ ".plist" ≠ "embedded.mobileprovision".
Proof. unfold tmp_name. rewrite string_app_assoc. discriminate. Qed.

(** Lines 252 to 269 and 460 to 491.  When a provisioning profile is
    supplied, from another place than the component itself, and a
    primary component has been signed, the component's
    [embedded.mobileprovision] is a copy of the supplied profile. *)
Theorem sign_primary_embeds_the_supplied_profile env opts m om dist
    (component workdir pf : Path) (c : File) (st st' : St) (pipe : Popen) :
  prov_file opts = Some pf →
  fs st !! pf = Some c →
  pf ≠ joinpath component "embedded.mobileprovision" →
  ¬ temporary component →
  ¬ workdir `prefix_of` pf →
  sign_primary env opts m om dist component workdir st = (Ok pipe, st') →
  fs st' !! joinpath component "embedded.mobileprovision" = Some c.
Proof.
  intros Hopt Hpf _ Hcomp Hwork Hrun.
  set (embedded := joinpath component "embedded.mobileprovision").
  set (ent := joinpath workdir (tmp_name (tmp_count st) +:+ ".plist")).
  assert (¬ temporary embedded) as Htmp by by apply not_temporary_joinpath.
  assert (ent ≠ embedded) as Hent by apply joinpath_ne_name, tmp_plist_ne_embedded.
  assert (joinpath component "Info.plist" ≠ embedded) as Hinfo
    by by apply joinpath_ne_name.
  assert (pf ≠ ent) as Hpfent.
  { intros ->. apply Hwork. by apply prefix_app_r. }
  assert (∀ p c0 s, p ≠ embedded → same_file embedded s (set_fs (insert p c0) s)) as Hins.
  { intros p c0 s Hp. by apply same_file_insert. }
  apply sign_primary_inv in Hrun as (old & st_b & st_c & Hprint & Hmid & Hfin).
  fold ent embedded in Hprint, Hmid, Hfin.
  pose proof (steps_run (same_file pf) _ _ _ _
                (steps_plist_buddy_print (same_file pf) _ _ _) Hprint) as Fpf.
  unfold sign_primary_entitlements in Hmid. rewrite Hopt in Hmid.
  unfold sign_primary_prov in Hmid.
  apply bind_Ok_inv in Hmid as ([] & st1 & Hcopy & Hrest).
  unfold copy2 in Hcopy.
  assert (fs st_b !! pf = Some c) as Hpfb.
  { unfold same_file in Fpf. rewrite Fpf. simpl. by rewrite lookup_insert_ne. }
  rewrite Hpfb in Hcopy. injection Hcopy as <-.
  assert (steps (same_file embedded)
    (_ ← dump_prov_entitlements_plist embedded ent;
     prov_app_id ← plist_buddy (PB_Print "application-identifier") ent true;
     (let component_app_id := team_id opts +:+ "." +:+ component_bundle_id m om old in
      if String.eqb prov_app_id component_app_id || Py.contains "*" prov_app_id then
        _ ← plist_buddy (PB_Set "application-identifier" component_app_id) ent true;
        mret tt
      else
        print ("WARNING: Provisioning profile's app id '" +:+ prov_app_id
               +:+ "' does not match component's app id '" +:+ component_app_id +:+ "'."
               +:+ String Py.newline
                     "Using provisioning profile's app id - the component will run, but its entitlements will be broken!")))) as Hsteps.
  { apply (steps_bind (same_file embedded)); [| intros _].
    { apply (steps_dump_prov_entitlements_plist (same_file embedded)
               (λ p, p ≠ embedded) (λ p, p ≠ embedded)); try done.
      - by intros p Hp ->.
      - by intros p Hp ->.
      - intros d s Hd. apply same_file_outside. intros Hpre. by apply (Hd embedded). }
    apply (steps_bind (same_file embedded));
      [apply (steps_plist_buddy_print (same_file embedded)) | intros app_id].
    cbv zeta. destruct (_ || _); [| done].
    apply (steps_bind (same_file embedded)); [| done].
    by apply (steps_plist_buddy (same_file embedded) (λ p, p ≠ embedded)). }
  pose proof (steps_run _ _ _ _ _ Hsteps Hrest) as F1.
  assert (steps (same_file embedded)
            (sign_primary_finish env opts component old (component_bundle_id m om old)
               (joinpath component "Info.plist") ent)) as Hfinish.
  { by apply (steps_sign_primary_finish (same_file embedded) (λ p, p ≠ embedded)). }
  pose proof (steps_run _ _ _ _ _ Hfinish Hfin) as F2.
  unfold same_file in F1, F2. rewrite F2, F1. simpl. apply lookup_insert_eq.
Qed.

(** ** The memo table within one set of options *)

Lemma canonical_empty (env : Env) (opts : SignOpts) : canonical env opts ∅.
Proof. intros a v H. by rewrite lookup_empty in H. Qed.

#[local] Instance keeps_canonical_preorder (env : Env) (opts : SignOpts) :
  PreOrder (keeps_canonical env opts).
Proof.
  split; [intros st H; exact H |]. intros a b c Hab Hbc H. apply Hbc, Hab, H.
Qed.

Lemma remap_keeps_canonical env opts a : steps (keeps_canonical env opts) (remap env opts a).
Proof.
  intros st Hcan. unfold remap, gets. rewrite bind_unfold.
  destruct (mappings st !! a) eqn:E; [done |].
  assert (canonical env opts (<[a := remap_value env opts a]> (mappings st))) as H.
  { intros b v Hb. destruct (decide (a = b)) as [<- | Hne].
    - rewrite lookup_insert_eq in Hb. by injection Hb as <-.
    - rewrite lookup_insert_ne in Hb by done. by apply Hcan. }
  unfold remap_value in H. by destruct (encode_ids opts).
Qed.

Lemma same_mappings_keeps_canonical env opts (st st' : St) :
  mappings st' = mappings st → keeps_canonical env opts st st'.
Proof. intros H Hcan. by rewrite H. Qed.

Lemma plist_buddy_keeps_canonical env opts cmd p check :
  steps (keeps_canonical env opts) (plist_buddy cmd p check).
Proof.
  apply (steps_plist_buddy (keeps_canonical env opts) (λ _, True)); [| done].
  intros p' c st _. by apply same_mappings_keeps_canonical.
Qed.

Lemma remap_group_keeps_canonical env opts plist bid group patches :
  steps (keeps_canonical env opts) (remap_group env opts plist bid group patches).
Proof.
  destruct group as [[entitlement prefix] parents]. unfold remap_group.
  set (R := keeps_canonical env opts).
  apply (steps_bind R).
  { apply (steps_try_except R); [apply plist_buddy_keeps_canonical | apply (steps_ret R)]. }
  intros printed. cbv zeta.
  apply (steps_bind R).
  { case_bool_decide; [apply (steps_default_remap_ids R) | apply (steps_ret R)]. }
  intros remap_ids. case_bool_decide; [apply (steps_ret R) |].
  apply (steps_bind R).
  { apply (steps_for_each R). intros a. apply remap_keeps_canonical. }
  intros _. apply (steps_bind R); [apply plist_buddy_keeps_canonical | intros _].
  apply (steps_bind R); [apply plist_buddy_keeps_canonical | intros _].
  apply (steps_add_remapped R (λ _, True)); [| done].
  intros p' c st _. by apply same_mappings_keeps_canonical.
Qed.

(** Lines 345 to 410.  With the options of a session, the replacement
    the memo table holds for an identifier is a function of the
    identifier alone: a table whose entries are the ones the options give
    stays such a table through the rewriting of the grouped identifiers,
    so that "first seen wins" never has two candidates to choose between;
    without encoding every identifier is mapped to itself. *)
Theorem remap_groups_keep_the_table_canonical env opts (plist : Path) (bid : string)
    (groups : list (string * string * list string)) (patches : list (string * string))
    (st : St) :
  canonical env opts (mappings st) →
  let st' := (remap_groups env opts plist bid groups patches st).2 in
  canonical env opts (mappings st')
  ∧ (encode_ids opts = false → ∀ a v, mappings st' !! a = Some v → v = a).
Proof.
  intros Hcan st'.
  assert (canonical env opts (mappings st')) as H.
  { revert Hcan. change (keeps_canonical env opts st st'). unfold st'. clear st'.
    revert patches st. induction groups as [|g groups IH]; intros patches st; [done |].
    cbn [remap_groups].
    apply (steps_bind (keeps_canonical env opts));
      [apply remap_group_keeps_canonical | intros patches'; intros st0; apply IH]. }
  split; [done |]. intros Hflag a v Hav. apply H in Hav. unfold remap_value in Hav.
  by rewrite Hflag in Hav.
Qed.

(** ** The grouped identifiers: reading PlistBuddy's print-out *)










(** ** The grouped identifiers: the table, the manifest and the patches *)

Lemma remapped_after (env : Env) (opts : SignOpts) (table : gmap string string)
    (a b : string) :
  table !! a = None →
  remapped env opts (<[a := remap_value env opts a]> table) b = remapped env opts table b.
Proof.
  intros Ha. unfold remapped. destruct (decide (a = b)) as [<- | Hne].
  - by rewrite lookup_insert_eq, Ha.
  - by rewrite lookup_insert_ne.
Qed.

(** Lines 385 to 393 for a list of identifiers. *)
Lemma for_each_remap_run (env : Env) (opts : SignOpts) (ids : list string) (st : St) :
  ∃ table,
    for_each ids (remap env opts) st = (Ok tt, set_mappings (λ _, table) st)
    ∧ ∀ a, table !! a
           = if bool_decide (a ∈ ids) then Some (remapped env opts (mappings st) a)
             else mappings st !! a.
Proof.
  revert st. induction ids as [|a ids IH]; intros st.
  - exists (mappings st). split; [by destruct st |]. intros a.
    rewrite bool_decide_eq_false_2; [done | apply not_elem_of_nil].
  - cbn [for_each]. rewrite bind_unfold. unfold remap at 1, gets at 1.
    rewrite bind_unfold.
    assert (∃ st1,
              match mappings st !! a with
              | Some _ => mret tt
              | None =>
                  if encode_ids opts then
                    modify (set_mappings (insert a
                      (gen_id env a match bundle_id opts with
                                    | Some (String x rest) => String x rest
                                    | _ => a +:+ team_id opts
                                    end)))
                  else modify (set_mappings (insert a a))
              end st = (Ok tt, st1)
              ∧ (∃ t1, st1 = set_mappings (λ _, t1) st
                       ∧ t1 !! a = Some (remapped env opts (mappings st) a)
                       ∧ (∀ b, b ≠ a → t1 !! b = mappings st !! b)
                       ∧ ∀ b, remapped env opts t1 b = remapped env opts (mappings st) b))
      as (st1 & Hstep & t1 & -> & Ha & Hother & Hsame).
    { destruct (mappings st !! a) as [v|] eqn:E.
      - exists st. split; [done |]. exists (mappings st). split; [by destruct st |].
        split; [by unfold remapped; rewrite E |]. done.
      - exists (set_mappings (insert a (remap_value env opts a)) st). split.
        + unfold remap_value. by destruct (encode_ids opts).
        + exists (<[a := remap_value env opts a]> (mappings st)). split; [done |].
          split; [by unfold remapped; rewrite lookup_insert_eq, E |].
          split; [by intros b Hb; rewrite lookup_insert_ne |].
          intros b. by apply remapped_after. }
    rewrite Hstep.
    destruct (IH (set_mappings (λ _, t1) st)) as (table & Hrun & Htable).
    exists table. split; [exact Hrun |]. intros b. rewrite Htable. simpl.
    destruct (decide (b = a)) as [-> | Hne].
    + rewrite (bool_decide_eq_true_2 (a ∈ a :: ids)) by apply list_elem_of_here.
      case_bool_decide; [by rewrite Hsame | done].
    + case_bool_decide as Hin.
      * rewrite bool_decide_eq_true_2 by (by apply list_elem_of_further). by rewrite Hsame.
      * rewrite bool_decide_eq_false_2; [by apply Hother |].
        intros [? | ?]%elem_of_cons; done.
Qed.

Lemma insert_at_end {A} (x : A) (l : list A) : PlistBuddy.insert_at (length l) x l = l ++ [x].
Proof. unfold PlistBuddy.insert_at. by rewrite firstn_all, skipn_all. Qed.

(** Lines 405 to 410 on an array that has [i] entries. *)
Lemma add_remapped_run (entitlement prefix : string) (plist : Path) (ids : list string)
    (new_id : string → string) (patches : list (string * string)) (mm : Plist)
    (arr : list PVal) (st : St) :
  fs st !! plist = Some (FPlist mm) →
  mm !! entitlement = Some (PArray arr) →
  (∀ a, a ∈ ids → mappings st !! a = Some (new_id a)) →
  ∃ st',
    add_remapped entitlement prefix plist (length arr) ids patches st
    = (Ok (foldl (λ d a, dict_set (prefix +:+ a) (prefix +:+ new_id a) d) patches ids), st')
    ∧ fs st'
      = <[plist := FPlist (<[entitlement :=
                               PArray (arr ++ map (λ a, PString (prefix +:+ new_id a)) ids)]>
                             mm)]> (fs st)
    ∧ mappings st' = mappings st.
Proof.
  revert patches mm arr st. induction ids as [|a ids IH]; intros patches mm arr st Hp He Hall.
  - exists st. split; [done |]. split; [| done]. rewrite app_nil_r.
    by rewrite (insert_id mm), insert_id.
  - cbn [add_remapped]. rewrite bind_unfold. unfold mapping_of at 1.
    rewrite (Hall a (list_elem_of_here _ _)).
    erewrite bind_run; [| by eapply plist_buddy_add_at_run].
    rewrite insert_at_end.
    destruct (IH (dict_set (prefix +:+ a) (prefix +:+ new_id a) patches)
                (<[entitlement := PArray (arr ++ [PlistBuddy.value_of TString
                                                    (prefix +:+ new_id a)])]> mm)
                (arr ++ [PlistBuddy.value_of TString (prefix +:+ new_id a)])
                (set_fs (insert plist
                           (FPlist (<[entitlement :=
                                        PArray (arr ++ [PlistBuddy.value_of TString
                                                          (prefix +:+ new_id a)])]> mm))) st))
      as (st' & Hrun & Hfs & Hmap).
    + apply fs_after_insert.
    + apply lookup_insert_eq.
    + intros b Hb. simpl. apply Hall. by apply list_elem_of_further.
    + rewrite length_app, Nat.add_1_r in Hrun.
      exists st'. split; [exact Hrun |]. split; [| by rewrite Hmap].
      rewrite Hfs. simpl. rewrite !insert_insert_eq, <- app_assoc. done.
Qed.

(** Lines 385 to 410 for the identifiers found or defaulted. *)
Lemma remap_group_tail_run (env : Env) (opts : SignOpts) (entitlement prefix : string)
    (plist : Path) (ids : list string) (patches : list (string * string)) (m : Plist)
    (st : St) :
  fs st !! plist = Some (FPlist m) →
  ∃ st',
    (_ ← for_each ids (remap env opts);
     _ ← plist_buddy (PB_Delete entitlement) plist false;
     _ ← plist_buddy (PB_Add entitlement TArray EmptyString) plist true;
     add_remapped entitlement prefix plist O ids patches) st
    = (Ok (foldl (λ d a, dict_set (prefix +:+ a)
                           (prefix +:+ remapped env opts (mappings st) a) d) patches ids),
       st')
    ∧ fs st'
      = <[plist := FPlist (<[entitlement :=
                               PArray (map (λ a, PString (prefix +:+
                                                 remapped env opts (mappings st) a)) ids)]>
                             m)]> (fs st)
    ∧ ∀ a, mappings st' !! a
           = if bool_decide (a ∈ ids) then Some (remapped env opts (mappings st) a)
             else mappings st !! a.
Proof.
  intros Hp. destruct (for_each_remap_run env opts ids st) as (table & Hremap & Htable).
  rewrite (bind_run _ _ _ _ _ Hremap).
  erewrite bind_run; [| by apply plist_buddy_delete_run].
  erewrite bind_run;
    [| apply plist_buddy_add_run; [apply fs_after_insert | apply lookup_delete_eq]].
  destruct (add_remapped_run entitlement prefix plist ids
              (remapped env opts (mappings st)) patches
              (<[entitlement := PlistBuddy.value_of TArray EmptyString]>
                 (delete entitlement m)) []
              (set_fs (insert plist
                         (FPlist (<[entitlement := PlistBuddy.value_of TArray EmptyString]>
                                    (delete entitlement m))))
                 (set_fs (insert plist (FPlist (delete entitlement m)))
                    (set_mappings (λ _, table) st))))
    as (st' & Hrun & Hfs & Hmap).
  - apply fs_after_insert.
  - apply lookup_insert_eq.
  - intros a Ha. simpl. rewrite Htable. by rewrite bool_decide_eq_true_2.
  - exists st'. split; [exact Hrun |]. split.
    + rewrite Hfs. simpl. rewrite !insert_insert_eq. do 2 f_equal.
      apply map_eq. intros k. destruct (decide (k = entitlement)) as [-> | Hne].
      * by rewrite !lookup_insert_eq.
      * by rewrite !lookup_insert_ne, lookup_delete_ne by done.
    + intros a. rewrite Hmap. simpl. apply Htable.
Qed.


Lemma plist_buddy_print_missing (k : string) (p : Path) (m : Plist) (st : St) :
  fs st !! p = Some (FPlist m) → m !! k = None →
  plist_buddy (PB_Print k) p true st = (Raise (process_failed "/usr/libexec/PlistBuddy"), st).
Proof. intros Hp Hk. unfold plist_buddy. rewrite Hp. simpl. by rewrite Hk. Qed.

Lemma default_remap_ids_none (parents : list string) (plist : Path) (bid : string)
    (m : Plist) (st : St) :
  fs st !! plist = Some (FPlist m) →
  Forall (λ parent, m !! parent = None) parents →
  default_remap_ids parents plist bid st = (Ok [], st).
Proof.
  intros Hp. induction 1 as [|parent parents Hk _ IH]; [done |].
  cbn [default_remap_ids]. unfold try_except. rewrite bind_unfold.
  by rewrite (plist_buddy_print_missing _ _ _ _ Hp Hk).
Qed.

Lemma default_remap_ids_found (before after : list string) (parent : string) (plist : Path)
    (bid : string) (m : Plist) (st : St) :
  fs st !! plist = Some (FPlist m) →
  Forall (λ parent, m !! parent = None) before →
  is_Some (m !! parent) →
  default_remap_ids (before ++ parent :: after) plist bid st = (Ok [bid], st).
Proof.
  intros Hp Hbefore [v Hv]. induction Hbefore as [|p before Hk _ IH].
  - cbn [app default_remap_ids]. unfold try_except. rewrite bind_unfold.
    by rewrite (plist_buddy_print_run _ _ _ _ _ Hp Hv).
  - cbn [app default_remap_ids]. unfold try_except. rewrite bind_unfold.
    by rewrite (plist_buddy_print_missing _ _ _ _ Hp Hk).
Qed.

(** What line 366 makes of an entitlement that is absent or an empty
    array: no identifier. *)
Lemma no_identifiers_listed (entitlement prefix : string) (plist : Path) (m : Plist)
    (st : St) :
  fs st !! plist = Some (FPlist m) →
  m !! entitlement = None ∨ m !! entitlement = Some (PArray []) →
  ∃ printed,
    try_except (plist_buddy (PB_Print entitlement) plist true) (mret EmptyString) st
    = (Ok printed, st)
    ∧ map (λ remap_id, Py.drop (String.length prefix) (Py.strip remap_id))
        (Py.middle (Py.splitlines printed)) = [].
Proof.
  intros Hp [He | He]; unfold try_except.
  - rewrite (plist_buddy_print_missing _ _ _ _ Hp He). by exists EmptyString.
  - rewrite (plist_buddy_print_run _ _ _ _ _ Hp He). by eexists.
Qed.

(** Lines 356 to 383.  An entitlement that lists no identifier, absent
    or an empty array, is left alone when none of the capabilities that
    need one is there: nothing is remapped, written or recorded. *)
Theorem remap_group_without_identifiers (env : Env) (opts : SignOpts) (plist : Path)
    (bid entitlement prefix : string) (parents : list string)
    (patches : list (string * string)) (m : Plist) (st : St) :
  fs st !! plist = Some (FPlist m) →
  m !! entitlement = None ∨ m !! entitlement = Some (PArray []) →
  Forall (λ parent, m !! parent = None) parents →
  remap_group env opts plist bid (entitlement, prefix, parents) patches st = (Ok patches, st).
Proof.
  intros Hp He Hparents. unfold remap_group.
  destruct (no_identifiers_listed entitlement prefix plist m st Hp He) as (printed & Hpr & Hl).
  rewrite (bind_run _ _ _ _ _ Hpr). cbv zeta. rewrite Hl.
  rewrite bool_decide_eq_true_2 by (simpl; lia).
  rewrite (bind_run _ _ _ _ _ (default_remap_ids_none _ _ _ _ _ Hp Hparents)).
  by rewrite bool_decide_eq_true_2 by (simpl; lia).
Qed.

(** Lines 368 to 410.  An entitlement that lists no identifier gets a
    default one when a capability that needs it is there: the
    replacement of the component's bundle identifier, with the prefix, as
    the only entry of the array, recorded as a patch like any other. *)
Theorem remap_group_defaults_to_the_bundle_identifier (env : Env) (opts : SignOpts)
    (plist : Path) (bid entitlement prefix parent : string) (before after : list string)
    (patches : list (string * string)) (m : Plist) (st : St) :
  fs st !! plist = Some (FPlist m) →
  m !! entitlement = None ∨ m !! entitlement = Some (PArray []) →
  Forall (λ parent, m !! parent = None) before →
  is_Some (m !! parent) →
  ∃ st',
    remap_group env opts plist bid (entitlement, prefix, before ++ parent :: after) patches st
    = (Ok (dict_set (prefix +:+ bid) (prefix +:+ remapped env opts (mappings st) bid)
             patches), st')
    ∧ fs st'
      = <[plist := FPlist (<[entitlement :=
                               PArray [PString (prefix +:+
                                                remapped env opts (mappings st) bid)]]> m)]>
          (fs st)
    ∧ mappings st' !! bid = Some (remapped env opts (mappings st) bid)
    ∧ ∀ a, a ≠ bid → mappings st' !! a = mappings st !! a.
Proof.
  intros Hp He Hbefore Hparent. unfold remap_group.
  destruct (no_identifiers_listed entitlement prefix plist m st Hp He) as (printed & Hpr & Hl).
  rewrite (bind_run _ _ _ _ _ Hpr). cbv zeta. rewrite Hl.
  rewrite bool_decide_eq_true_2 by (simpl; lia).
  rewrite (bind_run _ _ _ _ _ (default_remap_ids_found _ _ _ _ _ _ _ Hp Hbefore Hparent)).
  rewrite bool_decide_eq_false_2 by (simpl; lia).
  destruct (remap_group_tail_run env opts entitlement prefix plist [bid] patches m st Hp)
    as (st' & Hrun & Hfs & Hmap).
  exists st'. split; [exact Hrun |]. split; [exact Hfs |]. split.
  - rewrite Hmap. by rewrite bool_decide_eq_true_2 by apply list_elem_of_here.
  - intros a Ha. rewrite Hmap. rewrite bool_decide_eq_false_2; [done |].
    by intros [? | ?%elem_of_nil]%elem_of_cons.
Qed.

(** ** The further properties at work *)

Lemma settle_contained_leaves_other_jobs_witness :
  let pipe := λ p : Path, {| popen_component := p; popen_entitlements := None;
                             popen_returncode := 0 |} in
  let framework := Demo.main_app ++ ["Frameworks"; "A.framework"] in
  let jobs := [(Demo.watch_app, pipe Demo.watch_app); (framework, pipe framework)] in
  let run := settle_contained Demo.env Demo.watch_ext (map fst jobs) jobs Demo.st0 in
  jobs_wf jobs
  ∧ run.1 = Ok [(framework, pipe framework)]
  ∧ dict_get framework [(framework, pipe framework)] = dict_get framework jobs
  ∧ fs run.2 = fs Demo.st0.
Proof.
  intros pipe framework jobs run.
  assert (jobs_wf jobs) as Hwf.
  { split.
    - apply NoDup_cons. split; [| apply NoDup_singleton].
      intros H%list_elem_of_singleton. discriminate H.
    - intros p pipe' Hin.
      apply elem_of_cons in Hin as [[= -> ->] | Hin]; [reflexivity |].
      apply list_elem_of_singleton in Hin. injection Hin as -> ->. reflexivity. }
  assert (run.1 = Ok [(framework, pipe framework)]) as Hresult by (vm_compute; reflexivity).
  split; [exact Hwf |]. split; [exact Hresult |].
  destruct (settle_contained_leaves_other_jobs Demo.env Demo.watch_ext jobs
              [(framework, pipe framework)] Demo.st0 run.2 Hwf
              (run_with_result run _ Hresult)) as (Hkept & _ & Hfs & _).
  split; [| exact Hfs]. apply Hkept. vm_compute. reflexivity.
Defined.

Lemma successful_session_checked_every_job_witness :
  let opts := Demo.opts Demo.wildcard_profile (Some "com.new.app") false false false in
  let run := sign Demo.env opts Demo.st0 in
  run.1 = Ok tt
  ∧ ∀ c, c ∈ discover Demo.env Demo.main_app → codesign_status Demo.env c = 0.
Proof.
  intros opts run.
  assert (run.1 = Ok tt) as Hresult by (vm_compute; reflexivity).
  split; [exact Hresult |].
  destruct (successful_session_checked_every_job Demo.env opts Demo.st0 run.2
              (run_with_result run _ Hresult)) as (evs & _ & _ & Hall).
  intros c. apply (Hall Demo.main_app). reflexivity.
Defined.

Lemma session_dispatches_in_discovery_order_witness :
  let opts := Demo.opts Demo.wildcard_profile (Some "com.new.app") false false false in
  let run := sign Demo.env opts Demo.st0 in
  run.1 = Ok tt
  ∧ ∃ evs, marks run.2 = marks Demo.st0 ++ evs
           ∧ dispatched evs = discover Demo.env Demo.main_app
           ∧ last (dispatched evs) = Some Demo.main_app.
Proof.
  intros opts run.
  assert (run.1 = Ok tt) as Hresult by (vm_compute; reflexivity).
  split; [exact Hresult |].
  destruct (session_dispatches_in_discovery_order Demo.env opts Demo.st0 run.2 (Ok tt)
              (run_with_result run _ Hresult)) as (evs & Hevs & Hhead).
  exists evs. split; [exact Hevs |].
  change (head (glob Demo.env (app_dir opts) "Payload/*.app")) with (Some Demo.main_app)
    in Hhead.
  destruct Hhead as [_ Hok]. exact (Hok eq_refl).
Defined.

Lemma exec_retry_ends_within_witness :
  let timeout := MkExn KException "xcodebuild timed out"
                   (Some (MkExn KTimeoutExpired "xcodebuild" None)) in
  let func : M unit :=
    λ st, (Raise timeout, set_clock_xcode (clock st + 20)%Q (xcode st) st) in
  (0 < 20)%Q
  ∧ (exec_retry (S (Z.to_nat (Qceiling (retry_deadline / 20)))) "xcode_archive" func
       Demo.st0).1 ≠ OutOfFuel.
Proof.
  intros timeout func.
  assert (0 < 20)%Q as Hd by reflexivity.
  split; [exact Hd |].
  apply (exec_retry_ends_within "xcode_archive" func 20 Demo.st0 Hd).
  - intros st. simpl. discriminate.
  - intros st e st' Hrun _. injection Hrun as _ <-. simpl. apply Qle_refl.
Defined.

Lemma dump_prov_entitlements_plist_outcomes_witness :
  let run := dump_prov_entitlements_plist Demo.fixed_profile ["out.plist"] Demo.st0 in
  ¬ tmp_dir (tmp_count Demo.st0) `prefix_of` Demo.fixed_profile
  ∧ ¬ tmp_dir (tmp_count Demo.st0) `prefix_of` ["out.plist"]
  ∧ run.1 = Ok tt
  ∧ fs run.2 !! ["out.plist"]
    = Some (FPlist (list_to_map (Demo.granted "TEAMID.com.other.app"))).
Proof.
  intros run.
  assert (¬ tmp_dir (tmp_count Demo.st0) `prefix_of` Demo.fixed_profile) as H1
    by (intros [k Hk]; discriminate Hk).
  assert (¬ tmp_dir (tmp_count Demo.st0) `prefix_of` ["out.plist"]) as H2
    by (intros [k Hk]; discriminate Hk).
  split; [exact H1 |]. split; [exact H2 |].
  destruct (dump_prov_entitlements_plist_outcomes Demo.fixed_profile ["out.plist"] Demo.st0
              H1 H2) as (_ & _ & Hdone).
  assert (fs Demo.st0 !! Demo.fixed_profile
          = Some (FProv (Demo.profile "TEAMID.com.other.app"))) as Hfile
    by (vm_compute; reflexivity).
  specialize (Hdone _ Hfile).
  assert (Demo.profile "TEAMID.com.other.app" !! "Entitlements"
          = Some (PDict (Demo.granted "TEAMID.com.other.app"))) as Hkey
    by (vm_compute; reflexivity).
  rewrite Hkey in Hdone. exact Hdone.
Defined.


Lemma secondary_component_keeps_its_files_witness :
  let framework := Demo.main_app ++ ["Frameworks"; "A.framework"] in
  let opts := Demo.opts Demo.wildcard_profile (Some "com.new.app") false false false in
  let run := sign_components Demo.env opts "com.new.app" "com.example.app" false (tmp_dir 0)
               [framework] [] Demo.st0 in
  (path_suffix framework ∉ [".appex"; ".app"])
  ∧ run.1 = Ok [(framework, {| popen_component := framework; popen_entitlements := None;
                               popen_returncode := 0 |})]
  ∧ last (trace run.2) = Some (EvDispatch framework None)
  ∧ fs run.2 !! joinpath Demo.main_app "Info.plist"
    = fs Demo.st0 !! joinpath Demo.main_app "Info.plist".
Proof.
  intros framework opts run.
  assert (path_suffix framework ∉ [".appex"; ".app"]) as Hsuffix.
  { intros Hin. apply elem_of_cons in Hin as [Hin | Hin]; [discriminate Hin |].
    apply list_elem_of_singleton in Hin. discriminate Hin. }
  assert (run.1 = Ok [(framework, {| popen_component := framework;
                                     popen_entitlements := None;
                                     popen_returncode := 0 |})]) as Hresult
    by (vm_compute; reflexivity).
  split; [exact Hsuffix |]. split; [exact Hresult |].
  destruct (secondary_component_keeps_its_files Demo.env opts "com.new.app" "com.example.app"
              false (tmp_dir 0) framework [] _ Demo.st0 run.2 Hsuffix
              (run_with_result run _ Hresult)) as (Hlast & _ & Hsame).
  split; [exact Hlast |]. apply Hsame. intros [k Hk]. discriminate Hk.
Defined.

Lemma force_all_devices_result_witness :
  let opts := Demo.opts Demo.wildcard_profile None false false false in
  let info := joinpath Demo.main_app "Info.plist" in
  let run := force_all_devices opts info Demo.st0 in
  patch_all_devices opts = true
  ∧ run.1 = Ok tt
  ∧ ∃ m', fs run.2 !! info = Some (FPlist m')
          ∧ m' !! "UIDeviceFamily" = Some (PArray [PInteger 1; PInteger 2])
          ∧ m' !! "UISupportedDevices" = None
          ∧ m' !! "CFBundleIdentifier" = Some (PString "com.example.app").
Proof.
  intros opts info run.
  split; [reflexivity |].
  assert (fs Demo.st0 !! info
          = Some (FPlist (<["CFBundleIdentifier" := PString "com.example.app"]> ∅)))
    as Hinfo by (vm_compute; reflexivity).
  destruct (force_all_devices_result opts info _ Demo.st0 eq_refl Hinfo)
    as (st' & m' & Hrun & Hfile & Hfamily & Hdevices & Hkeys & _).
  fold run in Hrun. rewrite Hrun. split; [reflexivity |].
  exists m'. split; [exact Hfile |]. split; [exact Hfamily |]. split; [exact Hdevices |].
  rewrite Hkeys by discriminate. vm_compute. reflexivity.
Defined.

Lemma force_file_sharing_result_witness :
  let opts := Demo.opts Demo.wildcard_profile None false false false in
  let info := joinpath Demo.main_app "Info.plist" in
  let run := force_file_sharing opts info Demo.st0 in
  patch_file_sharing opts = true
  ∧ run.1 = Ok tt
  ∧ ∃ m', fs run.2 !! info = Some (FPlist m')
          ∧ m' !! "UIFileSharingEnabled" = Some (PBool true)
          ∧ m' !! "UISupportsDocumentBrowser" = Some (PBool true)
          ∧ m' !! "CFBundleIdentifier" = Some (PString "com.example.app").
Proof.
  intros opts info run.
  split; [reflexivity |].
  assert (fs Demo.st0 !! info
          = Some (FPlist (<["CFBundleIdentifier" := PString "com.example.app"]> ∅)))
    as Hinfo by (vm_compute; reflexivity).
  destruct (force_file_sharing_result opts info _ Demo.st0 eq_refl Hinfo)
    as (st' & m' & Hrun & Hfile & Hsharing & Hbrowser & Hkeys & _).
  fold run in Hrun. rewrite Hrun. split; [reflexivity |].
  exists m'. split; [exact Hfile |]. split; [exact Hsharing |]. split; [exact Hbrowser |].
  rewrite Hkeys by discriminate. vm_compute. reflexivity.
Defined.

Lemma bundle_id_txt_untouched_or_written_witness :
  let opts := Demo.opts Demo.wildcard_profile (Some "com.new.app") false false false in
  let run := sign Demo.env opts Demo.st0 in
  run.1 = Ok tt
  ∧ ∃ main_bid st1,
      sign_main_bundle_id Demo.env opts "com.example.app" Demo.st0 = (Ok main_bid, st1)
      ∧ fs run.2 !! ["bundle_id.txt"] = Some (FText main_bid).
Proof.
  intros opts run.
  assert (run.1 = Ok tt) as Hresult by (vm_compute; reflexivity).
  split; [exact Hresult |].
  destruct (bundle_id_txt_untouched_or_written Demo.env opts Demo.st0 run.2 run.1
              (surjective_pairing run))
    as [[_ Hne] | (main_app & old_main & main_bid & st1 & st2 & Hhead & Hold & Hbid & Hfile)].
  - destruct (Hne Hresult).
  - change (head (glob Demo.env (app_dir opts) "Payload/*.app")) with (Some Demo.main_app)
      in Hhead.
    injection Hhead as <-.
    assert (plist_buddy (PB_Print "CFBundleIdentifier") (joinpath Demo.main_app "Info.plist")
              true Demo.st0 = (Ok "com.example.app", Demo.st0)) as Hprint
      by (vm_compute; reflexivity).
    rewrite Hprint in Hold. injection Hold as <- <-.
    exists main_bid, st2. split; [exact Hbid | exact Hfile].
Defined.

Lemma sign_leaves_other_files_witness :
  let opts := Demo.opts Demo.wildcard_profile (Some "com.new.app") false false false in
  let run := sign Demo.env opts Demo.st0 in
  Demo.wildcard_profile ≠ ["bundle_id.txt"]
  ∧ ¬ temporary Demo.wildcard_profile
  ∧ ¬ prov_profiles_dir `prefix_of` Demo.wildcard_profile
  ∧ fs run.2 !! Demo.wildcard_profile = fs Demo.st0 !! Demo.wildcard_profile.
Proof.
  intros opts run.
  assert (Demo.wildcard_profile ≠ ["bundle_id.txt"]) as H1 by discriminate.
  assert (¬ temporary Demo.wildcard_profile) as H2 by (intros [k Hk]; discriminate Hk).
  assert (¬ prov_profiles_dir `prefix_of` Demo.wildcard_profile) as H3
    by (intros [k Hk]; discriminate Hk).
  split; [exact H1 |]. split; [exact H2 |]. split; [exact H3 |].
  apply (sign_leaves_other_files Demo.env opts Demo.st0 run.2 run.1 Demo.wildcard_profile
           (surjective_pairing run) H1 H2 H3).
  intros main_app c Hhead Hc.
  change (head (glob Demo.env (app_dir opts) "Payload/*.app")) with (Some Demo.main_app)
    in Hhead.
  injection Hhead as <-.
  change (discover Demo.env Demo.main_app)
    with [Demo.watch_ext; Demo.watch_app; Demo.main_app] in Hc.
  assert (c = Demo.watch_ext ∨ c = Demo.watch_app ∨ c = Demo.main_app) as Hcases.
  { apply elem_of_cons in Hc as [Hc | Hc]; [by left |].
    apply elem_of_cons in Hc as [Hc | Hc]; [by right; left |].
    apply list_elem_of_singleton in Hc. by right; right. }
  destruct Hcases as [-> | [-> | ->]];
    (split; [discriminate |]; split; [discriminate |]; split; [discriminate |];
     intros [k Hk]; discriminate Hk).
Defined.

Lemma keep_first_profile_outcomes_witness :
  let embedded := joinpath Demo.main_app "embedded.mobileprovision" in
  let made := joinpath prov_profiles_dir "made.mobileprovision" in
  let st := set_fs (insert made (FProv (Demo.profile "TEAMID.com.new.app"))) Demo.st0 in
  let run := keep_first_profile embedded st in
  ¬ prov_profiles_dir `prefix_of` embedded
  ∧ under prov_profiles_dir (fs st) ≠ ∅
  ∧ run.1 = Ok tt
  ∧ under prov_profiles_dir (fs run.2) = ∅
  ∧ fs run.2 !! Demo.fixed_profile = fs st !! Demo.fixed_profile.
Proof.
  intros embedded made st run.
  assert (¬ prov_profiles_dir `prefix_of` embedded) as Hemb
    by (intros [k Hk]; discriminate Hk).
  assert (under prov_profiles_dir (fs st) ≠ ∅) as Hsome.
  { intros Hnone.
    assert (under prov_profiles_dir (fs st) !! made
            = Some (FProv (Demo.profile "TEAMID.com.new.app"))) as Hmade
      by (vm_compute; reflexivity).
    rewrite Hnone in Hmade. discriminate Hmade. }
  split; [exact Hemb |]. split; [exact Hsome |].
  destruct (keep_first_profile_outcomes embedded st Hemb) as [_ Hkeep].
  destruct (Hkeep Hsome) as (Hresult & Hgone & _ & Hsame).
  split; [exact Hresult |]. split; [exact Hgone |].
  apply Hsame; [intros [k Hk]; discriminate Hk | discriminate].
Defined.

Lemma sign_primary_embeds_the_supplied_profile_witness :
  let opts := Demo.opts Demo.fixed_profile (Some "com.new.app") false false false in
  let st := bump_tmp Demo.st0 in
  let run := sign_primary Demo.env opts "com.new.app" "com.example.app" false
               Demo.main_app (tmp_dir 0) st in
  prov_file opts = Some Demo.fixed_profile
  ∧ Demo.fixed_profile ≠ joinpath Demo.main_app "embedded.mobileprovision"
  ∧ ¬ temporary Demo.main_app
  ∧ ¬ tmp_dir 0 `prefix_of` Demo.fixed_profile
  ∧ run.1 = Ok {| popen_component := Demo.main_app;
                  popen_entitlements := Some (joinpath (tmp_dir 0) (tmp_name 1 +:+ ".plist"));
                  popen_returncode := 0 |}
  ∧ fs run.2 !! joinpath Demo.main_app "embedded.mobileprovision"
    = Some (FProv (Demo.profile "TEAMID.com.other.app")).
Proof.
  intros opts st run.
  assert (Demo.fixed_profile ≠ joinpath Demo.main_app "embedded.mobileprovision") as Hne
    by discriminate.
  assert (¬ temporary Demo.main_app) as Htmp by (intros [k Hk]; discriminate Hk).
  assert (¬ tmp_dir 0 `prefix_of` Demo.fixed_profile) as Hwork
    by (intros [k Hk]; discriminate Hk).
  assert (run.1 = Ok {| popen_component := Demo.main_app;
                         popen_entitlements :=
                           Some (joinpath (tmp_dir 0) (tmp_name 1 +:+ ".plist"));
                         popen_returncode := 0 |}) as Hresult
    by (vm_compute; reflexivity).
  assert (fs st !! Demo.fixed_profile
          = Some (FProv (Demo.profile "TEAMID.com.other.app"))) as Hprofile
    by (vm_compute; reflexivity).
  split; [reflexivity |]. split; [exact Hne |]. split; [exact Htmp |].
  split; [exact Hwork |]. split; [exact Hresult |].
  exact (sign_primary_embeds_the_supplied_profile Demo.env opts "com.new.app"
           "com.example.app" false Demo.main_app (tmp_dir 0) Demo.fixed_profile _ st run.2 _
           eq_refl Hprofile Hne Htmp Hwork (run_with_result run _ Hresult)).
Defined.

Lemma remap_groups_keep_the_table_canonical_witness :
  let opts := Demo.opts Demo.wildcard_profile (Some "com.new.app") false false true in
  let plist := joinpath Demo.main_app "Info.plist" in
  let groups := [("com.apple.security.application-groups", "group.", [] : list string)] in
  let st' := (remap_groups Demo.env opts plist "com.example.app" groups [] Demo.st0).2 in
  canonical Demo.env opts (mappings Demo.st0)
  ∧ canonical Demo.env opts (mappings st').
Proof.
  intros opts plist groups st'.
  assert (canonical Demo.env opts (mappings Demo.st0)) as Hcan.
  { intros a v Hav. simpl in Hav. rewrite lookup_empty in Hav. discriminate Hav. }
  split; [exact Hcan |].
  exact (proj1 (remap_groups_keep_the_table_canonical Demo.env opts plist "com.example.app"
                  groups [] Demo.st0 Hcan)).
Defined.


Lemma remap_group_without_identifiers_witness :
  let opts := Demo.opts Demo.wildcard_profile (Some "com.new.app") false false true in
  let plist := joinpath Demo.main_app "Info.plist" in
  let group := ("keychain-access-groups", "TEAMID.", ["com.apple.developer.icloud-services"]) in
  remap_group Demo.env opts plist "com.example.app" group [] Demo.st0 = (Ok [], Demo.st0).
Proof.
  intros opts plist group.
  assert (fs Demo.st0 !! plist
          = Some (FPlist (<["CFBundleIdentifier" := PString "com.example.app"]> ∅)))
    as Hfile by (vm_compute; reflexivity).
  apply (remap_group_without_identifiers Demo.env opts plist "com.example.app"
           "keychain-access-groups" "TEAMID." ["com.apple.developer.icloud-services"] []
           _ Demo.st0 Hfile).
  - left. vm_compute. reflexivity.
  - apply Forall_cons. split; [vm_compute; reflexivity | apply Forall_nil_2].
Defined.

Lemma remap_group_defaults_to_the_bundle_identifier_witness :
  let opts := Demo.opts Demo.wildcard_profile (Some "com.new.app") false false false in
  let plist : Path := ["e.plist"] in
  let entitlement := "com.apple.developer.icloud-container-identifiers" in
  let parent := "com.apple.developer.icloud-services" in
  let m : Plist := <[parent := PArray [PString "CloudKit"]]> ∅ in
  let st := set_fs (insert plist (FPlist m)) Demo.st0 in
  let run := remap_group Demo.env opts plist "com.example.app"
               (entitlement, "iCloud.", [parent]) [] st in
  is_Some (m !! parent)
  ∧ run.1 = Ok [("iCloud.com.example.app", "iCloud.com.example.app")]
  ∧ fs run.2 !! plist
    = Some (FPlist (<[entitlement := PArray [PString "iCloud.com.example.app"]]> m))
  ∧ mappings run.2 !! "com.example.app" = Some "com.example.app".
Proof.
  intros opts plist entitlement parent m st run.
  assert (is_Some (m !! parent)) as Hparent
    by (exists (PArray [PString "CloudKit"]); vm_compute; reflexivity).
  split; [exact Hparent |].
  assert (fs st !! plist = Some (FPlist m)) as Hfile by (vm_compute; reflexivity).
  assert (m !! entitlement = None ∨ m !! entitlement = Some (PArray [])) as Hkey
    by (left; vm_compute; reflexivity).
  destruct (remap_group_defaults_to_the_bundle_identifier Demo.env opts plist
              "com.example.app" entitlement "iCloud." parent [] [] [] m st Hfile Hkey
              (Forall_nil_2 _) Hparent)
    as (st' & Hrun & Hfs & Hmap & _).
  change (run = (Ok (dict_set ("iCloud." +:+ "com.example.app")
                       ("iCloud." +:+ remapped Demo.env opts (mappings st) "com.example.app")
                       []), st')) in Hrun.
  rewrite Hrun. cbn [fst snd]. split; [reflexivity |]. split.
  - rewrite Hfs. apply lookup_insert_eq.
  - exact Hmap.
Defined.


Lemma strip_entitlements_effect_witness :
  let plist : Path := ["e.plist"] in
  let m : Plist :=
    <["get-task-allow" := PBool true]>
    (<["aps-environment" := PString "production"]>
    (<["keychain-access-groups" := PArray [PString "TEAMID.com.example.app"]]> ∅)) in
  let st := set_fs (insert plist (FPlist m)) Demo.st0 in
  ∃ m', strip_entitlements plist st = (Ok tt, set_fs (insert plist (FPlist m')) st)
        ∧ m' !! "get-task-allow" = None
        ∧ m' !! "aps-environment" = Some (PString "development")
        ∧ m' !! "com.apple.developer.icloud-container-environment" = None
        ∧ m' !! "keychain-access-groups" = Some (PArray [PString "TEAMID.com.example.app"]).
Proof.
  intros plist m st.
  assert (fs st !! plist = Some (FPlist m)) as Hfile by (vm_compute; reflexivity).
  destruct (strip_entitlements_effect plist st) as [Hplist _].
  destruct (Hplist m Hfile) as (m' & Hrun & Hstripped & Hkept & Hdemoted).
  exists m'. split; [exact Hrun |]. split; [| split; [| split]].
  - apply Hstripped. vm_compute. do 2 right. by left.
  - assert (("aps-environment", "development") ∈ demoted_entitlements) as Hin
      by (vm_compute; right; by left).
    pose proof (Hdemoted _ _ Hin) as Haps.
    assert (m !! "aps-environment" = Some (PString "production")) as Hold
      by (vm_compute; reflexivity).
    rewrite Hold in Haps. exact Haps.
  - assert (("com.apple.developer.icloud-container-environment", "Development")
            ∈ demoted_entitlements) as Hin
      by (vm_compute; by left).
    pose proof (Hdemoted _ _ Hin) as Hicloud.
    assert (m !! "com.apple.developer.icloud-container-environment" = None) as Hold
      by (vm_compute; reflexivity).
    rewrite Hold in Hicloud. exact Hicloud.
  - rewrite Hkept; [vm_compute; reflexivity | |].
    + intros Hin. vm_compute in Hin.
      repeat (apply elem_of_cons in Hin as [Hin | Hin]; [discriminate Hin |]).
      by apply elem_of_nil in Hin.
    + intros Hin. vm_compute in Hin.
      repeat (apply elem_of_cons in Hin as [Hin | Hin]; [discriminate Hin |]).
      by apply elem_of_nil in Hin.
Defined.

Lemma sign_needs_a_main_application_witness :
  let opts : SignOpts :=
    {| app_dir := ["empty"]; common_name := "iPhone Developer: Test"; team_id := "TEAMID";
       prov_file := None; bundle_id := None; bundle_name := None;
       patch_debug := false; patch_all_devices := false; patch_file_sharing := false;
       encode_ids := false; patch_ids := false; force_original_id := false |} in
  glob Demo.env (app_dir opts) "Payload/*.app" = []
  ∧ sign Demo.env opts Demo.st0 = (Raise (MkExn KStopIteration EmptyString None), Demo.st0).
Proof.
  intros opts.
  assert (glob Demo.env (app_dir opts) "Payload/*.app" = []) as Hglob by reflexivity.
  split; [exact Hglob |].
  exact (proj1 (sign_needs_a_main_application Demo.env opts Demo.st0) Hglob).
Defined.
